(** * Smart Research Assistant: a shallow embedding of [app.py]

    The script is a Streamlit page: it extracts the text of an uploaded file,
    summarises its first chunks, answers questions on a prefix of the text and
    runs a small quiz whose state lives in [st.session_state].

    Python strings are modelled as lists of Unicode code points, Python
    exceptions as an explicit result type, [st.session_state] as a finite
    map, and the three inference pipelines as functions given from outside.
    The library routines the script calls ([textwrap.wrap], [str.strip],
    [str.split], [round], [repr] of a float) are embedded here as well,
    following their CPython 3.11 sources. *)

From Stdlib Require Import ZArith NArith List String Ascii Lia Bool.
From Stdlib Require Import Floats.SpecFloat DecimalNat.
From stdpp Require Import base option list strings gmap.

Local Open Scope nat_scope.
Local Open Scope list_scope.

(** ** Python strings *)

Abbreviation pystr := (list N).

(** A string literal of the script, as code points. *)
Definition py (s : string) : pystr :=
  List.map N_of_ascii (list_ascii_of_string s).
Arguments py : simpl never.

Module Chr.
Definition tab : N := 9.
Definition nl : N := 10.
Definition cr : N := 13.
Definition sp : N := 32.
Definition hyphen : N := 45.
Definition underscore : N := 95.
End Chr.

(** [Py_UNICODE_ISSPACE]: the characters [str.strip()] removes and for which
    [str.isspace()] holds. *)
Definition isspace (c : N) : bool :=
  ((9 <=? c) && (c <=? 13) || (28 <=? c) && (c <=? 32) ||
   (c =? 133) || (c =? 160) || (c =? 5760) ||
   (8192 <=? c) && (c <=? 8202) ||
   (c =? 8232) || (c =? 8233) || (c =? 8239) || (c =? 8287) ||
   (c =? 12288))%N.

Fixpoint lstrip (s : pystr) : pystr :=
  match s with
  | c :: s' => if isspace c then lstrip s' else s
  | [] => []
  end.

Definition rstrip (s : pystr) : pystr := rev (lstrip (rev s)).

(** [s.strip()] *)
Definition strip (s : pystr) : pystr := rstrip (lstrip s).

(** Truth value of a string: [if s:] *)
Definition truthy (s : pystr) : bool :=
  match s with [] => false | _ => true end.

(** [s.split(sep)] for a one-character separator. *)
Fixpoint split_on (sep : N) (s : pystr) : list pystr :=
  match s with
  | [] => [[]]
  | c :: s' =>
    if (c =? sep)%N then [] :: split_on sep s'
    else match split_on sep s' with
         | h :: t => (c :: h) :: t
         | [] => [[c]]
         end
  end.

(** [s[:n]] for [n >= 0], of a string or a list *)
Definition slice_to {A : Type} (n : nat) (s : list A) : list A := take n s.

(** [s[n:]] for [n >= 0] *)
Definition slice_from {A : Type} (n : nat) (s : list A) : list A := drop n s.

(** [''.join(parts)] *)
Definition join_empty (parts : list pystr) : pystr := concat parts.

(** [str(n)] for a non-negative [int]. *)
Fixpoint digits_of_uint (d : Decimal.uint) : pystr :=
  match d with
  | Decimal.Nil => []
  | Decimal.D0 d => 48%N :: digits_of_uint d
  | Decimal.D1 d => 49%N :: digits_of_uint d
  | Decimal.D2 d => 50%N :: digits_of_uint d
  | Decimal.D3 d => 51%N :: digits_of_uint d
  | Decimal.D4 d => 52%N :: digits_of_uint d
  | Decimal.D5 d => 53%N :: digits_of_uint d
  | Decimal.D6 d => 54%N :: digits_of_uint d
  | Decimal.D7 d => 55%N :: digits_of_uint d
  | Decimal.D8 d => 56%N :: digits_of_uint d
  | Decimal.D9 d => 57%N :: digits_of_uint d
  end.

Definition str_of_nat (n : nat) : pystr := digits_of_uint (Nat.to_uint n).

(** ** Python exceptions

    [FuelExhausted] is not an exception of Python: the loops of [textwrap]
    and [re] are run on a fuel that is proved sufficient, and this is what
    they would return if it were not. *)

Inductive exn : Type :=
| ValueError
| IndexError
| AttributeError
| UnicodeDecodeError
| PipelineError
| OtherError (name : string)
| FuelExhausted.

Inductive res (A : Type) : Type :=
| Ok (x : A)
| Raise (e : exn).
Arguments Ok {A} x.
Arguments Raise {A} e.

(** ** Python floats: IEEE 754 binary64, with [round] and [repr] *)

Module PyFloat.
Local Open Scope Z_scope.

Definition prec : Z := 53.
Definition emax : Z := 1024.

Abbreviation float := spec_float.

(** [x * y] *)
Definition mul (x y : float) : float := SFmul prec emax x y.

(** The float nearest to [num / den], ties to even: what reading a decimal
    literal gives. *)
Definition of_ratio (sign : bool) (num den : positive) : float :=
  SFdiv prec emax (S754_finite sign num 0) (S754_finite false den 0).

(** [float(n)] *)
Definition of_int (n : Z) : float := binary_normalize prec emax n 0 false.

(** The same float: the same sign, mantissa and exponent. *)
Definition eqb (x y : float) : bool :=
  match x, y with
  | S754_zero s, S754_zero t => Bool.eqb s t
  | S754_infinity s, S754_infinity t => Bool.eqb s t
  | S754_finite s m e, S754_finite t n f =>
    Bool.eqb s t && (Zpos m =? Zpos n) && (e =? f)
  | _, _ => false
  end.

(** [num / den] rounded to an integer, halves to the even one. *)
Definition round_half_even (num den : Z) : Z :=
  let q := num / den in
  match 2 * (num mod den) ?= den with
  | Lt => q
  | Gt => q + 1
  | Eq => if Z.even q then q else q + 1
  end.

(** [round(x, ndigits)] for [0 <= ndigits <= 323]: the decimal with
    [ndigits] places nearest to the exact value of [x], halves to even,
    read back as a float.  Zeros, infinities and NaN round to themselves,
    and a value that rounds to zero keeps its sign. *)
Definition round (x : float) (ndigits : nat) : float :=
  match x with
  | S754_finite s m e =>
    let p10 := 10 ^ Z.of_nat ndigits in
    let n := match e with
             | Zneg _ => round_half_even (Zpos m * p10) (2 ^ (- e))
             | _ => Zpos m * 2 ^ e * p10
             end in
    match n with
    | Zpos n' => of_ratio s n' (Z.to_pos p10)
    | _ => S754_zero s
    end
  | _ => x
  end.

(** The exact value of a finite float as a fraction. *)
Definition to_ratio (m : positive) (e : Z) : Z * Z :=
  match e with
  | Zneg _ => (Zpos m, 2 ^ (- e))
  | _ => (Zpos m * 2 ^ e, 1)
  end.

(** [num / den * 10^k] *)
Definition scale10 (v : Z * Z) (k : Z) : Z * Z :=
  match k with
  | Zneg _ => (fst v, snd v * 10 ^ (- k))
  | _ => (fst v * 10 ^ k, snd v)
  end.

(** The least [k] from [k0] on with [v < 10^k]. *)
Fixpoint decimal_point (fuel : nat) (v : Z * Z) (k : Z) : Z :=
  match fuel with
  | O => k
  | S fuel' =>
    let '(n, d) := scale10 v (- k) in
    if n <? d then k else decimal_point fuel' v (k + 1)
  end.

(** [d * 10^k] as a float of the given sign. *)
Definition of_decimal (sign : bool) (d k : Z) : float :=
  let '(n, q) := scale10 (d, 1) k in
  match n with
  | Zpos n' => of_ratio sign n' (Z.to_pos q)
  | _ => S754_zero sign
  end.

(** The [n]-digit decimal that reads back as [x], if there is one: of the
    two decimals around the exact value, the nearer that reads back. *)
Definition digits_at (x : float) (sign : bool) (v : Z * Z) (point : Z)
    (n : Z) : option Z :=
  let '(sn, sd) := scale10 v (n - point) in
  let lo := sn / sd in
  let hi := lo + 1 in
  let back d := eqb (of_decimal sign d (point - n)) x in
  if sn mod sd =? 0 then (if back lo then Some lo else None)
  else
    match back lo, back hi with
    | true, true =>
      match 2 * sn ?= (lo + hi) * sd with
      | Lt => Some lo
      | Gt => Some hi
      | Eq => Some (if Z.even lo then lo else hi)
      end
    | true, false => Some lo
    | false, true => Some hi
    | false, false => None
    end.

(** The shortest decimal that reads back as [x], from [n] digits on. *)
Fixpoint shortest (fuel : nat) (x : float) (sign : bool) (v : Z * Z)
    (point : Z) (n : Z) : Z * Z :=
  match fuel with
  | O => (fst (scale10 v (n - point)) / snd (scale10 v (n - point)), n)
  | S fuel' =>
    match digits_at x sign v point n with
    | Some d => (d, n)
    | None => shortest fuel' x sign v point (n + 1)
    end
  end.

(** The decimal without its trailing zeros. *)
Fixpoint strip_zeros (fuel : nat) (d : Z) : Z :=
  match fuel with
  | O => d
  | S fuel' => if (d mod 10 =? 0) && negb (d =? 0)
               then strip_zeros fuel' (d / 10) else d
  end.

(** [str(n)] for a non-negative [int], without going through [nat]. *)
Definition str_of_Z (n : Z) : pystr := digits_of_uint (N.to_uint (Z.to_N n)).

(** [format_float_short] for the code ['r'], with [Py_DTSF_ADD_DOT_0]:
    the digits and the position of the decimal point. *)
Definition format_repr (digits : pystr) (decpt : Z) : pystr :=
  let len := Z.of_nat (length digits) in
  if (decpt <=? -4) || (16 <? decpt) then
    let e := decpt - 1 in
    let mantissa :=
      match digits with
      | d :: (_ :: _) as rest => d :: 46%N :: rest
      | _ => digits
      end in
    let exponent := str_of_Z (Z.abs e) in
    (mantissa ++ py "e" ++ (if e <? 0 then py "-" else py "+") ++
     (if Z.abs e <? 10 then py "0" else []) ++ exponent)%list
  else if decpt <=? 0 then
    (py "0." ++ replicate (Z.to_nat (- decpt)) 48%N ++ digits)%list
  else if len <=? decpt then
    (digits ++ replicate (Z.to_nat (decpt - len)) 48%N ++ py ".0")%list
  else
    (take (Z.to_nat decpt) digits ++ py "." ++
     drop (Z.to_nat decpt) digits)%list.

(** [repr(x)], which is also [str(x)] and [format(x, '')]: the shortest
    decimal that reads back as [x], in fixed notation unless the decimal
    point falls before the fourth leading zero or after sixteen digits. *)
Definition repr (x : float) : pystr :=
  match x with
  | S754_nan => py "nan"
  | S754_infinity s => if s then py "-inf" else py "inf"
  | S754_zero s => if s then py "-0.0" else py "0.0"
  | S754_finite s m e =>
    let v := to_ratio m e in
    let k0 := - (Z.log2 (snd v) + 1) in
    let fuel := Z.to_nat (Z.log2 (fst v) + Z.log2 (snd v) + 3) in
    let point := decimal_point fuel v k0 in
    let '(d, n) := shortest 17 x s v point 1 in
    let d' := strip_zeros 17 d in
    let digits := str_of_Z d' in
    let width := Z.of_nat (length (str_of_Z d)) in
    ((if s then py "-" else []) ++
     format_repr digits (point + (width - n)))%list
  end.
End PyFloat.

(** ** [re]: the fragment of Python's regular expressions that [textwrap]
    uses, with the backtracking semantics of the [sre] engine *)

Module Re.

Inductive regex : Type :=
| Chr (p : N -> bool)                      (* one character of a class *)
| EndZ                                     (* \Z *)
| Cat (r1 r2 : regex)                      (* r1 r2 *)
| Alt (r1 r2 : regex)                      (* r1 | r2 *)
| Rep (greedy : bool) (lo : nat) (p : N -> bool)
                                           (* [p]{lo,} and [p]{lo,}? *)
| Opt (r : regex)                          (* r? *)
| Ahead (r : regex)                        (* (?=r) *)
| Behind (w : nat) (r : regex).            (* (?<=r), r of width w *)

(** A position in the subject: the characters before it, nearest first,
    and the characters from it on. *)
Definition pos : Type := (list N * list N)%type.

Section Matcher.
Context {A : Type}.

(** [p]{lo,}: as many characters as possible first, giving back one at
    a time while the rest of the pattern fails. *)
Fixpoint rep_greedy (p : N -> bool) (lo : nat) (b a : list N)
    (k : list N -> list N -> option A) : option A :=
  let stop := match lo with 0 => k b a | S _ => None end in
  match a with
  | c :: a' =>
    if p c then
      match rep_greedy p (pred lo) (c :: b) a' k with
      | Some x => Some x
      | None => stop
      end
    else stop
  | [] => stop
  end.

(** [p]{lo,}?: as few characters as possible first. *)
Fixpoint rep_lazy (p : N -> bool) (lo : nat) (b a : list N)
    (k : list N -> list N -> option A) : option A :=
  let more :=
    match a with
    | c :: a' => if p c then rep_lazy p (pred lo) (c :: b) a' k else None
    | [] => None
    end in
  match lo with
  | 0 => match k b a with Some x => Some x | None => more end
  | S _ => more
  end.
End Matcher.

(** [match_re r b a k]: match [r] at position [(b, a)] and hand the
    position after it to [k]; when [k] fails the next way of matching [r]
    is tried. *)
Fixpoint match_re {A : Type} (r : regex) (b a : list N)
    (k : list N -> list N -> option A) : option A :=
  match r with
  | Chr p =>
    match a with
    | c :: a' => if p c then k (c :: b) a' else None
    | [] => None
    end
  | EndZ => match a with [] => k b a | _ :: _ => None end
  | Cat r1 r2 => match_re r1 b a (fun b' a' => match_re r2 b' a' k)
  | Alt r1 r2 =>
    match match_re r1 b a k with
    | Some x => Some x
    | None => match_re r2 b a k
    end
  | Rep true lo p => rep_greedy p lo b a k
  | Rep false lo p => rep_lazy p lo b a k
  | Opt r1 =>
    match match_re r1 b a k with
    | Some x => Some x
    | None => k b a
    end
  | Ahead r1 =>
    match match_re r1 b a (fun _ _ => Some tt) with
    | Some _ => k b a
    | None => None
    end
  | Behind w r1 =>
    if length b <? w then None
    else
      match match_re r1 (drop w b) (rev (take w b) ++ a)
              (fun _ a' => if length a' =? length a then Some tt else None)
      with
      | Some _ => k b a
      | None => None
      end
  end.

(** One match attempt of [pattern.search] at the position [(b, a)]; with
    [must_advance] an empty match is refused. *)
Definition match_here (r : regex) (must_advance : bool) (b a : list N)
    : option pos :=
  match_re r b a
    (fun b' a' =>
       if must_advance && (length a' =? length a) then None
       else Some (b', a')).

(** [sre_search]: the first position from [(b, a)] on at which the pattern
    matches.  Returns the text skipped before the match, the matched text
    and the position after it. *)
Fixpoint search (r : regex) (must_advance : bool) (b a : list N)
    (skipped : list N) : option (list N * list N * pos) :=
  match match_here r must_advance b a with
  | Some (b', a') =>
    Some (rev skipped, take (length a - length a') a, (b', a'))
  | None =>
    match a with
    | c :: rest => search r false (c :: b) rest (c :: skipped)
    | [] => None
    end
  end.

(** The loop of [pattern.split] for a pattern that is one capturing group:
    the text before each match, then the match; after an empty match the
    next one must advance. *)
Fixpoint split_loop (fuel : nat) (r : regex) (must_advance : bool)
    (b a : list N) : option (list pystr) :=
  match search r must_advance b a [] with
  | None => Some [a]
  | Some (before, matched, (b', a')) =>
    match fuel with
    | 0 => None
    | S fuel' =>
      match split_loop fuel' r (negb (truthy matched)) b' a' with
      | Some pieces => Some (before :: matched :: pieces)
      | None => None
      end
    end
  end.

(** [re.compile('(r)').split(text)]; [None] stands for an exhausted fuel,
    which [split_total] excludes. *)
Definition split (r : regex) (text : pystr) : option (list pystr) :=
  split_loop (2 * length text + 1) r false [] text.

End Re.

(** ** [textwrap.wrap] with the default options of [TextWrapper]

    [expand_tabs], [replace_whitespace], [break_long_words],
    [drop_whitespace] and [break_on_hyphens] are on, the indents are empty,
    [fix_sentence_endings] is off, [max_lines] is [None], [tabsize] is 8. *)

Module Textwrap.
Import Re.

(** [_whitespace = '\t\n\x0b\x0c\r '] *)
Definition is_whitespace (c : N) : bool :=
  ((9 <=? c) && (c <=? 13) || (c =? 32))%N.

(** [text.expandtabs(tabsize)]; the column restarts after a line break. *)
Fixpoint expandtabs_from (tabsize line_pos : nat) (s : pystr) : pystr :=
  match s with
  | [] => []
  | c :: s' =>
    if (c =? Chr.tab)%N then
      if 0 <? tabsize then
        let incr := tabsize - line_pos mod tabsize in
        replicate incr Chr.sp ++ expandtabs_from tabsize (line_pos + incr) s'
      else expandtabs_from tabsize line_pos s'
    else
      c :: expandtabs_from tabsize
             (if (c =? Chr.nl)%N || (c =? Chr.cr)%N then 0 else S line_pos) s'
  end.

Definition expandtabs (tabsize : nat) (s : pystr) : pystr :=
  expandtabs_from tabsize 0 s.

(** [text.translate(unicode_whitespace_trans)] *)
Definition translate_whitespace (s : pystr) : pystr :=
  List.map (fun c => if is_whitespace c then Chr.sp else c) s.

Definition munge_whitespace (text : pystr) : pystr :=
  translate_whitespace (expandtabs 8 text).

(** [chunk.rfind('-', 0, stop)] counted from index [i] of the first
    character of [s]; [None] is Python's [-1]. *)
Fixpoint rfind_from (c : N) (s : pystr) (i stop : nat) : option nat :=
  match s with
  | [] => None
  | x :: s' =>
    match rfind_from c s' (S i) stop with
    | Some j => Some j
    | None => if (x =? c)%N && (i <? stop) then Some i else None
    end
  end.

Definition total_len (chunks : list pystr) : nat := length (concat chunks).

(** The stack of chunks is kept with its top first, the current line in
    reading order. *)
Definition handle_long_word (chunks cur_line : list pystr)
    (cur_len width : nat) : list pystr * list pystr :=
  let space_left := if width <? 1 then 1 else width - cur_len in
  match chunks with
  | [] => (chunks, cur_line)
  | chunk :: rest =>
    let stop :=
      if space_left <? length chunk then
        match rfind_from Chr.hyphen chunk 0 space_left with
        | Some hyphen =>
          if (0 <? hyphen) &&
             existsb (fun c => negb (c =? Chr.hyphen)%N) (slice_to hyphen chunk)
          then hyphen + 1 else space_left
        | None => space_left
        end
      else space_left in
    (slice_from stop chunk :: rest, cur_line ++ [slice_to stop chunk])
  end.

(** The inner [while chunks:] loop: chunks are moved to the line while
    they fit. *)
Fixpoint fill_line (width : nat) (chunks cur_line : list pystr)
    (cur_len : nat) : list pystr * list pystr * nat :=
  match chunks with
  | [] => (chunks, cur_line, cur_len)
  | chunk :: rest =>
    if cur_len + length chunk <=? width
    then fill_line width rest (cur_line ++ [chunk]) (cur_len + length chunk)
    else (chunks, cur_line, cur_len)
  end.

(** [chunk.strip() == ''] *)
Definition blank (chunk : pystr) : bool := negb (truthy (strip chunk)).

Definition drop_trailing_blank (cur_line : list pystr) : list pystr :=
  match last cur_line with
  | Some chunk => if blank chunk then removelast cur_line else cur_line
  | None => cur_line
  end.

(** One pass through the outer [while chunks:] loop of [_wrap_chunks],
    entered with the stack [first :: rest]: the stack and the lines after
    it. *)
Definition wrap_line (width : nat) (first : pystr) (rest lines : list pystr)
    : list pystr * list pystr :=
  let chunks := first :: rest in
  let chunks1 :=
    if blank first && negb (bool_decide (lines = [])) then rest
    else chunks in
  let '(chunks2, cur_line, cur_len) := fill_line width chunks1 [] 0 in
  let '(chunks3, cur_line3) :=
    match chunks2 with
    | next :: _ =>
      if width <? length next
      then handle_long_word chunks2 cur_line cur_len width
      else (chunks2, cur_line)
    | [] => (chunks2, cur_line)
    end in
  let cur_line4 := drop_trailing_blank cur_line3 in
  let lines' :=
    match cur_line4 with
    | [] => lines
    | _ :: _ => lines ++ [join_empty cur_line4]
    end in
  (chunks3, lines').

(** The outer loop; one unit of fuel per pass. *)
Fixpoint wrap_loop (fuel width : nat) (chunks lines : list pystr)
    : option (list pystr) :=
  match chunks with
  | [] => Some lines
  | first :: rest =>
    match fuel with
    | 0 => None
    | S fuel' =>
      let '(chunks', lines') := wrap_line width first rest lines in
      wrap_loop fuel' width chunks' lines'
    end
  end.

Definition wrap_chunks (width : nat) (chunks : list pystr)
    : res (list pystr) :=
  if width <=? 0 then Raise ValueError
  else match wrap_loop (total_len chunks) width chunks [] with
       | Some lines => Ok lines
       | None => Raise FuelExhausted
       end.

Section Wrapper.
(** [str.isalnum] and [str.isdecimal] beyond ASCII, as the Unicode
    database of the interpreter has them. *)
Variables uni_alnum uni_decimal : N -> bool.

Definition ascii_digit (c : N) : bool := ((48 <=? c) && (c <=? 57))%N.
Definition ascii_alpha (c : N) : bool :=
  ((65 <=? c) && (c <=? 90) || (97 <=? c) && (c <=? 122))%N.

(** [\d] *)
Definition re_digit (c : N) : bool :=
  if (c <? 128)%N then ascii_digit c else uni_decimal c.

(** [\w] *)
Definition re_word (c : N) : bool :=
  (if (c <? 128)%N then ascii_alpha c || ascii_digit c else uni_alnum c)
  || (c =? Chr.underscore)%N.

(** [word_punct]: one of [\w], [!], the double quote, ['], [&], [.],
    [,] and [?] *)
Definition word_punct (c : N) : bool :=
  re_word c ||
  ((c =? 33) || (c =? 34) || (c =? 39) || (c =? 38) || (c =? 46) ||
   (c =? 44) || (c =? 63))%N.

(** [letter = [^\d\W]] *)
Definition letter (c : N) : bool := negb (re_digit c) && re_word c.

Definition nowhitespace (c : N) : bool := negb (is_whitespace c).

Definition is_hyphen (c : N) : bool := (c =? Chr.hyphen)%N.

Definition wordsep_re : regex :=
  Alt (* any whitespace *)
      (Rep true 1 is_whitespace)
 (Alt (* em-dash between words *)
      (Cat (Behind 1 (Chr word_punct))
      (Cat (Rep true 2 is_hyphen)
           (Ahead (Chr re_word))))
      (* word, possibly hyphenated *)
      (Cat (Rep false 1 nowhitespace)
      (Alt (* hyphenated word *)
           (Cat (Chr is_hyphen)
           (Cat (Alt (Behind 3 (Cat (Chr letter)
                               (Cat (Chr letter) (Chr is_hyphen))))
                     (Behind 4 (Cat (Chr letter) (Cat (Chr is_hyphen)
                               (Cat (Chr letter) (Chr is_hyphen))))))
                (Ahead (Cat (Chr letter)
                       (Cat (Opt (Chr is_hyphen)) (Chr letter))))))
      (Alt (* end of word *)
           (Ahead (Alt (Chr is_whitespace) EndZ))
           (* em-dash *)
           (Cat (Behind 1 (Chr word_punct))
                (Ahead (Cat (Rep true 2 is_hyphen) (Chr re_word)))))))).

(** [_split]: [chunks = [c for c in wordsep_re.split(text) if c]] *)
Definition split_words (text : pystr) : option (list pystr) :=
  List.filter truthy <$> Re.split wordsep_re text.

Definition split_chunks (text : pystr) : option (list pystr) :=
  split_words (munge_whitespace text).

(** [TextWrapper(width=width).wrap(text)] *)
Definition wrap (text : pystr) (width : nat) : res (list pystr) :=
  match split_chunks text with
  | Some chunks => wrap_chunks width chunks
  | None => Raise FuelExhausted
  end.
End Wrapper.
End Textwrap.

(** ** The script: chunking *)

Section Chunker.
Variables uni_alnum uni_decimal : N -> bool.

(** [def split_text(text, max_chars=1000): return wrap(text, max_chars)] *)
Definition split_text (text : pystr) (max_chars : nat) : res (list pystr) :=
  Textwrap.wrap uni_alnum uni_decimal text max_chars.
End Chunker.

(** A Unicode table that knows no letters or digits beyond ASCII; the texts
    of the examples below are ASCII. *)
Definition no_unicode : N -> bool := fun _ => false.

(** ** The page: what it shows, what it keeps, what it calls *)

(** The elements the script puts on the page, in the order of its calls. *)
Inductive element : Type :=
| Success (body : pystr)                       (* st.success *)
| ErrorBox (body : pystr)                      (* st.error *)
| Info (body : pystr)                          (* st.info *)
| Subheader (body : pystr)                     (* st.subheader *)
| Write (body : pystr)                         (* st.write *)
| Markdown (body : pystr)                      (* st.markdown *)
| Caption (body : pystr)                       (* st.caption *)
| Text (body : pystr)                          (* st.text *)
| TextInput (label : pystr) (key : option pystr)   (* st.text_input *)
| Button (label : pystr)                       (* st.button *)
| Columns                                      (* st.columns *)
| Spinner (text : pystr).                      (* st.spinner *)

(** The uploaded file: its declared media type and its bytes. *)
Record uploaded_file : Type := {
  file_type : pystr;
  payload : list Byte.byte
}.

(** What the widgets return during one run of the script. *)
Record widgets : Type := {
  ask_your_question : pystr;       (* st.text_input("Ask your question") *)
  get_answer : bool;               (* st.button("Get Answer") *)
  generate_questions : bool;       (* st.button("Generate Questions") *)
  your_answer : nat -> pystr;      (* st.text_input(..., key=f"ans_{i}") *)
  evaluate_answers : bool          (* st.button("Evaluate Answers") *)
}.

(** The state a run of the script works on: [st.session_state], the page
    rendered so far, and the calls made to the three pipelines.
    [session_state] holds the keys that the script itself assigns,
    "questions" and "user_answers".  The entries that Streamlit keeps in
    [st.session_state] for the widgets with a key ("ans_0", "ans_1", ...)
    are not part of it: the script never reads them, and the value of such
    a widget enters a run through [your_answer]. *)
Record world : Type := {
  session_state : gmap string (list pystr);
  screen : list element;
  summarizer_calls : list pystr;
  qa_calls : list (pystr * pystr);
  generator_calls : list pystr
}.

(** The world at the start of a run: the session state as the last run
    left it, an empty page, no call made yet. *)
Definition start (session : gmap string (list pystr)) : world :=
  {| session_state := session; screen := []; summarizer_calls := [];
     qa_calls := []; generator_calls := [] |}.

(** A computation of the script: it changes the world, and returns or
    raises.  What was done before an exception stays done. *)
Definition M (A : Type) : Type := world -> res A * world.

#[global] Instance M_ret : MRet M := fun A x w => (Ok x, w).

#[global] Instance M_bind : MBind M := fun A B f m w =>
  match m w with
  | (Ok x, w') => f x w'
  | (Raise e, w') => (Raise e, w')
  end.

Definition ret {A : Type} (x : A) : M A := mret x.

(** A pure call that may raise. *)
Definition lift {A : Type} (r : res A) : M A := fun w => (r, w).

(** [st.<element>(...)] *)
Definition st (e : element) : M unit :=
  fun w =>
    (Ok tt,
     {| session_state := session_state w; screen := screen w ++ [e];
        summarizer_calls := summarizer_calls w; qa_calls := qa_calls w;
        generator_calls := generator_calls w |}).

(** [key in st.session_state] *)
Definition has_state (key : string) : M bool :=
  fun w => (Ok (bool_decide (is_Some (session_state w !! key))), w).

(** [st.session_state.key]; a missing key raises. *)
Definition get_state (key : string) : M (list pystr) :=
  fun w =>
    match session_state w !! key with
    | Some v => (Ok v, w)
    | None => (Raise AttributeError, w)
    end.

(** [st.session_state.key = v] *)
Definition set_state (key : string) (v : list pystr) : M unit :=
  fun w =>
    (Ok tt,
     {| session_state := <[key := v]> (session_state w); screen := screen w;
        summarizer_calls := summarizer_calls w; qa_calls := qa_calls w;
        generator_calls := generator_calls w |}).

(** [st.session_state.key[i] = x]: the list is changed in place, and an
    index out of range raises. *)
Definition set_item (key : string) (i : nat) (x : pystr) : M unit :=
  items ← get_state key;
  if i <? length items then set_state key (<[i := x]> items)
  else lift (Raise IndexError).

(** [str.lower] on an ASCII string. *)
Definition ascii_lower (c : N) : N :=
  if ((65 <=? c) && (c <=? 90))%N then (c + 32)%N else c.

Definition isascii (s : pystr) : bool := forallb (fun c => (c <? 128)%N) s.

(** [sep.join(parts)] *)
Fixpoint join (sep : pystr) (parts : list pystr) : pystr :=
  match parts with
  | [] => []
  | [part] => part
  | part :: rest => part ++ sep ++ join sep rest
  end.

(** [document_text[:2000]], the context of every question-answering
    call. *)
Definition context (document_text : pystr) : pystr :=
  slice_to 2000 document_text.

(** [round(score * 100, 2)] *)
Definition percent (score : PyFloat.float) : PyFloat.float :=
  PyFloat.round (PyFloat.mul score (PyFloat.of_int 100)) 2.

(** [f"Confidence Score: {round(score * 100, 2)}%"] *)
Definition confidence_caption (score : PyFloat.float) : pystr :=
  py "Confidence Score: " ++ PyFloat.repr (percent score) ++ py "%".

(** Lines 106-110: the questions read off the generated text. *)
Definition parse_questions (output : pystr) : list pystr :=
  let questions_only := split_on Chr.nl (strip output) in
  let questions_only :=
    List.map strip (List.filter (fun q => truthy (strip q)) questions_only) in
  let questions_only :=
    match questions_only with
    | [] => [py "Unable to generate clear questions."]
    | _ :: _ => questions_only
    end in
  slice_to 3 questions_only.

Section Script.
(** The Unicode database of the interpreter, beyond ASCII. *)
Variables uni_alnum uni_decimal : N -> bool.
Variable uni_lower : pystr -> pystr.

(** [pdfminer.high_level.extract_text] and [bytes.decode("utf-8")] *)
Variable extract_text : list Byte.byte -> res pystr.
Variable decode_utf8 : list Byte.byte -> res pystr.

(** The three pipelines: the [summary_text] of a chunk, the [answer] and
    [score] for a question and a context, the [generated_text] for a
    prompt.  Each may raise. *)
Variable summarizer : pystr -> res pystr.
Variable qa_pipeline : pystr -> pystr -> res (pystr * PyFloat.float).
Variable question_generator : pystr -> res pystr.

(** [s.lower()] *)
Definition lower (s : pystr) : pystr :=
  if isascii s then List.map ascii_lower s else uni_lower s.

Definition call_summarizer (chunk : pystr) : M pystr :=
  fun w =>
    (summarizer chunk,
     {| session_state := session_state w; screen := screen w;
        summarizer_calls := summarizer_calls w ++ [chunk];
        qa_calls := qa_calls w; generator_calls := generator_calls w |}).

Definition call_qa (question context : pystr) : M (pystr * PyFloat.float) :=
  fun w =>
    (qa_pipeline question context,
     {| session_state := session_state w; screen := screen w;
        summarizer_calls := summarizer_calls w;
        qa_calls := qa_calls w ++ [(question, context)];
        generator_calls := generator_calls w |}).

Definition call_generator (prompt : pystr) : M pystr :=
  fun w =>
    (question_generator prompt,
     {| session_state := session_state w; screen := screen w;
        summarizer_calls := summarizer_calls w; qa_calls := qa_calls w;
        generator_calls := generator_calls w ++ [prompt] |}).

(** *** Upload *)

Definition extract_file_text (file : uploaded_file) : res pystr :=
  if bool_decide (file_type file = py "application/pdf")
  then extract_text (payload file)
  else if bool_decide (file_type file = py "text/plain")
  then decode_utf8 (payload file)
  else Ok [].

(** Lines 53-56; returns [document_text]. *)
Definition upload_section (uploaded : option uploaded_file) : M pystr :=
  match uploaded with
  | Some file =>
    document_text ← lift (extract_file_text file);
    st (Success
          (py "Document uploaded and text extracted successfully!"));;
    ret document_text
  | None => ret []
  end.

(** *** Summary *)

(** The loop of lines 69-71 from index [i] on; returns
    [combined_summary]. *)
Fixpoint summary_loop (i : nat) (chunks : list pystr)
    (combined_summary : pystr) : M pystr :=
  match chunks with
  | [] => ret combined_summary
  | chunk :: rest =>
    summary ← call_summarizer chunk;
    summary_loop (S i) rest
      (combined_summary ++ str_of_nat (i + 1) ++ py ". " ++ summary ++
       [Chr.nl; Chr.nl])
  end.

Definition summary_section (document_text : pystr) : M unit :=
  if truthy document_text then
    st (Subheader (py "Auto-Generated Summary"));;
    st (Info
          (py "Summarizing the main points of your uploaded document..."));;
    text_chunks ← lift (split_text uni_alnum uni_decimal document_text 1000);
    combined_summary ← summary_loop 0 (slice_to 5 text_chunks) [];
    st (Write (strip combined_summary));;
    st (Markdown (py "---"))
  else ret tt.

(** *** Ask anything *)

Definition ask_section (document_text : pystr) (ws : widgets) : M unit :=
  if truthy document_text then
    st (Subheader (py "Ask Anything About the Document"));;
    st (Markdown
          (py "Type a question to get an answer based strictly on the document."));;
    st Columns;;
    st (TextInput (py "Ask your question") None);;
    st (Button (py "Get Answer"));;
    (if get_answer ws && truthy (ask_your_question ws) then
       st (Spinner (py "Searching for the answer..."));;
       answer ← call_qa (ask_your_question ws) (context document_text);
       st (Success (py "Answer: " ++ fst answer));;
       st (Caption (confidence_caption (snd answer)))
     else ret tt);;
    st (Markdown (py "---"))
  else ret tt.

(** *** Challenge me *)

(** Lines 99-101 *)
Definition init_quiz : M unit :=
  present ← has_state "questions";
  if (present : bool) then ret tt
  else set_state "questions" [];; set_state "user_answers" [].

(** Lines 104-111: the handler of "Generate Questions". *)
Definition generate_handler (document_text : pystr) : M unit :=
  let prompt := py "generate questions: " ++ slice_to 1000 document_text in
  output ← call_generator prompt;
  set_state "questions" (parse_questions output);;
  questions ← get_state "questions";
  set_state "user_answers" (replicate (length questions) []).

(** Lines 114-116 from index [i] on: each question is shown and the
    answer typed for it is stored in its slot.  The key of the input is
    on the page element; the entry Streamlit makes for it in
    [st.session_state] is outside the model (see [world]). *)
Fixpoint capture_loop (i : nat) (questions : list pystr) (ws : widgets)
    : M unit :=
  match questions with
  | [] => ret tt
  | q :: rest =>
    st (Text (py "Q" ++ str_of_nat (i + 1) ++ py ": " ++ q));;
    st (TextInput (py "Your Answer") (Some (py "ans_" ++ str_of_nat i)));;
    set_item "user_answers" i (your_answer ws i);;
    capture_loop (S i) rest ws
  end.

(** [user_ans.strip().lower() == correct.strip().lower()] *)
Definition matches (user_ans correct : pystr) : bool :=
  bool_decide (lower (strip user_ans) = lower (strip correct)).

(** What lines 126-134 show for one question. *)
Definition verdict_block (i : nat) (q user_ans correct : pystr)
    (score : PyFloat.float) : list element :=
  [ Markdown (py "*Q" ++ str_of_nat (i + 1) ++ py ": " ++ q ++ py "*");
    Write (py "Your Answer: " ++ user_ans);
    Write (py "Correct Answer: " ++ correct);
    (if matches user_ans correct then Success (py "Correct")
     else ErrorBox (py "Incorrect"));
    Caption (confidence_caption score);
    Markdown (py "---") ].

(** The loop of lines 121-134 from index [i] on. *)
Fixpoint evaluate_loop (i : nat) (pairs : list (pystr * pystr))
    (document_text : pystr) : M unit :=
  match pairs with
  | [] => ret tt
  | (q, user_ans) :: rest =>
    result ← call_qa q (context document_text);
    let correct := fst result in
    st (Markdown (py "*Q" ++ str_of_nat (i + 1) ++ py ": " ++ q ++ py "*"));;
    st (Write (py "Your Answer: " ++ user_ans));;
    st (Write (py "Correct Answer: " ++ correct));;
    (if matches user_ans correct then st (Success (py "Correct"))
     else st (ErrorBox (py "Incorrect")));;
    st (Caption (confidence_caption (snd result)));;
    st (Markdown (py "---"));;
    evaluate_loop (S i) rest document_text
  end.

(** Lines 120-134: the handler of "Evaluate Answers". *)
Definition evaluate_handler (document_text : pystr) : M unit :=
  st (Subheader (py "Evaluation Results"));;
  questions ← get_state "questions";
  user_answers ← get_state "user_answers";
  evaluate_loop 0 (zip questions user_answers) document_text.

(** [all(ans.strip() for ans in user_answers)] *)
Definition all_answered (user_answers : list pystr) : bool :=
  forallb (fun ans => truthy (strip ans)) user_answers.

(** Lines 113-134 *)
Definition quiz_body (document_text : pystr) (ws : widgets) : M unit :=
  questions ← get_state "questions";
  match questions with
  | [] => ret tt
  | _ :: _ =>
    capture_loop 0 questions ws;;
    user_answers ← get_state "user_answers";
    if all_answered user_answers then
      st (Button (py "Evaluate Answers"));;
      if evaluate_answers ws then evaluate_handler document_text
      else ret tt
    else ret tt
  end.

(** Lines 95-134 *)
Definition quiz_section (document_text : pystr) (ws : widgets) : M unit :=
  if truthy document_text then
    st (Subheader (py "Challenge Me: Auto Quiz"));;
    st (Markdown
          (py "Click below to generate 3 logic/comprehension questions based on your document."));;
    init_quiz;;
    st (Button (py "Generate Questions"));;
    (if generate_questions ws then generate_handler document_text
     else ret tt);;
    quiz_body document_text ws
  else ret tt.

(** One run of the script, from the upload on (lines 53-134). *)
Definition page (uploaded : option uploaded_file) (ws : widgets) : M unit :=
  document_text ← upload_section uploaded;
  summary_section document_text;;
  ask_section document_text ws;;
  quiz_section document_text ws.

End Script.

(** ** Notions the statements use *)

(** The text with every whitespace character erased: what is left of a text
    when whitespace is ignored. *)
Definition erase_space (s : pystr) : pystr :=
  List.filter (fun c => negb (isspace c)) s.

(** In the matcher: [(b', a')] is the position [(b, a)] moved over the text
    [m]. *)
Definition forward (b a b' a' : list N) : Prop :=
  exists m, a = m ++ a' /\ b' = rev m ++ b.

(** A text whose only whitespace of [_whitespace] is the space: no tab,
    newline, vertical tab, form feed or carriage return. *)
Definition plain (text : pystr) : bool :=
  forallb (fun c => negb (Textwrap.is_whitespace c) || (c =? Chr.sp)%N) text.

(** The text ends in a character that is not whitespace. *)
Definition ends_in_text (text : pystr) : bool :=
  match last text with
  | Some c => negb (isspace c)
  | None => false
  end.

(** The chunks are never empty: [_split] filters the empty ones out, and a
    long word is cut strictly inside. *)
Abbreviation solid := (Forall (fun c : pystr => c <> [])).

(** The computation leaves a component of the world as it found it,
    whether it returns or raises. *)
Definition untouched {A B : Type} (proj : world -> B) (m : M A) : Prop :=
  forall w, proj (snd (m w)) = proj w.

(** The computation only appends to a list component of the world, and what
    it appends satisfies [P]. *)
Definition appends {A B : Type} (proj : world -> list B) (P : B -> Prop)
    (m : M A) : Prop :=
  forall w, exists new, proj (snd (m w)) = proj w ++ new /\ Forall P new.

(** The quiz state is initialised and its two sequences are aligned. *)
Definition aligned (session : gmap string (list pystr)) : Prop :=
  exists questions user_answers,
    session !! "questions" = Some questions /\
    session !! "user_answers" = Some user_answers /\
    length questions = length user_answers.

(** An answer slot that is not blank: [ans.strip()] is true. *)
Definition answered (ans : pystr) : Prop := strip ans <> [].

(** The widgets of a run in which nothing is typed or clicked. *)
Definition idle : widgets :=
  {| ask_your_question := []; get_answer := false;
     generate_questions := false; your_answer := fun _ => [];
     evaluate_answers := false |}.

(** A question-answering call made with the context of some document, which
    is at most 2000 characters long. *)
Definition bounded_call (call : pystr * pystr) : Prop :=
  length (snd call) <= 2000 /\ exists d, snd call = context d.

(** The text that the loop of lines 69-71 builds and line 73 trims: the
    entries as the script formats them. *)
Definition labelled (i : nat) (summary : pystr) : pystr :=
  str_of_nat (i + 1) ++ py ". " ++ summary.

Definition aggregate (summaries : list pystr) : pystr :=
  strip (join [Chr.nl; Chr.nl] (imap labelled summaries)).

(** The lines that are kept, trimmed. *)
Definition trimmed_lines (lines : list pystr) : list pystr :=
  List.map strip (List.filter (fun q => truthy (strip q)) lines).

(** ** The words of the specification

    What the specification says of texts is said here on its own terms,
    not with the string operations of the script: what a decimal numeral
    denotes, what it is to be trimmed, what the lines of a text are, when
    two letters differ in case only, and which integer is nearest to a
    fraction. *)

(** The value of a decimal digit. *)
Definition digit_value (c : N) : option nat :=
  if ((48 <=? c) && (c <=? 57))%N then Some (N.to_nat c - 48) else None.

(** The number that a string of decimal digits denotes, read from the
    left; [acc] is the number read so far. *)
Fixpoint read_decimal_from (acc : nat) (s : pystr) : option nat :=
  match s with
  | [] => Some acc
  | c :: s' =>
    match digit_value c with
    | Some d => read_decimal_from (10 * acc + d) s'
    | None => None
    end
  end.

Definition read_decimal (s : pystr) : option nat :=
  match s with
  | [] => None
  | _ :: _ => read_decimal_from 0 s
  end.

(** [label] is the ordinal [n] written out: decimal digits that denote
    [n], the first of them not a zero. *)
Definition ordinal_label (n : nat) (label : pystr) : Prop :=
  read_decimal label = Some n /\ head label <> Some 48%N.

(** A text with no whitespace at its start and none at its end. *)
Definition trimmed (t : pystr) : Prop :=
  (forall c rest, t = c :: rest -> isspace c = false) /\
  (forall init c, t = init ++ [c] -> isspace c = false).

(** [t] is [s] with its leading and trailing whitespace trimmed. *)
Definition trimming (s t : pystr) : Prop :=
  exists lead trail,
    s = lead ++ t ++ trail /\
    forallb isspace lead = true /\ forallb isspace trail = true /\
    trimmed t.

(** One entry of the summary: the label, a full stop and a space, the
    summary of the chunk. *)
Definition entry (label summary : pystr) : pystr :=
  label ++ py ". " ++ summary.

(** [text] is the aggregate of the summaries: each summary after its
    1-based ordinal label, the entries in order with a blank line between
    them, the whole trimmed. *)
Definition is_aggregate (summaries : list pystr) (text : pystr) : Prop :=
  exists labels,
    length labels = length summaries /\
    (forall i label, labels !! i = Some label -> ordinal_label (i + 1) label) /\
    trimming (join [Chr.nl; Chr.nl] (zip_with entry labels summaries)) text.

(** [lines] are the lines of [text]: there is at least one, none holds a
    line break, and joined by line breaks they are the text. *)
Definition lines_of (text : pystr) (lines : list pystr) : Prop :=
  lines <> [] /\ Forall (fun line => ~ In Chr.nl line) lines /\
  join [Chr.nl] lines = text.

(** A line that is empty or holds only whitespace. *)
Definition blank_line (line : pystr) : bool := forallb isspace line.

(** The lines of a text that are not empty or whitespace-only. *)
Definition kept_lines (lines : list pystr) : list pystr :=
  List.filter (fun line => negb (blank_line line)) lines.

(** The question that stands in when no line is left. *)
Definition placeholder : pystr := py "Unable to generate clear questions.".

(** The questions as the specification words them: at most the first three of the
    remaining lines, as they are, or the placeholder when none remains. *)
Definition questions_of_lines (lines : list pystr) : list pystr :=
  take 3 match kept_lines lines with
         | [] => [placeholder]
         | _ :: _ => kept_lines lines
         end.

(** [questions] are what is read off [output]: at most the first three of
    its lines that are not empty or whitespace-only, each trimmed, or the
    placeholder when there is none. *)
Definition reads_as (output : pystr) (questions : list pystr) : Prop :=
  exists lines,
    lines_of output lines /\
    match kept_lines lines with
    | [] => questions = [placeholder]
    | _ :: _ => Forall2 trimming (take 3 (kept_lines lines)) questions
    end.

(** Two characters that are the same letter: equal, or an ASCII capital
    and its small letter. *)
Definition same_letter (a b : N) : Prop :=
  a = b \/
  ((65 <= a <= 90)%N /\ b = (a + 32)%N) \/
  ((65 <= b <= 90)%N /\ a = (b + 32)%N).

(** Equality of two answers that ignores letter case and surrounding
    whitespace. *)
Definition same_answer (user_ans correct : pystr) : Prop :=
  exists u c,
    trimming user_ans u /\ trimming correct c /\ Forall2 same_letter u c.

(** [n] is the integer nearest to [num / den]; of two that are equally
    near, the even one. *)
Definition nearest_even (num den n : Z) : Prop :=
  (2 * Z.abs (num - n * den) <= den)%Z /\
  ((2 * Z.abs (num - n * den) = den)%Z -> Z.even n = true).

(** [r] is [x] rounded to two decimal places: the float nearest to
    [n / 100], where [n] is the integer nearest to the hundredfold of the
    exact value of [x].  Zeros, infinities and NaN are left alone, and a
    value that rounds to zero keeps its sign. *)
Definition rounded_to_hundredths (x r : PyFloat.float) : Prop :=
  match x with
  | S754_finite sign m e =>
    exists n,
      (if (e <? 0)%Z
       then nearest_even (100 * Zpos m) (2 ^ (- e)) n
       else n = (100 * (Zpos m * 2 ^ e))%Z) /\
      r = match n with
          | Zpos n' => PyFloat.of_ratio sign n' 100
          | _ => S754_zero sign
          end
  | _ => r = x
  end.

(** The generated text of the quiz scenario: two question lines. *)
Definition two_questions : pystr :=
  py "What color is the sky?" ++ [Chr.nl] ++ py "What is wet?" ++ [Chr.nl].

(** The float written [0.91]. *)
Definition score_091 : PyFloat.float := PyFloat.of_ratio false 91 100.

(** The button that offers the evaluation, and the header that a run of the
    evaluation starts with. *)
Definition evaluate_button : element := Button (py "Evaluate Answers").
Definition results_header : element := Subheader (py "Evaluation Results").

(** An element that is neither of the two. *)
Definition passive (e : element) : Prop :=
  e <> evaluate_button /\ e <> results_header.

(** Every answer slot of the session holds an answer. *)
Definition all_slots_answered (session : gmap string (list pystr)) : Prop :=
  exists user_answers,
    session !! "user_answers" = Some user_answers /\
    Forall answered user_answers.

(** There is a question, and every answer slot holds an answer. *)
Definition gate_open (session : gmap string (list pystr)) : Prop :=
  exists questions user_answers,
    session !! "questions" = Some questions /\
    session !! "user_answers" = Some user_answers /\
    questions <> [] /\ Forall answered user_answers.

(** The computation keeps a property of the session state. *)
Definition keeps {A : Type} (I : gmap string (list pystr) -> Prop) (m : M A)
    : Prop :=
  forall w, I (session_state w) -> I (session_state (snd (m w))).

Section QuizMachine.
Variables uni_alnum uni_decimal : N -> bool.
Variable uni_lower : pystr -> pystr.
Variable extract_text : list Byte.byte -> res pystr.
Variable decode_utf8 : list Byte.byte -> res pystr.
Variable summarizer : pystr -> res pystr.
Variable qa_pipeline : pystr -> pystr -> res (pystr * PyFloat.float).
Variable question_generator : pystr -> res pystr.

(** Lines 114-116 as an operation on the session: the answers typed into
    the widgets are stored in the slots. *)
Definition capture_answers (ws : widgets) : M unit :=
  questions ← get_state "questions";
  capture_loop 0 questions ws.

(** What can happen to the quiz state: the operations of the quiz, and
    whole runs of the quiz section and of the page. *)
Inductive quiz_op : Type :=
| Initialise
| Generate (document_text : pystr)
| Capture (ws : widgets)
| Evaluate (document_text : pystr)
| RunQuiz (document_text : pystr) (ws : widgets)
| RunPage (uploaded : option uploaded_file) (ws : widgets).

Definition run_op (op : quiz_op) : M unit :=
  match op with
  | Initialise => init_quiz
  | Generate d => generate_handler question_generator d
  | Capture ws => capture_answers ws
  | Evaluate d => evaluate_handler uni_lower qa_pipeline d
  | RunQuiz d ws =>
    quiz_section uni_lower qa_pipeline question_generator d ws
  | RunPage uploaded ws =>
    page uni_alnum uni_decimal uni_lower extract_text decode_utf8
         summarizer qa_pipeline question_generator uploaded ws
  end.

(** The worlds reachable once the quiz state has been initialised. *)
Inductive quiz_reachable : world -> Prop :=
| reach_init w :
    session_state w !! "questions" = None ->
    quiz_reachable (snd (init_quiz w))
| reach_step op w :
    quiz_reachable w -> quiz_reachable (snd (run_op op w)).
End QuizMachine.

(** What the gate of the evaluation promises of a computation that starts
    on a page without the button and the header: the button is on the page
    only when the gate is open, it is on the page when the gate is open and
    the computation returns, and the header is on the page only when the
    gate is open. *)
Definition gated (m : M unit) : Prop :=
  forall w, Forall passive (screen w) ->
    (In evaluate_button (screen (snd (m w))) ->
     gate_open (session_state (snd (m w)))) /\
    (fst (m w) = Ok tt -> gate_open (session_state (snd (m w))) ->
     In evaluate_button (screen (snd (m w)))) /\
    (In results_header (screen (snd (m w))) ->
     gate_open (session_state (snd (m w)))).

(** ** A concrete setting for the examples *)

(** The document of the scenarios. *)
Definition sky : pystr := py "The sky is blue. Water is wet.".

(** A document of 6000 characters without a space. *)
Definition long_document : pystr := replicate (6 * 1000) 97%N.

(** An interpreter whose Unicode tables are not consulted on ASCII text,
    a PDF extractor and a decoder that are not called, and pipelines that
    answer as in the scenarios. *)
Definition same_case : pystr -> pystr := fun s => s.
Definition no_extractor : list Byte.byte -> res pystr :=
  fun _ => Raise ValueError.
Definition demo_summarizer : pystr -> res pystr :=
  fun _ => Ok (py "A summary.").
Definition demo_qa : pystr -> pystr -> res (pystr * PyFloat.float) :=
  fun _ _ => Ok (py "blue", score_091).
Definition demo_generator : pystr -> res pystr := fun _ => Ok two_questions.

Definition json_file : uploaded_file :=
  {| file_type := py "application/json"; payload := [] |}.

(** A session in which one question waits for its evaluation. *)
Definition one_question : gmap string (list pystr) :=
  <["user_answers" := [py "Blue"]]>
    (<["questions" := [py "What color is the sky?"]]> ∅).

(** ** Further notions: what holds of segments, questions and runs *)

(** A segment that is not empty and at most [width] characters long. *)
Definition fits (width : nat) (segment : pystr) : Prop :=
  1 <= length segment <= width.

(** A string that does not start with whitespace. *)
Definition starts_solid (s : pystr) : Prop :=
  match s with
  | c :: _ => isspace c = false
  | [] => True
  end.

(** A question as the quiz stores it: not empty, trimmed, on one line. *)
Definition tidy (q : pystr) : Prop :=
  q <> [] /\ strip q = q /\ ~ In Chr.nl q.

(** The quiz holds at most three questions, all tidy. *)
Definition small_quiz (session : gmap string (list pystr)) : Prop :=
  exists questions,
    session !! "questions" = Some questions /\
    length questions <= 3 /\ Forall tidy questions.

(** The key of the answer widget of question [i]: [f"ans_{i}"]. *)
Definition answer_key (i : nat) : pystr := py "ans_" ++ str_of_nat i.

(** What the page shows for question [i]: its text and its answer
    widget. *)
Definition slot_widgets (i : nat) (q : pystr) : list element :=
  [Text (py "Q" ++ str_of_nat (i + 1) ++ py ": " ++ q);
   TextInput (py "Your Answer") (Some (answer_key i))].

(** The answers typed into the first [n] answer widgets. *)
Definition typed (ws : widgets) (n : nat) : list pystr :=
  List.map (your_answer ws) (seq 0 n).

(** A generated text with padded and blank lines and more than three
    questions. *)
Definition messy_output : pystr :=
  py "  What color is the sky? " ++ [Chr.nl] ++
  [Chr.sp; Chr.tab] ++ [Chr.nl] ++ [Chr.nl] ++
  py "What is wet?" ++ [Chr.nl] ++
  py "Why?" ++ [Chr.nl] ++ py "How?" ++ [Chr.nl].

Definition messy_generator : pystr -> res pystr := fun _ => Ok messy_output.

(** A generated text that is one padded line. *)
Definition padded_output : pystr := py " What is wet? ".

(** A session in which three questions wait for their evaluation. *)
Definition three_answers : gmap string (list pystr) :=
  <["user_answers" := [py "Blue"; py "  WET "; py "because"]]>
    (<["questions" :=
         [py "What color is the sky?"; py "What is wet?"; py "Why?"]]> ∅).

(** A pipeline that answers the three questions, with scores that are
    and are not multiples of a hundredth. *)
Definition keen_qa : pystr -> pystr -> res (pystr * PyFloat.float) :=
  fun question _ =>
    if bool_decide (question = py "What color is the sky?")
    then Ok (py "blue", score_091)
    else if bool_decide (question = py "What is wet?")
    then Ok (py " Wet", PyFloat.of_ratio false 123456 1000000)
    else Ok (py "no", PyFloat.of_ratio false 375 100000).

(** A pipeline that answers the first question and fails on the second. *)
Definition shy_qa : pystr -> pystr -> res (pystr * PyFloat.float) :=
  fun question _ =>
    if bool_decide (question = py "What color is the sky?")
    then Ok (py "blue", score_091)
    else if bool_decide (question = py "What is wet?")
    then Raise PipelineError
    else Ok (py "no", score_091).

(** A summariser that is out of order. *)
Definition broken_summarizer : pystr -> res pystr :=
  fun _ => Raise PipelineError.

(** A generator that is out of order. *)
Definition broken_generator : pystr -> res pystr :=
  fun _ => Raise PipelineError.

(** A decoder that reads every upload as the document of the scenarios. *)
Definition sky_decoder : list Byte.byte -> res pystr := fun _ => Ok sky.

(** A decoder that finds the upload not to be UTF-8. *)
Definition bad_decoder : list Byte.byte -> res pystr :=
  fun _ => Raise UnicodeDecodeError.

(** A decoder that reads every upload as the empty text. *)
Definition empty_decoder : list Byte.byte -> res pystr := fun _ => Ok [].

(** A session with a question and no slot for its answer. *)
Definition missing_slot : gmap string (list pystr) :=
  <["user_answers" := []]>
    (<["questions" := [py "What color is the sky?"]]> ∅).

Definition text_file : uploaded_file :=
  {| file_type := py "text/plain"; payload := [] |}.

(** Widgets that answer "Blue" everywhere and click nothing. *)
Definition blue_answers : widgets :=
  {| ask_your_question := []; get_answer := false;
     generate_questions := false; your_answer := fun _ => py "Blue";
     evaluate_answers := false |}.

(** The same with a click on "Generate Questions". *)
Definition blue_regenerate : widgets :=
  {| ask_your_question := []; get_answer := false;
     generate_questions := true; your_answer := fun _ => py "Blue";
     evaluate_answers := false |}.

(** A question typed and "Get Answer" clicked. *)
Definition asking : widgets :=
  {| ask_your_question := py "What color is the sky?"; get_answer := true;
     generate_questions := false; your_answer := fun _ => [];
     evaluate_answers := false |}.

(** The computation only appends to a list component of the world, and the
    list of what it appends satisfies [P]. *)
Definition adds {A B : Type} (proj : world -> list B) (P : list B -> Prop)
    (m : M A) : Prop :=
  forall w, exists new, proj (snd (m w)) = proj w ++ new /\ P new.

(** The prompt of the question generator for a document:
    [f"generate questions: {document_text[:1000]}"]. *)
Definition prompt_of (document_text : pystr) : pystr :=
  py "generate questions: " ++ slice_to 1000 document_text.

(** The computation raises only exceptions of which [P] holds. *)
Definition raises_in {A : Type} (P : exn -> Prop) (m : M A) : Prop :=
  forall w, match fst (m w) with Ok _ => True | Raise e => P e end.

Section Failures.
Variable extract_text : list Byte.byte -> res pystr.
Variable decode_utf8 : list Byte.byte -> res pystr.
Variable summarizer : pystr -> res pystr.
Variable qa_pipeline : pystr -> pystr -> res (pystr * PyFloat.float).
Variable question_generator : pystr -> res pystr.

(** An exception that comes from outside the script: from the extraction
    of the uploaded file or from one of the three pipelines. *)
Definition outside_failure (uploaded : option uploaded_file) (e : exn)
    : Prop :=
  (exists file, uploaded = Some file /\
     extract_file_text extract_text decode_utf8 file = Raise e) \/
  (exists chunk, summarizer chunk = Raise e) \/
  (exists question context, qa_pipeline question context = Raise e) \/
  (exists prompt, question_generator prompt = Raise e).
End Failures.

(** A session whose quiz state is not yet initialised, or initialised and
    aligned: what a run of the page starts from. *)
Definition fresh_or_aligned (session : gmap string (list pystr)) : Prop :=
  session !! "questions" = None \/ aligned session.
(** * Properties *)

(** ** Strings *)

Section StringFacts.

Lemma lstrip_spaces (w s : pystr) :
  forallb isspace w = true -> lstrip (w ++ s) = lstrip s.
Proof.
  induction w as [|c w IH]; simpl; [done|].
  intros [Hc Hw]%andb_prop. rewrite Hc. auto.
Qed.

Lemma lstrip_all_space (w : pystr) :
  forallb isspace w = true -> lstrip w = [].
Proof.
  intros H. rewrite <- (app_nil_r w). by rewrite lstrip_spaces.
Qed.

Lemma lstrip_nil_inv (s : pystr) :
  lstrip s = [] -> forallb isspace s = true.
Proof.
  induction s as [|c s IH]; simpl; [done|].
  destruct (isspace c); [auto | discriminate].
Qed.

Lemma lstrip_suffix (s : pystr) :
  exists w, s = w ++ lstrip s /\ forallb isspace w = true.
Proof.
  induction s as [|c s (w & Hs & Hw)]; simpl.
  - by exists [].
  - destruct (isspace c) eqn:Hc.
    + exists (c :: w). simpl. rewrite Hc, Hw. split; [congruence | done].
    + by exists [].
Qed.

Lemma forallb_rev_space (s : pystr) :
  forallb isspace (rev s) = forallb isspace s.
Proof.
  induction s as [|c s IH]; simpl; [done|].
  rewrite forallb_app, IH. simpl. rewrite andb_true_r. apply andb_comm.
Qed.

Lemma rstrip_spaces (s w : pystr) :
  forallb isspace w = true -> rstrip (s ++ w) = rstrip s.
Proof.
  intros H. unfold rstrip. rewrite rev_app_distr, lstrip_spaces; [done|].
  by rewrite forallb_rev_space.
Qed.

Lemma rstrip_prefix (s : pystr) :
  exists w, s = rstrip s ++ w /\ forallb isspace w = true.
Proof.
  destruct (lstrip_suffix (rev s)) as (w & Hs & Hw).
  exists (rev w). split.
  - unfold rstrip. rewrite <- rev_app_distr, <- Hs. by rewrite rev_involutive.
  - by rewrite forallb_rev_space.
Qed.

(** A string strips to nothing exactly when it is all whitespace. *)
Lemma strip_nil_iff (s : pystr) :
  strip s = [] <-> forallb isspace s = true.
Proof.
  unfold strip. split.
  - intros H. destruct (lstrip_suffix s) as (w & Hs & Hw).
    rewrite Hs, forallb_app, Hw. simpl.
    unfold rstrip in H. apply (f_equal (@rev N)) in H.
    rewrite rev_involutive in H. simpl in H.
    apply lstrip_nil_inv in H. by rewrite forallb_rev_space in H.
  - intros H. by rewrite lstrip_all_space.
Qed.

Lemma strip_spaces_l (w s : pystr) :
  forallb isspace w = true -> strip (w ++ s) = strip s.
Proof. intros H. unfold strip. by rewrite lstrip_spaces. Qed.

Lemma lstrip_app_keep (s t : pystr) :
  forallb isspace s = false -> lstrip (s ++ t) = lstrip s ++ t.
Proof.
  induction s as [|c s IH]; simpl; [done|].
  destruct (isspace c); simpl; auto.
Qed.

Lemma strip_spaces_r (s w : pystr) :
  forallb isspace w = true -> strip (s ++ w) = strip s.
Proof.
  intros H. unfold strip.
  destruct (forallb isspace s) eqn:Hs.
  - rewrite !lstrip_all_space; [done | done |].
    by rewrite forallb_app, Hs, H.
  - rewrite lstrip_app_keep by done. by apply rstrip_spaces.
Qed.

Lemma erase_space_app (s t : pystr) :
  erase_space (s ++ t) = erase_space s ++ erase_space t.
Proof. apply List.filter_app. Qed.

Lemma erase_space_all_space (w : pystr) :
  forallb isspace w = true -> erase_space w = [].
Proof.
  induction w as [|c w IH]; simpl; [done|].
  intros [Hc Hw]%andb_prop. rewrite Hc. simpl. auto.
Qed.

(** *** Lines *)

Lemma split_on_cons sep s : exists h t, split_on sep s = h :: t.
Proof.
  induction s as [|c s (h & t & IH)]; simpl; [by eauto|].
  destruct (c =? sep)%N; [by eauto|]. rewrite IH. eauto.
Qed.

(** The lines of [x ++ y]: the last line of [x] runs on into the first
    line of [y]. *)
Lemma split_on_app sep x y :
  exists init lastx hy ty,
    split_on sep x = init ++ [lastx] /\ split_on sep y = hy :: ty /\
    split_on sep (x ++ y) = init ++ (lastx ++ hy) :: ty.
Proof.
  destruct (split_on_cons sep y) as (hy & ty & Hy).
  induction x as [|c x (init & lastx & hy' & ty' & Hx & Hy' & Hxy)].
  - exists [], [], hy, ty. by rewrite Hy.
  - rewrite Hy in Hy'. injection Hy' as <- <-.
    cbn [app split_on]. destruct (c =? sep)%N.
    + exists ([] :: init), lastx, hy, ty. by rewrite Hx, Hxy.
    + rewrite Hx, Hxy. destruct init as [|i0 init].
      * by exists [], (c :: lastx), hy, ty.
      * by exists ((c :: i0) :: init), lastx, hy, ty.
Qed.

Lemma split_on_spaces sep w :
  forallb isspace w = true ->
  Forall (fun line => forallb isspace line = true) (split_on sep w).
Proof.
  induction w as [|c w IH]; simpl.
  - intros _. by apply Forall_singleton.
  - intros [Hc Hw]%andb_prop. specialize (IH Hw).
    destruct (c =? sep)%N; [by apply Forall_cons|].
    destruct (split_on sep w) as [|h t]; [by apply Forall_singleton; simpl; rewrite Hc|].
    apply Forall_cons in IH as [Hh Ht]. apply Forall_cons. split; [|done].
    simpl. by rewrite Hc.
Qed.

Lemma trimmed_lines_app l1 l2 :
  trimmed_lines (l1 ++ l2) = trimmed_lines l1 ++ trimmed_lines l2.
Proof. unfold trimmed_lines. by rewrite List.filter_app, List.map_app. Qed.

Lemma trimmed_lines_spaces lines :
  Forall (fun line => forallb isspace line = true) lines ->
  trimmed_lines lines = [].
Proof.
  induction 1 as [|line lines Hl _ IH]; [done|].
  unfold trimmed_lines in *. simpl.
  apply strip_nil_iff in Hl. by rewrite Hl.
Qed.

Lemma trimmed_lines_lead w line lines :
  forallb isspace w = true ->
  trimmed_lines ((w ++ line) :: lines) = trimmed_lines (line :: lines).
Proof.
  intros Hw. unfold trimmed_lines. simpl. rewrite strip_spaces_l by done.
  destruct (truthy (strip line)); [|done]. simpl.
  by rewrite strip_spaces_l by done.
Qed.

Lemma trimmed_lines_trail w line :
  forallb isspace w = true ->
  trimmed_lines [line ++ w] = trimmed_lines [line].
Proof.
  intros Hw. unfold trimmed_lines. simpl. rewrite strip_spaces_r by done.
  destruct (truthy (strip line)); [|done]. simpl.
  by rewrite strip_spaces_r by done.
Qed.

Lemma trimmed_lines_lstrip sep w s :
  forallb isspace w = true ->
  trimmed_lines (split_on sep (w ++ s)) = trimmed_lines (split_on sep s).
Proof.
  intros Hw.
  destruct (split_on_app sep w s) as (init & l & h & t & Ew & Es & ->).
  pose proof (split_on_spaces sep w Hw) as Hlines. rewrite Ew in Hlines.
  apply Forall_app in Hlines as [Hinit [Hl _]%Forall_cons].
  rewrite Es, trimmed_lines_app, trimmed_lines_spaces by done.
  by apply trimmed_lines_lead.
Qed.

Lemma trimmed_lines_rstrip sep s w :
  forallb isspace w = true ->
  trimmed_lines (split_on sep (s ++ w)) = trimmed_lines (split_on sep s).
Proof.
  intros Hw.
  destruct (split_on_app sep s w) as (init & l & h & t & -> & Ew & ->).
  pose proof (split_on_spaces sep w Hw) as Hlines. rewrite Ew in Hlines.
  apply Forall_cons in Hlines as [Hh Ht].
  rewrite !trimmed_lines_app. f_equal.
  change ((l ++ h) :: t) with ([l ++ h] ++ t).
  rewrite trimmed_lines_app, (trimmed_lines_spaces t) by done.
  rewrite app_nil_r. by apply trimmed_lines_trail.
Qed.

(** Trimming the whole text first does not change the lines kept. *)
Lemma trimmed_lines_strip sep s :
  trimmed_lines (split_on sep (strip s)) = trimmed_lines (split_on sep s).
Proof.
  destruct (lstrip_suffix s) as (wl & Hs & Hwl).
  destruct (rstrip_prefix (lstrip s)) as (wr & Hr & Hwr).
  transitivity (trimmed_lines (split_on sep (lstrip s))).
  - unfold strip.
    rewrite <- (trimmed_lines_rstrip sep (rstrip (lstrip s)) wr) by done.
    by rewrite <- Hr.
  - rewrite <- (trimmed_lines_lstrip sep wl (lstrip s)) by done.
    by rewrite <- Hs.
Qed.

End StringFacts.

(** ** The matcher only moves forward, and splitting loses no text *)

Module ReFacts.
Import Re.

Lemma forward_refl b a : forward b a b a.
Proof. by exists []. Qed.

Lemma forward_step c b a b' a' :
  forward (c :: b) a b' a' -> forward b (c :: a) b' a'.
Proof.
  intros (m & -> & ->). exists (c :: m). simpl.
  by rewrite <- app_assoc.
Qed.

Lemma forward_trans b a b1 a1 b2 a2 :
  forward b a b1 a1 -> forward b1 a1 b2 a2 -> forward b a b2 a2.
Proof.
  intros (m & -> & ->) (n & -> & ->). exists (m ++ n).
  by rewrite rev_app_distr, <- !app_assoc.
Qed.

Lemma forward_length b a b' a' :
  forward b a b' a' -> length a' <= length a.
Proof. intros (m & -> & _). rewrite length_app. lia. Qed.

Section Forward.
Context {A : Type}.
Implicit Types k : list N -> list N -> option A.

Lemma rep_greedy_forward p a : forall lo b k x,
  rep_greedy p lo b a k = Some x ->
  exists b' a', forward b a b' a' /\ k b' a' = Some x.
Proof.
  induction a as [|c a IH]; intros lo b k x; simpl.
  - destruct lo; [|done]. intros H. exists b, []. eauto using forward_refl.
  - assert (Hstop : match lo with 0 => k b (c :: a) | S _ => None end = Some x ->
                    exists b' a', forward b (c :: a) b' a' /\ k b' a' = Some x).
    { destruct lo; [|done]. intros H. eauto using forward_refl. }
    destruct (p c); [|done].
    destruct (rep_greedy p (pred lo) (c :: b) a k) as [y|] eqn:E; [|done].
    intros [= ->]. apply IH in E as (b' & a' & Hf & Hk).
    eauto using forward_step.
Qed.

Lemma rep_lazy_forward p a : forall lo b k x,
  rep_lazy p lo b a k = Some x ->
  exists b' a', forward b a b' a' /\ k b' a' = Some x.
Proof.
  induction a as [|c a IH]; intros lo b k x; simpl.
  - destruct lo; [|done]. destruct (k b []) eqn:E; [|done].
    intros [= ->]. eauto using forward_refl.
  - assert (Hmore : (if p c then rep_lazy p (pred lo) (c :: b) a k else None)
                    = Some x ->
                    exists b' a', forward b (c :: a) b' a' /\ k b' a' = Some x).
    { destruct (p c); [|done]. intros E.
      apply IH in E as (b' & a' & Hf & Hk). eauto using forward_step. }
    destruct lo; [|done].
    destruct (k b (c :: a)) eqn:E; [|done].
    intros [= ->]. eauto using forward_refl.
Qed.

Lemma match_re_forward r : forall b a k x,
  match_re r b a k = Some x ->
  exists b' a', forward b a b' a' /\ k b' a' = Some x.
Proof.
  induction r as [p| |r1 IH1 r2 IH2|r1 IH1 r2 IH2|g lo p|r1 IH1|r1 IH1|w r1 IH1];
    intros b a k x; simpl.
  - destruct a as [|c a]; [done|]. destruct (p c); [|done].
    intros H. exists (c :: b), a. split; [|done].
    apply forward_step, forward_refl.
  - destruct a; [|done]. eauto using forward_refl.
  - intros H. apply IH1 in H as (b1 & a1 & Hf1 & H).
    apply IH2 in H as (b2 & a2 & Hf2 & H).
    eauto using forward_trans.
  - destruct (match_re r1 b a k) eqn:E.
    + intros [= ->]. eauto.
    + eauto.
  - destruct g; eauto using rep_greedy_forward, rep_lazy_forward.
  - destruct (match_re r1 b a k) eqn:E.
    + intros [= ->]. eauto.
    + eauto using forward_refl.
  - destruct (match_re r1 b a _); [|done]. eauto using forward_refl.
  - destruct (length b <? w); [done|].
    destruct (match_re r1 _ _ _); [|done]. eauto using forward_refl.
Qed.
End Forward.

Lemma match_here_forward r ma b a b' a' :
  match_here r ma b a = Some (b', a') ->
  forward b a b' a' /\ (ma = true -> length a' < length a).
Proof.
  unfold match_here. intros H.
  apply match_re_forward in H as (b1 & a1 & Hf & H).
  destruct (ma && (length a1 =? length a)) eqn:E; [done|].
  injection H as <- <-. split; [done|].
  intros ->. simpl in E. apply Nat.eqb_neq in E.
  apply forward_length in Hf. lia.
Qed.

Lemma match_here_take r ma b a b' a' :
  match_here r ma b a = Some (b', a') ->
  a = take (length a - length a') a ++ a'.
Proof.
  intros [(m & E & _) _]%match_here_forward.
  rewrite E at 1 2 3. rewrite length_app.
  replace (length m + length a' - length a') with (length m) by lia.
  by rewrite take_app_length.
Qed.

(** What [search] returns cuts the text from the search position on into
    the skipped part, the match and the rest. *)
Lemma search_spec r a : forall ma b skipped before matched b' a',
  search r ma b a skipped = Some (before, matched, (b', a')) ->
  exists s, before = rev skipped ++ s /\ a = s ++ matched ++ a' /\
            (ma = true -> length a' < length a).
Proof.
  induction a as [|c a IH]; intros ma b skipped before matched b' a';
    cbn [search].
  - destruct (match_here r ma b []) as [[b1 a1]|] eqn:E; [|done].
    intros [= <- <- <- <-]. exists []. rewrite app_nil_r.
    split; [done|]. split; [by apply match_here_take in E|].
    by apply match_here_forward in E as [_ Hma].
  - destruct (match_here r ma b (c :: a)) as [[b1 a1]|] eqn:E.
    + intros [= <- <- <- <-]. exists []. rewrite app_nil_r.
      split; [done|]. split; [by apply match_here_take in E|].
      by apply match_here_forward in E as [_ Hma].
    + intros H. apply IH in H as (s & -> & -> & _).
      exists (c :: s). cbn [rev]. rewrite <- app_assoc.
      split; [done|]. split; [done|].
      intros _. cbn [length]. rewrite !length_app. lia.
Qed.

(** The pieces of [split], put back together, are the text. *)
Lemma split_loop_concat fuel r : forall ma b a pieces,
  split_loop fuel r ma b a = Some pieces -> concat pieces = a.
Proof.
  induction fuel as [|fuel IH]; intros ma b a pieces; simpl.
  - destruct (search r ma b a []) as [[[before matched] [b' a']]|]; [done|].
    intros [= <-]. simpl. apply app_nil_r.
  - destruct (search r ma b a []) as [[[before matched] [b' a']]|] eqn:E.
    + destruct (split_loop fuel r _ b' a') as [rest|] eqn:E2; [|done].
      intros [= <-]. apply IH in E2.
      apply search_spec in E as (s & -> & -> & _). simpl. by rewrite E2.
    + intros [= <-]. simpl. apply app_nil_r.
Qed.

(** The fuel that [split] starts from is enough. *)
Lemma split_loop_total r fuel : forall (ma : bool) b a,
  2 * length a + (if ma then 0 else 1) <= fuel ->
  is_Some (split_loop fuel r ma b a).
Proof.
  induction fuel as [|fuel IH]; intros ma b a Hfuel; simpl.
  - destruct (search r ma b a []) as [[[before matched] [b' a']]|] eqn:E;
      [|done].
    apply search_spec in E as (s & _ & Ha & Hma).
    destruct ma; [specialize (Hma eq_refl)|]; lia.
  - destruct (search r ma b a []) as [[[before matched] [b' a']]|] eqn:E;
      [|done].
    apply search_spec in E as (s & _ & Ha & Hma).
    destruct (IH (negb (truthy matched)) b' a') as [rest Hrest].
    + destruct matched as [|c matched]; simpl.
      * destruct ma; [specialize (Hma eq_refl); lia|].
        rewrite Ha, !length_app in Hfuel. simpl in Hfuel. lia.
      * rewrite Ha, !length_app in Hfuel. simpl in Hfuel. lia.
    + rewrite Hrest. done.
Qed.

Lemma split_total r text : is_Some (split r text).
Proof. apply split_loop_total. simpl. lia. Qed.

Lemma split_concat r text pieces :
  split r text = Some pieces -> concat pieces = text.
Proof. apply split_loop_concat. Qed.

End ReFacts.

(** ** [textwrap]: whitespace is all that wrapping changes *)

Module TextwrapFacts.
Import Textwrap.

Lemma is_whitespace_isspace c : is_whitespace c = true -> isspace c = true.
Proof.
  unfold is_whitespace, isspace.
  rewrite !orb_true_iff, !andb_true_iff, !N.leb_le, !N.eqb_eq. lia.
Qed.

Lemma erase_space_replicate n : erase_space (replicate n Chr.sp) = [].
Proof. induction n; simpl; auto. Qed.

Lemma erase_expandtabs tabsize s : forall line_pos,
  erase_space (expandtabs_from tabsize line_pos s) = erase_space s.
Proof.
  induction s as [|c s IH]; intros line_pos; simpl; [done|].
  destruct (c =? Chr.tab)%N eqn:Hc.
  - apply N.eqb_eq in Hc as ->.
    change (erase_space (Chr.tab :: s)) with (erase_space s).
    destruct (0 <? tabsize); [|by apply IH].
    rewrite erase_space_app, erase_space_replicate. apply IH.
  - simpl. by rewrite IH.
Qed.

Lemma erase_translate s :
  erase_space (translate_whitespace s) = erase_space s.
Proof.
  induction s as [|c s IH]; simpl; [done|].
  destruct (is_whitespace c) eqn:Hc.
  - rewrite (is_whitespace_isspace _ Hc). simpl. done.
  - by rewrite IH.
Qed.

Lemma erase_munge text :
  erase_space (munge_whitespace text) = erase_space text.
Proof.
  unfold munge_whitespace, expandtabs.
  by rewrite erase_translate, erase_expandtabs.
Qed.

Lemma expandtabs_plain tabsize s : forall line_pos,
  plain s = true -> expandtabs_from tabsize line_pos s = s.
Proof.
  induction s as [|c s IH]; intros line_pos; simpl; [done|].
  intros [Hc Hs]%andb_prop.
  destruct (c =? Chr.tab)%N eqn:Ht.
  - apply N.eqb_eq in Ht as ->. done.
  - f_equal. by apply IH.
Qed.

Lemma translate_plain s : plain s = true -> translate_whitespace s = s.
Proof.
  induction s as [|c s IH]; simpl; [done|].
  intros [Hc Hs]%andb_prop. rewrite (IH Hs).
  destruct (is_whitespace c); [|done].
  simpl in Hc. by apply N.eqb_eq in Hc as ->.
Qed.

Lemma munge_plain text : plain text = true -> munge_whitespace text = text.
Proof.
  intros H. unfold munge_whitespace, expandtabs.
  by rewrite expandtabs_plain, translate_plain.
Qed.

Lemma blank_erase chunk : blank chunk = true -> erase_space chunk = [].
Proof.
  unfold blank. destruct (strip chunk) eqn:E; [|done]. intros _.
  by apply erase_space_all_space, strip_nil_iff.
Qed.

Lemma total_len_cons c chunks :
  total_len (c :: chunks) = length c + total_len chunks.
Proof. unfold total_len. simpl. by rewrite length_app. Qed.

Lemma total_len_app l1 l2 :
  total_len (l1 ++ l2) = total_len l1 + total_len l2.
Proof. unfold total_len. by rewrite concat_app, length_app. Qed.

Lemma fill_line_spec width chunks :
  forall cur_line cur_len chunks' cur_line' cur_len',
  fill_line width chunks cur_line cur_len = (chunks', cur_line', cur_len') ->
  exists moved,
    chunks = moved ++ chunks' /\ cur_line' = cur_line ++ moved /\
    cur_len' = cur_len + total_len moved /\
    (cur_len <= width -> cur_len' <= width) /\
    (forall next r, chunks' = next :: r -> width < cur_len' + length next).
Proof.
  induction chunks as [|chunk rest IH];
    intros cur_line cur_len chunks' cur_line' cur_len'; simpl.
  - intros [= <- <- <-]. exists [].
    split_and!; rewrite ?app_nil_r; try done;
      try (unfold total_len; simpl; lia).
  - destruct (cur_len + length chunk <=? width) eqn:Hfit.
    + intros H. apply IH in H as (moved & -> & -> & -> & Hle & Hnext).
      apply Nat.leb_le in Hfit.
      exists (chunk :: moved). rewrite total_len_cons, <- app_assoc.
      split_and!; try done; [lia | intros _; apply Hle; lia].
    + intros [= <- <- <-]. apply Nat.leb_gt in Hfit.
      exists []. split_and!; rewrite ?app_nil_r; try done;
        try (unfold total_len; simpl; lia).
      intros next r [= <- <-]. done.
Qed.

(** Chunks that fit together on the line are all moved to it. *)
Lemma fill_line_all width chunks : forall cur_line cur_len,
  cur_len + total_len chunks <= width ->
  fill_line width chunks cur_line cur_len
  = ([], cur_line ++ chunks, cur_len + total_len chunks).
Proof.
  induction chunks as [|chunk rest IH]; intros cur_line cur_len; simpl.
  - intros _. rewrite app_nil_r. unfold total_len. simpl. f_equal. lia.
  - rewrite total_len_cons. intros H.
    destruct (cur_len + length chunk <=? width) eqn:Hfit.
    + rewrite IH by lia. rewrite <- app_assoc. simpl. f_equal. lia.
    + apply Nat.leb_gt in Hfit. lia.
Qed.

Lemma rfind_from_bound c s : forall i stop j,
  rfind_from c s i stop = Some j -> i <= j < stop.
Proof.
  induction s as [|x s IH]; intros i stop j; simpl; [done|].
  destruct (rfind_from c s (S i) stop) eqn:E.
  - intros [= ->]. apply IH in E. lia.
  - destruct ((x =? c)%N && (i <? stop)) eqn:Hc; [|done].
    intros [= <-]. apply andb_prop in Hc as [_ Hc%Nat.ltb_lt]. lia.
Qed.

Lemma handle_long_word_spec chunk rest cur_line cur_len width :
  1 <= width -> cur_len <= width -> width < length chunk ->
  exists stop,
    handle_long_word (chunk :: rest) cur_line cur_len width
    = (drop stop chunk :: rest, cur_line ++ [take stop chunk]) /\
    stop <= width - cur_len /\ (cur_len < width -> 1 <= stop).
Proof.
  intros Hw Hcur Hlong. unfold handle_long_word, slice_from, slice_to.
  destruct (width <? 1) eqn:E; [apply Nat.ltb_lt in E; lia|]. clear E.
  destruct (width - cur_len <? length chunk) eqn:E;
    [|apply Nat.ltb_ge in E; lia]. clear E.
  destruct (rfind_from Chr.hyphen chunk 0 (width - cur_len)) as [h|] eqn:Eh.
  - apply rfind_from_bound in Eh.
    destruct ((0 <? h) && existsb _ (take h chunk)).
    + exists (h + 1). split; [done|]. lia.
    + exists (width - cur_len). split; [done|]. lia.
  - exists (width - cur_len). split; [done|]. lia.
Qed.

Lemma erase_drop_trailing_blank cur_line :
  erase_space (concat (drop_trailing_blank cur_line))
  = erase_space (concat cur_line).
Proof.
  unfold drop_trailing_blank.
  destruct (last cur_line) as [chunk|] eqn:E; [|done].
  destruct (blank chunk) eqn:Hb; [|done].
  apply last_Some in E as [l' ->].
  rewrite removelast_last, concat_app, erase_space_app. simpl.
  by rewrite app_nil_r, (blank_erase _ Hb), app_nil_r.
Qed.

Lemma drop_trailing_blank_keep cur_line chunk :
  last cur_line = Some chunk -> blank chunk = false ->
  drop_trailing_blank cur_line = cur_line.
Proof. unfold drop_trailing_blank. by intros -> ->. Qed.

Lemma erase_new_line (lines cur_line : list pystr) :
  erase_space (concat match cur_line with
                      | [] => lines
                      | _ :: _ => lines ++ [join_empty cur_line]
                      end)
  = erase_space (concat lines) ++ erase_space (concat cur_line).
Proof.
  destruct cur_line as [|c l]; simpl; [by rewrite app_nil_r|].
  rewrite concat_app, erase_space_app. simpl. by rewrite app_nil_r.
Qed.

Lemma solid_total_len chunks :
  solid chunks -> chunks <> [] -> 1 <= total_len chunks.
Proof.
  intros H Hne. destruct H as [|c l Hc _]; [done|].
  rewrite total_len_cons. destruct c; [done | simpl; lia].
Qed.

(** One pass of the loop keeps the chunks non-empty, uses up at least one
    character of the stack, and loses only whitespace. *)
Lemma wrap_line_spec width first rest lines chunks' lines' :
  1 <= width -> solid (first :: rest) ->
  wrap_line width first rest lines = (chunks', lines') ->
  solid chunks' /\
  total_len chunks' < total_len (first :: rest) /\
  erase_space (concat lines') ++ erase_space (concat chunks')
  = erase_space (concat lines) ++ erase_space (concat (first :: rest)).
Proof.
  intros Hw Hsolid. unfold wrap_line.
  set (chunks1 := if blank first && negb (bool_decide (lines = []))
                  then rest else first :: rest).
  assert (H1 : solid chunks1 /\
               erase_space (concat chunks1)
               = erase_space (concat (first :: rest)) /\
               (chunks1 = first :: rest \/
                total_len chunks1 < total_len (first :: rest))).
  { subst chunks1. destruct (blank first) eqn:Hb; simpl; [|auto].
    destruct (negb (bool_decide (lines = []))); [|auto].
    split_and!.
    - by inversion Hsolid.
    - by rewrite erase_space_app, (blank_erase _ Hb).
    - right. rewrite total_len_cons. inversion Hsolid as [|? ? Hf _]; subst.
      destruct first; [done | simpl; lia]. }
  destruct H1 as (Hs1 & He1 & Hp1). clearbody chunks1.
  destruct (fill_line width chunks1 [] 0) as [[chunks2 cur_line] cur_len]
    eqn:Ef.
  apply fill_line_spec in Ef as (moved & -> & -> & -> & Hle & Hnext).
  simpl in *. specialize (Hle ltac:(lia)).
  apply Forall_app in Hs1 as [Hsm Hs2].
  assert (Hmoved : moved <> [] -> 1 <= total_len moved)
    by (by apply solid_total_len).
  assert (Hfirst : 1 <= total_len (first :: rest))
    by (by apply solid_total_len).
  rewrite <- He1. clear He1.
  rewrite concat_app, erase_space_app.
  destruct chunks2 as [|next r2].
  - intros [= <- <-]. split_and!; [done | unfold total_len at 1; simpl; lia |].
    rewrite erase_new_line, erase_drop_trailing_blank.
    by rewrite <- app_assoc.
  - specialize (Hnext _ _ eq_refl).
    destruct (width <? length next) eqn:Hlong.
    + apply Nat.ltb_lt in Hlong.
      destruct (handle_long_word_spec next r2 moved (total_len moved) width)
        as (stop & -> & Hstop & Hstop1); [done..|].
      intros [= <- <-].
      apply Forall_cons in Hs2 as [Hnext_ne Hs2].
      split_and!.
      * apply Forall_cons. split; [|done].
        intros E. apply (f_equal length) in E.
        rewrite length_drop in E. simpl in E. lia.
      * rewrite total_len_cons, length_drop.
        destruct Hp1 as [E | Hlt].
        -- rewrite <- E, total_len_app, total_len_cons.
           destruct moved as [|m moved'].
           ++ unfold total_len at 1 in Hstop1. simpl in Hstop1.
              specialize (Hstop1 ltac:(lia)). unfold total_len at 2.
              simpl. lia.
           ++ specialize (Hmoved ltac:(done)). lia.
        -- rewrite total_len_app, total_len_cons in Hlt. lia.
      * rewrite erase_new_line, erase_drop_trailing_blank.
        rewrite <- !erase_space_app. f_equal.
        rewrite concat_app. simpl. rewrite app_nil_r, <- !app_assoc.
        do 2 f_equal. by rewrite app_assoc, take_drop.
    + apply Nat.ltb_ge in Hlong. intros [= <- <-].
      split_and!; [done | |].
      * assert (moved <> []).
        { intros ->. unfold total_len in Hnext. simpl in Hnext. lia. }
        specialize (Hmoved ltac:(done)).
        destruct Hp1 as [E | Hlt].
        -- rewrite <- E, total_len_app. lia.
        -- rewrite total_len_app in Hlt. lia.
      * rewrite erase_new_line, erase_drop_trailing_blank.
        by rewrite <- app_assoc.
Qed.

(** The loop ends before its fuel, and what it returns is the text of the
    lines so far and of the chunks, whitespace apart. *)
Lemma wrap_loop_spec width fuel : forall chunks lines,
  1 <= width -> solid chunks -> total_len chunks <= fuel ->
  exists lines',
    wrap_loop fuel width chunks lines = Some lines' /\
    erase_space (concat lines')
    = erase_space (concat lines) ++ erase_space (concat chunks).
Proof.
  induction fuel as [|fuel IH]; intros chunks lines Hw Hsolid Hfuel.
  - destruct chunks as [|first rest].
    + exists lines. simpl. by rewrite app_nil_r.
    + pose proof (solid_total_len _ Hsolid ltac:(done)). lia.
  - destruct chunks as [|first rest].
    + exists lines. simpl. by rewrite app_nil_r.
    + cbn [wrap_loop].
      destruct (wrap_line width first rest lines) as [chunks' lines1] eqn:E.
      apply wrap_line_spec in E as (Hs' & Hlt & He); [|done..].
      destruct (IH chunks' lines1) as (lines' & -> & He'); [done | done | lia |].
      exists lines'. split; [done|]. by rewrite He', He.
Qed.

Lemma concat_filter_truthy (pieces : list pystr) :
  concat (List.filter truthy pieces) = concat pieces.
Proof.
  induction pieces as [|piece pieces IH]; simpl; [done|].
  destruct piece; simpl; by rewrite IH.
Qed.

Lemma solid_filter_truthy (pieces : list pystr) :
  solid (List.filter truthy pieces).
Proof.
  induction pieces as [|piece pieces IH]; simpl; [done|].
  destruct piece; simpl; [done|]. by apply Forall_cons.
Qed.

Section Wrap.
Variables uni_alnum uni_decimal : N -> bool.

(** [_split_chunks] always returns, with chunks that are not empty and
    whose text is the munged text. *)
Lemma split_chunks_spec text :
  exists chunks,
    split_chunks uni_alnum uni_decimal text = Some chunks /\
    solid chunks /\ concat chunks = munge_whitespace text.
Proof.
  unfold split_chunks, split_words.
  destruct (ReFacts.split_total (wordsep_re uni_alnum uni_decimal)
              (munge_whitespace text)) as [pieces Hp].
  rewrite Hp. simpl. eexists. split; [done|].
  split; [apply solid_filter_truthy|].
  rewrite concat_filter_truthy. by apply ReFacts.split_concat in Hp.
Qed.

Lemma last_concat_solid (chunks : list pystr) c :
  solid chunks -> last (concat chunks) = Some c ->
  exists chunk, last chunks = Some chunk /\ last chunk = Some c.
Proof.
  intros Hsolid. destruct (last chunks) as [chunk|] eqn:E.
  - apply last_Some in E as [l ->].
    apply Forall_app in Hsolid as [_ [Hne _]%Forall_cons].
    rewrite concat_app. simpl. rewrite app_nil_r.
    intros H. exists chunk. split; [done|].
    destruct (last chunk) as [d|] eqn:Ed.
    + apply last_Some in Ed as [l' ->].
      rewrite app_assoc, last_snoc in H. done.
    + by apply last_None in Ed.
  - apply last_None in E as ->. done.
Qed.

Lemma not_blank_last chunk c :
  last chunk = Some c -> isspace c = false -> blank chunk = false.
Proof.
  intros [l ->]%last_Some Hc. unfold blank.
  destruct (strip (l ++ [c])) eqn:E; [|done].
  apply strip_nil_iff in E. rewrite forallb_app in E. simpl in E.
  rewrite Hc, andb_false_r in E. done.
Qed.

End Wrap.

End TextwrapFacts.

(** ** The Chunker *)

Section ChunkerFacts.
Import Textwrap TextwrapFacts.
Variables uni_alnum uni_decimal : N -> bool.

(** C1.  For every text, [split_text] with [max_chars = 1000] returns, and
    the segments it returns, concatenated in order, are the input text
    once whitespace is left out of both: every character that is not
    whitespace is kept, once and in its place; only whitespace is added,
    replaced or dropped. *)
Theorem split_text_lossless (text : pystr) :
  exists segments,
    split_text uni_alnum uni_decimal text 1000 = Ok segments /\
    erase_space (join_empty segments) = erase_space text.
Proof.
  unfold split_text, wrap, wrap_chunks.
  destruct (split_chunks_spec uni_alnum uni_decimal text)
    as (chunks & -> & Hsolid & Hconcat).
  change (1000 <=? 0) with false. cbv iota.
  destruct (wrap_loop_spec 1000 (total_len chunks) chunks [])
    as (lines & -> & He); [lia | done | done |].
  exists lines. split; [done|].
  unfold join_empty. rewrite He, Hconcat. simpl. apply erase_munge.
Qed.

(** C2, as amended.  A text shorter than the maximum that contains no tab,
    newline, vertical tab, form feed or carriage return and ends in a
    character that is not whitespace comes back as exactly one segment,
    equal to the text. *)
Theorem split_text_short (text : pystr) (max_chars : nat) :
  length text < max_chars ->
  plain text = true ->
  ends_in_text text = true ->
  split_text uni_alnum uni_decimal text max_chars = Ok [text].
Proof.
  intros Hlen Hplain Hends. unfold ends_in_text in Hends.
  destruct (last text) as [c|] eqn:Hlast; [|done].
  apply negb_true_iff in Hends.
  unfold split_text, wrap, wrap_chunks.
  destruct (split_chunks_spec uni_alnum uni_decimal text)
    as (chunks & -> & Hsolid & Hconcat).
  rewrite munge_plain in Hconcat by done.
  destruct (max_chars <=? 0) eqn:E; [apply Nat.leb_le in E; lia|]. clear E.
  (* the last chunk ends in the last character of the text: it stays *)
  rewrite <- Hconcat in Hlast.
  destruct (last_concat_solid _ _ Hsolid Hlast) as (chunk & Hchunk & Hc).
  pose proof (not_blank_last _ _ Hc Hends) as Hnb.
  assert (Htot : total_len chunks <= max_chars)
    by (unfold total_len; rewrite Hconcat; lia).
  destruct chunks as [|first rest]; [done|].
  pose proof (solid_total_len _ Hsolid ltac:(done)) as Hpos.
  destruct (total_len (first :: rest)) as [|fuel] eqn:Hfuel; [lia|].
  (* one pass of the loop: nothing is dropped in front, all chunks fit *)
  cbn [wrap_loop]. unfold wrap_line.
  replace (blank first && negb (bool_decide ([] = [])))
    with false by (by rewrite andb_false_r).
  rewrite fill_line_all by (simpl; lia). simpl app.
  rewrite (drop_trailing_blank_keep _ _ Hchunk Hnb).
  unfold join_empty. rewrite Hconcat. by destruct fuel.
Qed.
End ChunkerFacts.

(** C2 fails as stated: the empty text has length 0 and yields no segment
    at all. *)
Lemma split_text_short_fails :
  ~ (forall (uni_alnum uni_decimal : N -> bool) (text : pystr),
       length text < 1000 ->
       split_text uni_alnum uni_decimal text 1000 = Ok [text]).
Proof.
  intros H. specialize (H no_unicode no_unicode [] ltac:(simpl; lia)).
  vm_compute in H. discriminate.
Qed.

Lemma split_text_short_witness :
  split_text no_unicode no_unicode (py "The sky is blue. Water is wet.") 1000
  = Ok [py "The sky is blue. Water is wet."].
Proof.
  apply split_text_short; [vm_compute; lia | reflexivity | reflexivity].
Defined.

(** ** Running the script *)

Section Frames.
Context {C : Type}.
Implicit Types proj : world -> C.

Lemma untouched_ret {A} proj (x : A) : untouched proj (ret x).
Proof. by intros w. Qed.

Lemma untouched_lift {A} proj (r : res A) : untouched proj (lift r).
Proof. by intros w. Qed.

Lemma untouched_bind {A B} proj (m : M A) (f : A -> M B) :
  untouched proj m -> (forall x, untouched proj (f x)) ->
  untouched proj (m ≫= f).
Proof.
  intros Hm Hf w. unfold mbind, M_bind. specialize (Hm w).
  destruct (m w) as [[x|e] w1]; simpl in *; [|done].
  by rewrite Hf.
Qed.

Lemma untouched_get_state proj key : untouched proj (get_state key).
Proof. intros w. unfold get_state. by destruct (_ !! _). Qed.

Lemma untouched_has_state proj key : untouched proj (has_state key).
Proof. by intros w. Qed.
End Frames.

Section Appends.
Context {C : Type}.
Implicit Types proj : world -> list C.

Lemma appends_untouched {A} proj P (m : M A) :
  untouched proj m -> appends proj P m.
Proof. intros H w. exists []. by rewrite H, app_nil_r. Qed.

Lemma appends_bind {A B} proj P (m : M A) (f : A -> M B) :
  appends proj P m -> (forall x, appends proj P (f x)) ->
  appends proj P (m ≫= f).
Proof.
  intros Hm Hf w. unfold mbind, M_bind.
  destruct (Hm w) as (new1 & E1 & H1).
  destruct (m w) as [[x|e] w1]; simpl in *; [|eauto].
  destruct (Hf x w1) as (new2 & E2 & H2).
  exists (new1 ++ new2). rewrite E2, E1, <- app_assoc.
  split; [done|]. by apply Forall_app.
Qed.

End Appends.

(** What the page elements and the state operations touch. *)
Lemma st_session e : untouched session_state (st e).
Proof. by intros w. Qed.

Lemma st_qa_calls e : untouched qa_calls (st e).
Proof. by intros w. Qed.

Lemma st_summarizer_calls e : untouched summarizer_calls (st e).
Proof. by intros w. Qed.

Lemma st_screen (P : element -> Prop) e : P e -> appends screen P (st e).
Proof. intros H w. exists [e]. split; [done|]. by apply Forall_singleton. Qed.

Lemma set_state_qa_calls key v : untouched qa_calls (set_state key v).
Proof. by intros w. Qed.

Lemma set_state_screen key v : untouched screen (set_state key v).
Proof. by intros w. Qed.

Lemma set_item_qa_calls key i x : untouched qa_calls (set_item key i x).
Proof.
  apply untouched_bind; [apply untouched_get_state|]. intros items.
  destruct (i <? length items);
    [apply set_state_qa_calls | apply untouched_lift].
Qed.

Lemma set_item_screen key i x : untouched screen (set_item key i x).
Proof.
  apply untouched_bind; [apply untouched_get_state|]. intros items.
  destruct (i <? length items);
    [apply set_state_screen | apply untouched_lift].
Qed.

Create HintDb frame.

#[local] Hint Resolve untouched_ret untouched_lift untouched_get_state
  untouched_has_state st_session st_qa_calls st_summarizer_calls
  set_state_qa_calls set_state_screen set_item_qa_calls set_item_screen
  : frame.

(** Chains of calls are taken apart call by call. *)
Ltac frame :=
  repeat first
    [ apply untouched_bind; [|intros ?]
    | apply appends_bind; [|intros ?]
    | solve [eauto with frame]
    | apply appends_untouched; solve [eauto with frame]
    | match goal with
      | |- untouched _ (if ?b then _ else _) => destruct b
      | |- appends _ _ (if ?b then _ else _) => destruct b
      | |- untouched _ (match ?l with [] => _ | _ :: _ => _ end) => destruct l
      | |- appends _ _ (match ?l with [] => _ | _ :: _ => _ end) => destruct l
      end ].

Section ScriptFacts.
Variables uni_alnum uni_decimal : N -> bool.
Variable uni_lower : pystr -> pystr.
Variable extract_text : list Byte.byte -> res pystr.
Variable decode_utf8 : list Byte.byte -> res pystr.
Variable summarizer : pystr -> res pystr.
Variable qa_pipeline : pystr -> pystr -> res (pystr * PyFloat.float).
Variable question_generator : pystr -> res pystr.

Abbreviation the_page :=
  (page uni_alnum uni_decimal uni_lower extract_text decode_utf8 summarizer
        qa_pipeline question_generator).

(** *** What the pipeline calls touch *)

Lemma call_qa_session q c :
  untouched session_state (call_qa qa_pipeline q c).
Proof. by intros w. Qed.

Lemma call_qa_screen q c : untouched screen (call_qa qa_pipeline q c).
Proof. by intros w. Qed.

Lemma call_qa_appends (P : pystr * pystr -> Prop) q c :
  P (q, c) -> appends qa_calls P (call_qa qa_pipeline q c).
Proof. intros H w. exists [(q, c)]. split; [done|]. by apply Forall_singleton. Qed.

Lemma call_summarizer_qa_calls chunk :
  untouched qa_calls (call_summarizer summarizer chunk).
Proof. by intros w. Qed.

Lemma call_generator_qa_calls prompt :
  untouched qa_calls (call_generator question_generator prompt).
Proof. by intros w. Qed.

Lemma call_generator_screen prompt :
  untouched screen (call_generator question_generator prompt).
Proof. by intros w. Qed.

Hint Resolve call_qa_session call_qa_screen call_summarizer_qa_calls
  call_generator_qa_calls call_generator_screen : frame.

(** *** The context of the question-answering calls *)

Lemma context_length d : length (context d) = min (length d) 2000.
Proof. unfold context, slice_to. rewrite length_take. lia. Qed.

Lemma bounded_call_context q d : bounded_call (q, context d).
Proof. split; [simpl; rewrite context_length; lia | by exists d]. Qed.

Lemma summary_loop_qa_calls chunks : forall i combined,
  untouched qa_calls (summary_loop summarizer i chunks combined).
Proof. induction chunks as [|chunk rest IH]; intros i combined; simpl; frame. Qed.

Lemma capture_loop_qa_calls questions ws : forall i,
  untouched qa_calls (capture_loop i questions ws).
Proof. induction questions as [|q rest IH]; intros i; simpl; frame. Qed.

Lemma evaluate_loop_qa_calls pairs d : forall i,
  appends qa_calls bounded_call
    (evaluate_loop uni_lower qa_pipeline i pairs d).
Proof.
  induction pairs as [|[q u] rest IH]; intros i; simpl; [frame|].
  apply appends_bind; [apply call_qa_appends, bounded_call_context|].
  intros result. frame.
Qed.

Hint Resolve summary_loop_qa_calls capture_loop_qa_calls
  evaluate_loop_qa_calls : frame.

Lemma page_qa_calls uploaded ws :
  appends qa_calls bounded_call (the_page uploaded ws).
Proof.
  unfold page. apply appends_bind.
  - unfold upload_section. destruct uploaded; frame.
  - intros d. apply appends_bind; [|intros _; apply appends_bind; intros].
    + unfold summary_section. frame.
    + unfold ask_section. frame.
      apply call_qa_appends, bounded_call_context.
    + unfold quiz_section, init_quiz, generate_handler, quiz_body,
        evaluate_handler. frame.
Qed.

(** C3.  The context is exactly the first [min(len(d), 2000)] characters of
    the document, and every question-answering call that a run of the
    page makes, from the question box or from the evaluation of the quiz,
    is made with such a context: one of at most 2000 characters. *)
Theorem context_truncates (d : pystr) :
  context d = take (min (length d) 2000) d /\
  length (context d) = min (length d) 2000 /\
  (exists rest, d = context d ++ rest) /\
  forall uploaded ws w,
  exists calls,
    qa_calls (snd (the_page uploaded ws w)) = qa_calls w ++ calls /\
    Forall (fun call => length (snd call) <= 2000 /\
                        exists d', snd call = context d') calls.
Proof.
  split_and!.
  - unfold context, slice_to.
    destruct (Nat.le_gt_cases (length d) 2000) as [H|H].
    + rewrite Nat.min_l by done. by rewrite !take_ge by lia.
    + by rewrite Nat.min_r by lia.
  - apply context_length.
  - exists (drop 2000 d). unfold context, slice_to. by rewrite take_drop.
  - intros uploaded ws w. apply page_qa_calls.
Qed.

(** *** Evaluation reads the quiz state *)

Lemma evaluate_loop_session pairs d : forall i,
  untouched session_state (evaluate_loop uni_lower qa_pipeline i pairs d).
Proof. induction pairs as [|[q u] rest IH]; intros i; simpl; frame. Qed.

Hint Resolve evaluate_loop_session : frame.

Lemma evaluate_handler_session d :
  untouched session_state (evaluate_handler uni_lower qa_pipeline d).
Proof. unfold evaluate_handler. frame. Qed.

(** C10.  Evaluation leaves the quiz state as it found it: after a run of
    the handler, whether it returns or a question-answering call raises,
    [st.session_state] is what it was, so the questions and the answers
    are the same sequences as before. *)
Theorem evaluate_reads_only (d : pystr) (w : world) :
  let w' := snd (evaluate_handler uni_lower qa_pipeline d w) in
  session_state w' = session_state w /\
  session_state w' !! "questions" = session_state w !! "questions" /\
  session_state w' !! "user_answers" = session_state w !! "user_answers".
Proof.
  simpl. pose proof (evaluate_handler_session d w) as ->. done.
Qed.

(** *** Unsupported uploads *)

(** C9.  A file whose declared type is neither PDF nor plain text gives the
    empty document text without raising, and the run of the page then
    shows the upload message alone: no summary, no question box, no quiz,
    no pipeline call, and the session state is left alone. *)
Theorem unsupported_type_is_silent (file : uploaded_file) (ws : widgets)
    (session : gmap string (list pystr)) :
  file_type file <> py "application/pdf" ->
  file_type file <> py "text/plain" ->
  extract_file_text extract_text decode_utf8 file = Ok [] /\
  the_page (Some file) ws (start session)
  = (Ok tt,
     {| session_state := session;
        screen := [Success (py "Document uploaded and text extracted successfully!")];
        summarizer_calls := []; qa_calls := []; generator_calls := [] |}).
Proof.
  intros Hpdf Htxt.
  assert (E : extract_file_text extract_text decode_utf8 file = Ok []).
  { unfold extract_file_text.
    by rewrite !bool_decide_eq_false_2. }
  split; [done|].
  unfold page, upload_section, mbind, M_bind, lift. by rewrite E.
Qed.

(** *** The summary *)

Lemma summary_loop_spec chunks : forall summaries i combined w,
  Forall2 (fun chunk summary => summarizer chunk = Ok summary)
          chunks summaries ->
  summary_loop summarizer i chunks combined w
  = (Ok (combined ++
         concat (imap (fun j s => labelled (i + j) s ++ [Chr.nl; Chr.nl])
                      summaries)),
     {| session_state := session_state w; screen := screen w;
        summarizer_calls := summarizer_calls w ++ chunks;
        qa_calls := qa_calls w; generator_calls := generator_calls w |}).
Proof.
  induction chunks as [|chunk rest IH]; intros summaries i combined w H.
  - apply Forall2_nil_inv_l in H as ->. simpl.
    rewrite !app_nil_r. by destruct w.
  - apply Forall2_cons_inv_l in H as (s & rest' & Hs & Hrest & ->).
    cbn [summary_loop]. unfold mbind, M_bind, call_summarizer.
    rewrite Hs, (IH _ _ _ _ Hrest).
    cbn [imap concat session_state screen summarizer_calls qa_calls
         generator_calls].
    f_equal.
    + f_equal. unfold labelled at 2. rewrite Nat.add_0_r, <- !app_assoc.
      do 6 f_equal.
      apply imap_ext. intros j s' _. simpl. do 2 f_equal. lia.
    + f_equal. by rewrite <- app_assoc.
Qed.

Lemma concat_entries (sep : pystr) (entries : list pystr) :
  concat (List.map (fun e => e ++ sep) entries)
  = match entries with
    | [] => []
    | _ :: _ => join sep entries ++ sep
    end.
Proof.
  induction entries as [|e rest IH]; [done|].
  cbn [List.map concat]. rewrite IH.
  destruct rest; simpl; [by rewrite app_nil_r|].
  by rewrite <- !app_assoc.
Qed.

Lemma strip_entries (summaries : list pystr) :
  strip (concat (imap (fun j s => labelled (0 + j) s ++ [Chr.nl; Chr.nl])
                      summaries))
  = aggregate summaries.
Proof.
  unfold aggregate.
  replace (imap (fun j s => labelled (0 + j) s ++ [Chr.nl; Chr.nl]) summaries)
    with (List.map (fun e => e ++ [Chr.nl; Chr.nl]) (imap labelled summaries)).
  - rewrite concat_entries. destruct (imap labelled summaries); [done|].
    by apply strip_spaces_r.
  - generalize labelled. induction summaries as [|s rest IH]; intros f;
      [done|].
    simpl. f_equal. apply IH.
Qed.

(** *** Generating the quiz *)

Lemma parse_questions_length output :
  1 <= length (parse_questions output) <= 3.
Proof.
  unfold parse_questions, slice_to. rewrite length_take.
  destruct (List.map strip _) as [|q l]; cbn [length]; lia.
Qed.

(** *** Evaluating the quiz *)

Abbreviation block_of :=
  (fun (i : nat) (row : pystr * pystr * (pystr * PyFloat.float)) =>
     verdict_block uni_lower i (fst (fst row)) (snd (fst row))
                   (fst (snd row)) (snd (snd row))).

Lemma evaluate_loop_spec d pairs : forall results i w,
  Forall2 (fun pair result => qa_pipeline (fst pair) (context d) = Ok result)
          pairs results ->
  evaluate_loop uni_lower qa_pipeline i pairs d w
  = (Ok tt,
     {| session_state := session_state w;
        screen := screen w ++
                  concat (imap (fun j => block_of (i + j)) (zip pairs results));
        summarizer_calls := summarizer_calls w;
        qa_calls := qa_calls w ++
                    List.map (fun pair => (fst pair, context d)) pairs;
        generator_calls := generator_calls w |}).
Proof.
  induction pairs as [|[q u] rest IH]; intros results i w H.
  - apply Forall2_nil_inv_l in H as ->. simpl.
    rewrite !app_nil_r. by destruct w.
  - apply Forall2_cons_inv_l in H as ([c s] & results' & Hqa & Hrest & ->).
    cbn [evaluate_loop]. unfold mbind, M_bind, call_qa. simpl in Hqa.
    rewrite Hqa.
    assert (Hst : forall e w0, st e w0
              = (Ok tt, {| session_state := session_state w0;
                           screen := screen w0 ++ [e];
                           summarizer_calls := summarizer_calls w0;
                           qa_calls := qa_calls w0;
                           generator_calls := generator_calls w0 |}))
      by done.
    rewrite !Hst.
    replace ((if matches uni_lower u (fst (c, s))
              then st (Success (py "Correct"))
              else st (ErrorBox (py "Incorrect"))) )
      with (st (if matches uni_lower u c then Success (py "Correct")
                else ErrorBox (py "Incorrect")))
      by (simpl; by destruct (matches uni_lower u c)).
    rewrite !Hst, (IH _ _ _ Hrest).
    cbn [session_state screen summarizer_calls qa_calls generator_calls
         fst snd zip_with imap concat List.map].
    f_equal. f_equal.
    + rewrite <- !app_assoc. f_equal. unfold verdict_block at 2.
      rewrite Nat.add_0_r. cbn [app]. do 7 f_equal.
      apply imap_ext. intros j row _. simpl. f_equal. lia.
    + by rewrite <- app_assoc.
Qed.

(** *** The two sequences of the quiz stay aligned *)

Lemma keeps_untouched {A} I (m : M A) :
  untouched session_state m -> keeps I m.
Proof. intros H w. by rewrite H. Qed.

Lemma keeps_bind {A B} I (m : M A) (f : A -> M B) :
  keeps I m -> (forall x, keeps I (f x)) -> keeps I (m ≫= f).
Proof.
  intros Hm Hf w HI. unfold mbind, M_bind. specialize (Hm w HI).
  destruct (m w) as [[x|e] w1]; simpl in *; [|done].
  by apply Hf.
Qed.

Lemma aligned_insert_both session questions user_answers :
  length questions = length user_answers ->
  aligned (<["user_answers" := user_answers]>
             (<["questions" := questions]> session)).
Proof.
  intros H. exists questions, user_answers.
  by rewrite lookup_insert_ne, !lookup_insert_eq.
Qed.

(** Initialisation aligns a session that has no questions yet and leaves
    an initialised session alone. *)
Lemma init_quiz_aligned w :
  session_state w !! "questions" = None \/ aligned (session_state w) ->
  aligned (session_state (snd (init_quiz w))).
Proof.
  unfold init_quiz, mbind, M_bind, has_state. cbn [fst snd].
  intros [Hnone | Hal].
  - rewrite bool_decide_eq_false_2 by (rewrite Hnone; by intros [? ?]).
    cbn. by apply aligned_insert_both.
  - destruct Hal as (qs & us & Hq & Hu & Hlen).
    rewrite bool_decide_eq_true_2 by (rewrite Hq; eauto).
    cbn. by exists qs, us.
Qed.

Lemma generate_handler_aligned d w :
  aligned (session_state w) ->
  aligned (session_state (snd (generate_handler question_generator d w))).
Proof.
  intros Hal.
  unfold generate_handler, mbind, M_bind, call_generator, set_state,
    get_state.
  destruct (question_generator _) as [output|e]; [|done].
  cbn [session_state screen summarizer_calls qa_calls generator_calls
       fst snd].
  rewrite lookup_insert_eq.
  cbn [session_state screen summarizer_calls qa_calls generator_calls
       fst snd].
  apply aligned_insert_both. by rewrite length_replicate.
Qed.

Lemma set_item_aligned i x : keeps aligned (set_item "user_answers" i x).
Proof.
  intros w (qs & us & Hq & Hu & Hlen).
  unfold set_item, mbind, M_bind, get_state, set_state, lift. rewrite Hu.
  destruct (i <? length us); cbn; [|by exists qs, us].
  exists qs, (<[i := x]> us).
  rewrite lookup_insert_ne, lookup_insert_eq, length_insert by done. done.
Qed.

Lemma capture_loop_aligned questions ws : forall i,
  keeps aligned (capture_loop i questions ws).
Proof.
  induction questions as [|q rest IH]; intros i; cbn [capture_loop].
  - by intros w.
  - apply keeps_bind; [apply keeps_untouched, st_session|intros _].
    apply keeps_bind; [apply keeps_untouched, st_session|intros _].
    apply keeps_bind; [apply set_item_aligned|intros _]. apply IH.
Qed.

Lemma evaluate_handler_aligned d :
  keeps aligned (evaluate_handler uni_lower qa_pipeline d).
Proof. apply keeps_untouched, evaluate_handler_session. Qed.

Lemma quiz_body_aligned d ws :
  keeps aligned (quiz_body uni_lower qa_pipeline d ws).
Proof.
  unfold quiz_body.
  apply keeps_bind; [apply keeps_untouched, untouched_get_state|].
  intros [|q rest]; [by intros w|].
  apply keeps_bind; [apply capture_loop_aligned|]. intros _.
  apply keeps_bind; [apply keeps_untouched, untouched_get_state|].
  intros us. destruct (all_answered us); [|by intros w].
  apply keeps_bind; [apply keeps_untouched, st_session|]. intros _.
  destruct (evaluate_answers ws);
    [apply evaluate_handler_aligned | by intros w].
Qed.

Lemma quiz_section_aligned d ws :
  keeps aligned
    (quiz_section uni_lower qa_pipeline question_generator d ws).
Proof.
  unfold quiz_section. destruct (truthy d); [|by intros w].
  apply keeps_bind; [apply keeps_untouched, st_session|intros _].
  apply keeps_bind; [apply keeps_untouched, st_session|intros _].
  apply keeps_bind; [|intros _].
  { intros w H. apply init_quiz_aligned. by right. }
  apply keeps_bind; [apply keeps_untouched, st_session|intros _].
  apply keeps_bind; [|intros _; apply quiz_body_aligned].
  destruct (generate_questions ws); [|by intros w].
  intros w. apply generate_handler_aligned.
Qed.

Lemma call_summarizer_session chunk :
  untouched session_state (call_summarizer summarizer chunk).
Proof. by intros w. Qed.

Hint Resolve call_summarizer_session : frame.

Lemma summary_loop_session chunks : forall i combined,
  untouched session_state (summary_loop summarizer i chunks combined).
Proof.
  induction chunks as [|chunk rest IH]; intros i combined; simpl; frame.
Qed.

Hint Resolve summary_loop_session : frame.

Lemma page_aligned uploaded ws : keeps aligned (the_page uploaded ws).
Proof.
  unfold page. apply keeps_bind.
  - apply keeps_untouched. unfold upload_section. destruct uploaded; frame.
  - intros d. apply keeps_bind; [|intros _; apply keeps_bind; intros].
    + apply keeps_untouched. unfold summary_section. frame.
    + apply keeps_untouched. unfold ask_section. frame.
    + apply quiz_section_aligned.
Qed.

Abbreviation the_op :=
  (run_op uni_alnum uni_decimal uni_lower extract_text decode_utf8
          summarizer qa_pipeline question_generator).

Lemma run_op_aligned op : keeps aligned (the_op op).
Proof.
  destruct op as [|d|ws|d|d ws|uploaded ws]; cbn [run_op].
  - intros w H. apply init_quiz_aligned. by right.
  - intros w. apply generate_handler_aligned.
  - unfold capture_answers.
    apply keeps_bind; [apply keeps_untouched, untouched_get_state|].
    intros qs. apply capture_loop_aligned.
  - apply evaluate_handler_aligned.
  - apply quiz_section_aligned.
  - apply page_aligned.
Qed.

(** C6.  In every world reachable once the quiz state is initialised,
    the session holds a question sequence and an answer sequence of the
    same length; initialisation establishes this, and generation,
    answer capture, evaluation and whole runs of the quiz section and of
    the page keep it, also when they raise. *)
Theorem questions_and_answers_aligned :
  (forall w,
     quiz_reachable uni_alnum uni_decimal uni_lower extract_text
                    decode_utf8 summarizer qa_pipeline question_generator w ->
     exists questions user_answers,
       session_state w !! "questions" = Some questions /\
       session_state w !! "user_answers" = Some user_answers /\
       length questions = length user_answers) /\
  (forall w,
     session_state w !! "questions" = None ->
     aligned (session_state (snd (init_quiz w)))) /\
  (forall op w,
     aligned (session_state w) ->
     aligned (session_state (snd (the_op op w)))).
Proof.
  split_and!.
  - induction 1 as [w Hnone | op w _ IH].
    + apply init_quiz_aligned. by left.
    + by apply run_op_aligned.
  - intros w Hnone. apply init_quiz_aligned. by left.
  - intros op w. apply run_op_aligned.
Qed.

(** *** The gate of the evaluation *)

Lemma passive_not_in (l : list element) :
  Forall passive l -> ~ In evaluate_button l /\ ~ In results_header l.
Proof.
  induction 1 as [|e l [H1 H2] _ [IH1 IH2]]; [by split; intros []|].
  split; intros [E|E]; auto.
Qed.

Lemma all_answered_Forall user_answers :
  all_answered user_answers = true <-> Forall answered user_answers.
Proof.
  unfold all_answered, answered. rewrite forallb_forall, Forall_forall.
  split; intros H ans Hin.
  - apply list_elem_of_In, H in Hin. by destruct (strip ans).
  - apply list_elem_of_In, H in Hin. by destruct (strip ans).
Qed.

Ltac passive :=
  split; intros E; try discriminate E;
  injection E; clear E; intros E; vm_compute in E; discriminate E.

Lemma capture_loop_screen questions ws : forall i,
  appends screen passive (capture_loop i questions ws).
Proof.
  induction questions as [|q rest IH]; intros i; cbn [capture_loop].
  - apply appends_untouched, untouched_ret.
  - apply appends_bind; [apply st_screen; passive|intros _].
    apply appends_bind; [apply st_screen; passive|intros _].
    apply appends_bind; [apply appends_untouched, set_item_screen|intros _].
    apply IH.
Qed.

Lemma set_item_questions i x :
  untouched (fun w => session_state w !! "questions")
            (set_item "user_answers" i x).
Proof.
  intros w. unfold set_item, mbind, M_bind, get_state, set_state, lift.
  destruct (session_state w !! "user_answers") as [us|]; [|done].
  destruct (i <? length us); cbn; [|done].
  by rewrite lookup_insert_ne.
Qed.

Lemma capture_loop_questions questions ws : forall i,
  untouched (fun w => session_state w !! "questions")
            (capture_loop i questions ws).
Proof.
  induction questions as [|q rest IH]; intros i; cbn [capture_loop].
  - apply untouched_ret.
  - apply untouched_bind; [by intros w|intros _].
    apply untouched_bind; [by intros w|intros _].
    apply untouched_bind; [apply set_item_questions|intros _].
    apply IH.
Qed.

Lemma evaluate_handler_screen d :
  appends screen (fun _ => True) (evaluate_handler uni_lower qa_pipeline d).
Proof.
  unfold evaluate_handler.
  apply appends_bind; [by apply st_screen|intros _].
  apply appends_bind; [apply appends_untouched, untouched_get_state|intros qs].
  apply appends_bind; [apply appends_untouched, untouched_get_state|intros us].
  generalize 0 (zip qs us). intros i pairs. revert i.
  induction pairs as [|[q u] rest IH]; intros i; cbn [evaluate_loop].
  - apply appends_untouched, untouched_ret.
  - apply appends_bind; [apply appends_untouched, call_qa_screen|intros r].
    repeat (apply appends_bind; [|intros _]); try (by apply st_screen).
    + destruct (matches _ _ _); by apply st_screen.
    + apply IH.
Qed.

Lemma quiz_body_gated d ws : gated (quiz_body uni_lower qa_pipeline d ws).
Proof.
  intros w Hpassive.
  unfold quiz_body, mbind, M_bind, get_state, ret, mret, M_ret.
  destruct (session_state w !! "questions") as [[|q rest]|] eqn:Hq;
    cbn [fst snd].
  - (* no question *)
    apply passive_not_in in Hpassive as [HB HS]. split_and!; [done| |done].
    intros _ (qs & us & Hqs & _ & Hne & _). congruence.
  - (* questions *)
    pose proof (capture_loop_screen (q :: rest) ws 0 w) as (new & Hscreen & Hnew).
    pose proof (capture_loop_questions (q :: rest) ws 0 w) as Hkeep.
    cbn beta in Hkeep.
    destruct (capture_loop 0 (q :: rest) ws w) as [[[]|e] w2];
      cbn [fst snd] in *.
    2:{ assert (Hp2 : Forall passive (screen w2))
          by (rewrite Hscreen; by apply Forall_app).
        apply passive_not_in in Hp2 as [? ?]. by split_and!. }
    assert (Hp2 : Forall passive (screen w2))
      by (rewrite Hscreen; by apply Forall_app).
    rewrite Hq in Hkeep.
    destruct (session_state w2 !! "user_answers") as [us|] eqn:Hu;
      cbn [fst snd].
    2:{ apply passive_not_in in Hp2 as [? ?]. by split_and!. }
    destruct (all_answered us) eqn:Hall.
    + (* the gate is open *)
      assert (Hopen : gate_open (session_state w2)).
      { exists (q :: rest), us. split_and!; [done..|].
        by apply all_answered_Forall. }
      unfold st. cbv beta iota.
      set (w3 := {| session_state := session_state w2;
                    screen := screen w2 ++ [Button (py "Evaluate Answers")];
                    summarizer_calls := summarizer_calls w2;
                    qa_calls := qa_calls w2;
                    generator_calls := generator_calls w2 |}).
      destruct (evaluate_answers ws).
      * pose proof (evaluate_handler_session d w3) as Hsession.
        pose proof (evaluate_handler_screen d w3) as (new3 & Hscreen3 & _).
        rewrite Hsession. split_and!; [done| |done].
        intros _ _. rewrite Hscreen3. apply in_or_app. left.
        apply in_or_app. right. by left.
      * cbn [fst snd]. split_and!; [done| |done].
        intros _ _. apply in_or_app. right. by left.
    + (* an answer is missing *)
      cbn [fst snd]. apply passive_not_in in Hp2 as [HB HS].
      split_and!; [done| |done].
      intros _ (qs & us' & _ & Hus' & _ & Hans).
      rewrite Hu in Hus'. injection Hus' as <-.
      apply all_answered_Forall in Hans. congruence.
  - (* the quiz state is missing *)
    apply passive_not_in in Hpassive as [HB HS]. by split_and!.
Qed.

Lemma gated_bind {A} (m : M A) (k : A -> M unit) :
  appends screen passive m -> (forall x, gated (k x)) -> gated (m ≫= k).
Proof.
  intros Hm Hk w Hpassive. unfold mbind, M_bind.
  destruct (Hm w) as (new & Hscreen & Hnew).
  assert (Hp1 : Forall passive (screen (snd (m w))))
    by (rewrite Hscreen; by apply Forall_app).
  destruct (m w) as [[x|e] w1]; cbn [fst snd] in *.
  - by apply Hk.
  - apply passive_not_in in Hp1 as [? ?]. by split_and!.
Qed.

Lemma quiz_section_gated d ws :
  truthy d = true ->
  gated (quiz_section uni_lower qa_pipeline question_generator d ws).
Proof.
  intros Hd. unfold quiz_section. rewrite Hd.
  apply gated_bind; [apply st_screen; passive|intros _].
  apply gated_bind; [apply st_screen; passive|intros _].
  apply gated_bind; [|intros _].
  { unfold init_quiz. frame. }
  apply gated_bind; [apply st_screen; passive|intros _].
  apply gated_bind; [|intros _; apply quiz_body_gated].
  unfold generate_handler. frame.
Qed.


End ScriptFacts.

(** ** The statements at work *)


Lemma questions_and_answers_aligned_witness :
  aligned (session_state
             (snd (generate_handler demo_generator sky
                     (snd (init_quiz (start ∅)))))).
Proof.
  apply (proj1 (questions_and_answers_aligned no_unicode no_unicode same_case
                  no_extractor no_extractor demo_summarizer demo_qa
                  demo_generator)).
  apply (reach_step _ _ _ _ _ _ _ _ (Generate sky)).
  apply reach_init. reflexivity.
Defined.


Lemma unsupported_type_is_silent_witness :
  extract_file_text no_extractor no_extractor json_file = Ok [] /\
  page no_unicode no_unicode same_case no_extractor no_extractor
       demo_summarizer demo_qa demo_generator (Some json_file) idle (start ∅)
  = (Ok tt,
     {| session_state := ∅;
        screen := [Success (py "Document uploaded and text extracted successfully!")];
        summarizer_calls := []; qa_calls := []; generator_calls := [] |}).
Proof.
  apply (unsupported_type_is_silent no_unicode no_unicode same_case
           no_extractor no_extractor demo_summarizer demo_qa demo_generator
           json_file idle ∅).
  - intros E. vm_compute in E. discriminate E.
  - intros E. vm_compute in E. discriminate E.
Defined.

(** * Further properties of the script *)

(** ** The segments of the Chunker *)

Section SegmentFacts.
Import Textwrap TextwrapFacts.

Lemma removelast_solid (l : list pystr) : solid l -> solid (removelast l).
Proof.
  intros H. destruct (last l) as [x|] eqn:E.
  - apply last_Some in E as [l' ->]. rewrite removelast_last.
    by apply Forall_app in H as [? _].
  - by apply last_None in E as ->.
Qed.

(** What is left of a line after its trailing blank chunk is dropped has
    no empty chunk, provided the chunks before the last had none. *)
Lemma drop_trailing_blank_solid (l : list pystr) :
  solid (removelast l) -> solid (drop_trailing_blank l).
Proof.
  intros H. unfold drop_trailing_blank.
  destruct (last l) as [x|] eqn:E; [|by apply last_None in E as ->].
  destruct (blank x) eqn:Hb; [done|].
  apply last_Some in E as [l' ->]. rewrite removelast_last in H.
  apply Forall_app. split; [done|]. apply Forall_singleton.
  by intros ->.
Qed.

Lemma drop_trailing_blank_len (l : list pystr) :
  total_len (drop_trailing_blank l) <= total_len l.
Proof.
  unfold drop_trailing_blank.
  destruct (last l) as [x|] eqn:E; [|done].
  destruct (blank x); [|done].
  apply last_Some in E as [l' ->].
  rewrite removelast_last, total_len_app. lia.
Qed.

(** A line that is started is not empty and not longer than the width. *)
Lemma new_line_fits width (lines cur_line : list pystr) :
  Forall (fits width) lines ->
  solid (drop_trailing_blank cur_line) -> total_len cur_line <= width ->
  Forall (fits width)
         match drop_trailing_blank cur_line with
         | [] => lines
         | _ :: _ => lines ++ [join_empty (drop_trailing_blank cur_line)]
         end.
Proof.
  intros Hlines Hsolid Hlen.
  pose proof (drop_trailing_blank_len cur_line) as Hle.
  destruct (drop_trailing_blank cur_line) as [|c l] eqn:E; [done|].
  apply Forall_app. split; [done|]. apply Forall_singleton.
  unfold fits, join_empty. fold (total_len (c :: l)). split; [|lia].
  by apply solid_total_len.
Qed.

Lemma wrap_line_fits width first rest lines chunks' lines' :
  1 <= width -> solid (first :: rest) -> Forall (fits width) lines ->
  wrap_line width first rest lines = (chunks', lines') ->
  Forall (fits width) lines'.
Proof.
  intros Hw Hsolid Hlines. unfold wrap_line.
  set (chunks1 := if blank first && negb (bool_decide (lines = []))
                  then rest else first :: rest).
  assert (Hs1 : solid chunks1).
  { subst chunks1. destruct (blank first && _); [|done].
    by apply Forall_cons in Hsolid as [_ ?]. }
  clearbody chunks1.
  destruct (fill_line width chunks1 [] 0) as [[chunks2 cur_line] cur_len]
    eqn:Ef.
  apply fill_line_spec in Ef as (moved & -> & -> & -> & Hle & Hnext).
  simpl in *. specialize (Hle ltac:(lia)).
  apply Forall_app in Hs1 as [Hsm Hs2].
  destruct chunks2 as [|next r2].
  - intros [= <- <-]. apply new_line_fits; [done| |done].
    by apply drop_trailing_blank_solid, removelast_solid.
  - destruct (width <? length next) eqn:Hlong.
    + apply Nat.ltb_lt in Hlong.
      destruct (handle_long_word_spec next r2 moved (total_len moved) width)
        as (stop & -> & Hstop & _); [done..|].
      intros [= <- <-]. apply new_line_fits; [done| |].
      * apply drop_trailing_blank_solid. by rewrite removelast_last.
      * rewrite total_len_app, total_len_cons, length_take.
        unfold total_len at 2. simpl. lia.
    + intros [= <- <-]. apply new_line_fits; [done| |done].
      by apply drop_trailing_blank_solid, removelast_solid.
Qed.

Lemma wrap_loop_fits width fuel : forall chunks lines lines',
  1 <= width -> solid chunks -> Forall (fits width) lines ->
  wrap_loop fuel width chunks lines = Some lines' ->
  Forall (fits width) lines'.
Proof.
  induction fuel as [|fuel IH]; intros chunks lines lines' Hw Hsolid Hlines.
  - destruct chunks; simpl; [by intros [= <-] | done].
  - destruct chunks as [|first rest]; [by intros [= <-]|].
    cbn [wrap_loop].
    destruct (wrap_line width first rest lines) as [chunks1 lines1] eqn:E.
    pose proof (wrap_line_fits _ _ _ _ _ _ Hw Hsolid Hlines E) as Hfits.
    apply wrap_line_spec in E as (Hs1 & _ & _); [|done..].
    by apply IH.
Qed.

(** *** The characters of the lines are characters of the chunks *)

Section Chars.
Variable P : N -> Prop.

Lemma drop_trailing_blank_chars (l : list pystr) :
  Forall (Forall P) l -> Forall (Forall P) (drop_trailing_blank l).
Proof.
  intros H. unfold drop_trailing_blank.
  destruct (last l) as [x|] eqn:E; [|done].
  destruct (blank x); [|done].
  apply last_Some in E as [l' ->]. rewrite removelast_last.
  by apply Forall_app in H as [? _].
Qed.

Lemma new_line_chars (lines cur_line : list pystr) :
  Forall (Forall P) lines -> Forall (Forall P) cur_line ->
  Forall (Forall P)
         match drop_trailing_blank cur_line with
         | [] => lines
         | _ :: _ => lines ++ [join_empty (drop_trailing_blank cur_line)]
         end.
Proof.
  intros Hlines Hcur. apply drop_trailing_blank_chars in Hcur.
  destruct (drop_trailing_blank cur_line) as [|c l]; [done|].
  apply Forall_app. split; [done|]. apply Forall_singleton.
  unfold join_empty. by apply Forall_concat.
Qed.

Lemma wrap_line_chars width first rest lines chunks' lines' :
  Forall (Forall P) (first :: rest) -> Forall (Forall P) lines ->
  wrap_line width first rest lines = (chunks', lines') ->
  Forall (Forall P) chunks' /\ Forall (Forall P) lines'.
Proof.
  intros Hchunks Hlines. unfold wrap_line.
  set (chunks1 := if blank first && negb (bool_decide (lines = []))
                  then rest else first :: rest).
  assert (H1 : Forall (Forall P) chunks1).
  { subst chunks1. destruct (blank first && _); [|done].
    by apply Forall_cons in Hchunks as [_ ?]. }
  clearbody chunks1.
  destruct (fill_line width chunks1 [] 0) as [[chunks2 cur_line] cur_len]
    eqn:Ef.
  apply fill_line_spec in Ef as (moved & -> & -> & _).
  apply Forall_app in H1 as [Hmoved H2]. cbn [app].
  destruct chunks2 as [|next r2].
  - intros [= <- <-]. split; [done|]. by apply new_line_chars.
  - destruct (width <? length next).
    + unfold handle_long_word, slice_from, slice_to.
      match goal with
      | |- context [drop ?n next] => generalize n; intros stop
      end.
      apply Forall_cons in H2 as [Hnext Hr2].
      intros [= <- <-]. split.
      * apply Forall_cons. split; [by apply Forall_drop|done].
      * apply new_line_chars; [done|]. apply Forall_app. split; [done|].
        apply Forall_singleton. by apply Forall_take.
    + intros [= <- <-]. split; [done|]. by apply new_line_chars.
Qed.

Lemma wrap_loop_chars width fuel : forall chunks lines lines',
  Forall (Forall P) chunks -> Forall (Forall P) lines ->
  wrap_loop fuel width chunks lines = Some lines' ->
  Forall (Forall P) lines'.
Proof.
  induction fuel as [|fuel IH]; intros chunks lines lines' Hchunks Hlines.
  - destruct chunks; simpl; [by intros [= <-] | done].
  - destruct chunks as [|first rest]; [by intros [= <-]|].
    cbn [wrap_loop].
    destruct (wrap_line width first rest lines) as [chunks1 lines1] eqn:E.
    apply wrap_line_chars in E as [H1 H2]; [|done..].
    by apply IH.
Qed.
End Chars.

Lemma munge_whitespace_plain (text : pystr) :
  Forall (fun c => negb (is_whitespace c) || (c =? Chr.sp)%N = true)
         (munge_whitespace text).
Proof.
  unfold munge_whitespace, translate_whitespace.
  apply List.Forall_map. apply Forall_forall. intros c _.
  destruct (is_whitespace c) eqn:E; [done|]. by rewrite E.
Qed.

Variables uni_alnum uni_decimal : N -> bool.

(** Every line that [wrap] returns fits the width. *)
Lemma wrap_fits (text : pystr) (width : nat) (lines : list pystr) :
  wrap uni_alnum uni_decimal text width = Ok lines ->
  Forall (fits width) lines.
Proof.
  unfold wrap, wrap_chunks.
  destruct (split_chunks_spec uni_alnum uni_decimal text)
    as (chunks & -> & Hsolid & _).
  destruct (width <=? 0) eqn:E; [done|]. apply Nat.leb_gt in E.
  destruct (wrap_loop (total_len chunks) width chunks []) as [lines'|]
    eqn:Hloop; [|done].
  intros [= <-].
  eapply (wrap_loop_fits width); [lia | exact Hsolid | constructor | exact Hloop].
Qed.

(** For a positive maximum the Chunker returns. *)
Lemma split_text_returns (text : pystr) (max_chars : nat) :
  1 <= max_chars ->
  exists segments, split_text uni_alnum uni_decimal text max_chars = Ok segments.
Proof.
  intros Hw. unfold split_text, wrap, wrap_chunks.
  destruct (split_chunks_spec uni_alnum uni_decimal text)
    as (chunks & -> & Hsolid & _).
  destruct (max_chars <=? 0) eqn:E; [apply Nat.leb_le in E; lia|].
  destruct (wrap_loop_spec max_chars (total_len chunks) chunks [])
    as (lines & -> & _); [done..|]. by exists lines.
Qed.

(** X1.  Whatever the text, every segment that [split_text] returns is
    non-empty and at most [max_chars] characters long: words longer than
    the maximum are cut, never passed on whole. *)
Theorem split_text_segments_fit (text : pystr) (max_chars : nat)
    (segments : list pystr) :
  split_text uni_alnum uni_decimal text max_chars = Ok segments ->
  Forall (fun segment => 1 <= length segment <= max_chars) segments.
Proof.
  unfold split_text. intros Hwrap.
  assert (Hpos : 1 <= max_chars).
  { destruct max_chars; [|lia]. unfold wrap, wrap_chunks in Hwrap.
    by destruct (split_chunks uni_alnum uni_decimal text). }
  apply wrap_fits in Hwrap.
  induction Hwrap as [|segment rest [Hlo Hhi] _ IH]; constructor; auto.
Qed.

(** X2.  No segment holds a tab, a line break, a vertical tab or a form
    feed: of the whitespace of [textwrap] only the space is left in what
    [split_text] returns. *)
Theorem split_text_segments_plain (text : pystr) (max_chars : nat)
    (segments : list pystr) :
  split_text uni_alnum uni_decimal text max_chars = Ok segments ->
  Forall (fun segment => plain segment = true) segments.
Proof.
  unfold split_text, wrap, wrap_chunks.
  destruct (split_chunks_spec uni_alnum uni_decimal text)
    as (chunks & -> & _ & Hconcat).
  destruct (max_chars <=? 0); [done|].
  destruct (wrap_loop (total_len chunks) max_chars chunks []) as [lines|]
    eqn:Hloop; [|done].
  intros [= <-].
  pose proof (munge_whitespace_plain text) as Hplain.
  rewrite <- Hconcat in Hplain. apply Forall_concat in Hplain.
  eapply wrap_loop_chars in Hloop; [|exact Hplain|constructor].
  eapply Forall_impl; [exact Hloop|]. intros segment Hseg.
  unfold plain. apply forallb_forall. intros c Hc.
  rewrite Forall_forall in Hseg. by apply Hseg, list_elem_of_In.
Qed.

(** X3.  For every positive maximum, not only for 1000, [split_text]
    returns, and its segments, concatenated, are the text once whitespace
    is left out of both. *)
Theorem split_text_any_width (text : pystr) (max_chars : nat) :
  1 <= max_chars ->
  exists segments,
    split_text uni_alnum uni_decimal text max_chars = Ok segments /\
    erase_space (join_empty segments) = erase_space text.
Proof.
  intros Hw. unfold split_text, wrap, wrap_chunks.
  destruct (split_chunks_spec uni_alnum uni_decimal text)
    as (chunks & -> & Hsolid & Hconcat).
  destruct (max_chars <=? 0) eqn:E; [apply Nat.leb_le in E; lia|].
  destruct (wrap_loop_spec max_chars (total_len chunks) chunks [])
    as (lines & -> & He); [done..|].
  exists lines. split; [done|].
  unfold join_empty. rewrite He, Hconcat. simpl. apply erase_munge.
Qed.

(** X4.  A maximum of zero is refused: [split_text] raises [ValueError]
    for every text, the empty one included. *)
Theorem split_text_zero_width (text : pystr) :
  split_text uni_alnum uni_decimal text 0 = Raise ValueError.
Proof.
  unfold split_text, wrap, wrap_chunks.
  by destruct (split_chunks_spec uni_alnum uni_decimal text)
    as (chunks & -> & _).
Qed.

End SegmentFacts.

Lemma split_text_segments_fit_witness :
  Forall (fun segment => 1 <= length segment <= 10)
         [py "The sky is"; py "blue."; py "Water is"; py "wet."].
Proof.
  apply (split_text_segments_fit no_unicode no_unicode sky 10).
  vm_compute. reflexivity.
Defined.

(** ** A document of whitespace *)

Section BlankText.
Import Re Textwrap TextwrapFacts.
Variables uni_alnum uni_decimal : N -> bool.

Lemma rep_greedy_all {A} (p : N -> bool) (a : list N) : forall lo b
    (k : list N -> list N -> option A) x,
  forallb p a = true -> lo <= length a ->
  k (rev a ++ b) [] = Some x -> rep_greedy p lo b a k = Some x.
Proof.
  induction a as [|c a IH]; intros lo b k x Hall Hlo Hk; simpl in *.
  - by replace lo with 0 by lia.
  - apply andb_prop in Hall as [-> Hall].
    rewrite (IH (pred lo) (c :: b) k x); [done | done | lia |].
    by rewrite <- app_assoc in Hk.
Qed.

(** At the end of the text the pattern of [textwrap] matches nothing. *)
Lemma wordsep_no_match_at_end b :
  match_here (wordsep_re uni_alnum uni_decimal) false b [] = None.
Proof.
  unfold match_here, wordsep_re. cbn [match_re rep_greedy rep_lazy pred].
  destruct (length b <? 1); [done|].
  by repeat case_match.
Qed.

(** A run of whitespace is one chunk. *)
Lemma split_words_whitespace (a : pystr) :
  forallb is_whitespace a = true ->
  split_words uni_alnum uni_decimal a
  = Some match a with [] => [] | _ :: _ => [a] end.
Proof.
  intros Hall. unfold split_words, Re.split.
  destruct a as [|c a]; [done|].
  set (run := c :: a) in *.
  assert (Hhere : match_here (wordsep_re uni_alnum uni_decimal) false [] run
                  = Some (rev run ++ [], [])).
  { unfold match_here, wordsep_re. cbn [match_re].
    erewrite rep_greedy_all; [done | done | simpl; lia | done]. }
  replace (2 * length run + 1) with (S (2 * length run)) by lia.
  cbn [split_loop].
  assert (Hsearch : search (wordsep_re uni_alnum uni_decimal) false [] run []
                    = Some ([], run, (rev run ++ [], []))).
  { subst run. cbn [search]. rewrite Hhere. cbn [rev length].
    by rewrite Nat.sub_0_r, take_ge by (simpl; lia). }
  rewrite Hsearch.
  replace (split_loop (2 * length run) (wordsep_re uni_alnum uni_decimal)
             (negb (truthy run)) (rev run ++ []) [])
    with (Some [[] : pystr]); [done|].
  destruct (2 * length run); cbn [split_loop search];
    by rewrite wordsep_no_match_at_end.
Qed.

Lemma expandtabs_whitespace tabsize text : forall line_pos,
  forallb is_whitespace text = true ->
  forallb is_whitespace (expandtabs_from tabsize line_pos text) = true.
Proof.
  induction text as [|c s IH]; intros line_pos; simpl; [done|].
  intros [Hc Hs]%andb_prop.
  destruct (c =? Chr.tab)%N.
  - destruct (0 <? tabsize); [|by apply IH].
    rewrite forallb_app, IH, andb_true_r by done.
    by induction (tabsize - line_pos mod tabsize) as [|n IHn].
  - simpl. by rewrite Hc, IH.
Qed.

Lemma munge_whitespace_all text :
  forallb is_whitespace text = true ->
  forallb is_whitespace (munge_whitespace text) = true.
Proof.
  intros H. unfold munge_whitespace, translate_whitespace, expandtabs.
  pose proof (expandtabs_whitespace 8 text 0 H) as H8.
  induction (expandtabs_from 8 0 text) as [|c s IH]; simpl in *; [done|].
  apply andb_prop in H8 as [-> Hs]. by rewrite IH.
Qed.

Lemma forallb_isspace_whitespace (s : pystr) :
  forallb is_whitespace s = true -> forallb isspace s = true.
Proof.
  induction s as [|c s IH]; simpl; [done|].
  intros [Hc Hs]%andb_prop. by rewrite (is_whitespace_isspace _ Hc), IH.
Qed.

Lemma blank_all_space (s : pystr) : forallb isspace s = true -> blank s = true.
Proof.
  intros H. unfold blank. by apply strip_nil_iff in H as ->.
Qed.

(** A single chunk of whitespace at the start of the text leaves no line,
    however long it is. *)
Lemma wrap_loop_blank width fuel : forall (chunk : pystr),
  1 <= width -> chunk <> [] -> forallb isspace chunk = true ->
  length chunk <= fuel ->
  wrap_loop fuel width [chunk] [] = Some [].
Proof.
  induction fuel as [|fuel IH]; intros chunk Hw Hne Hall Hfuel.
  - destruct chunk; [done | simpl in Hfuel; lia].
  - cbn [wrap_loop]. unfold wrap_line.
    replace (blank chunk && negb (bool_decide ([] = [])))
      with false by (by rewrite andb_false_r).
    cbn [fill_line]. rewrite Nat.add_0_l.
    destruct (length chunk <=? width) eqn:Hfit.
    + cbn [fill_line app]. unfold drop_trailing_blank. cbn [last].
      rewrite (blank_all_space _ Hall). cbn [removelast].
      by destruct fuel.
    + apply Nat.leb_gt in Hfit.
      replace (width <? length chunk) with true
        by (symmetry; by apply Nat.ltb_lt).
      destruct (handle_long_word_spec chunk [] [] 0 width)
        as (stop & -> & Hstop & Hstop1); [lia..|].
      specialize (Hstop1 ltac:(lia)).
      cbn [app]. unfold drop_trailing_blank. cbn [last].
      assert (Htake : forallb isspace (take stop chunk) = true).
      { rewrite <- (take_drop stop chunk), forallb_app in Hall.
        by apply andb_prop in Hall as [? _]. }
      assert (Hdrop : forallb isspace (drop stop chunk) = true).
      { rewrite <- (take_drop stop chunk), forallb_app in Hall.
        by apply andb_prop in Hall as [_ ?]. }
      rewrite (blank_all_space _ Htake). cbn [removelast].
      apply IH; [done | | done |].
      * intros E. apply (f_equal length) in E. rewrite length_drop in E.
        simpl in E. lia.
      * rewrite length_drop. lia.
Qed.

Lemma wrap_blank (text : pystr) (width : nat) :
  1 <= width ->
  forallb is_whitespace text = true ->
  wrap uni_alnum uni_decimal text width = Ok [].
Proof.
  intros Hw Hall. unfold wrap, wrap_chunks, split_chunks.
  rewrite (split_words_whitespace _ (munge_whitespace_all _ Hall)).
  destruct (width <=? 0) eqn:E; [apply Nat.leb_le in E; lia|]. clear E.
  pose proof (forallb_isspace_whitespace _ (munge_whitespace_all _ Hall))
    as Hspace.
  destruct (munge_whitespace text) as [|c s] eqn:Hm; [done|].
  rewrite (wrap_loop_blank width); [done | done | done | done |].
  unfold total_len. simpl. rewrite app_nil_r. done.
Qed.

(** X5.  A text made only of spaces, tabs, newlines and the other ASCII
    whitespace yields no segment at all, whatever its length. *)
Theorem split_text_blank (text : pystr) (max_chars : nat) :
  1 <= max_chars ->
  (forall c, In c text -> In c [9; 10; 11; 12; 13; 32]%N) ->
  split_text uni_alnum uni_decimal text max_chars = Ok [].
Proof.
  intros Hw Hall. unfold split_text. apply wrap_blank; [done|].
  apply forallb_forall. intros c Hc. apply Hall in Hc.
  simpl in Hc. by destruct Hc as [<-|[<-|[<-|[<-|[<-|[<-|[]]]]]]].
Qed.

End BlankText.

Lemma split_text_blank_witness :
  split_text no_unicode no_unicode
             [Chr.sp; Chr.tab; Chr.nl; Chr.sp; Chr.cr; Chr.nl] 1000
  = Ok [].
Proof.
  apply split_text_blank; [lia|].
  intros c Hc. simpl in *. unfold Chr.sp, Chr.tab, Chr.nl, Chr.cr in Hc.
  tauto.
Defined.

(** ** Calls and failures of the pipelines *)

Section Adds.
Context {C : Type}.
Implicit Types proj : world -> list C.

Lemma adds_untouched {A} proj (P : list C -> Prop) (m : M A) :
  P [] -> untouched proj m -> adds proj P m.
Proof. intros HP H w. exists []. by rewrite H, app_nil_r. Qed.

(** Calls made after a part of the run that makes none. *)
Lemma adds_after {A B} proj P (m : M A) (f : A -> M B) :
  P [] -> untouched proj m -> (forall x, adds proj P (f x)) ->
  adds proj P (m ≫= f).
Proof.
  intros HP Hm Hf w. unfold mbind, M_bind. specialize (Hm w).
  destruct (m w) as [[x|e] w1]; simpl in *.
  - destruct (Hf x w1) as (new & E & Hnew). exists new. by rewrite E, Hm.
  - exists []. by rewrite Hm, app_nil_r.
Qed.

(** Calls made after a part of the run that makes none and returns. *)
Lemma adds_after_ok {A B} proj P (m : M A) (f : A -> M B) :
  untouched proj m -> (forall w, exists x, fst (m w) = Ok x) ->
  (forall x, adds proj P (f x)) ->
  adds proj P (m ≫= f).
Proof.
  intros Hm Hok Hf w. unfold mbind, M_bind. specialize (Hm w).
  destruct (Hok w) as (x0 & Hx0).
  destruct (m w) as [[x|e] w1]; simpl in *; [|done].
  destruct (Hf x w1) as (new & E & Hnew). exists new. by rewrite E, Hm.
Qed.

(** Calls made before a part of the run that makes none. *)
Lemma adds_before {A B} proj P (m : M A) (f : A -> M B) :
  adds proj P m -> (forall x, untouched proj (f x)) ->
  adds proj P (m ≫= f).
Proof.
  intros Hm Hf w. unfold mbind, M_bind.
  destruct (Hm w) as (new & E & Hnew).
  destruct (m w) as [[x|e] w1]; simpl in *; [|eauto].
  exists new. by rewrite Hf.
Qed.
End Adds.

(** A page element is rendered, and the run goes on. *)
Lemma st_bind_eq {B} (e : element) (f : unit -> M B) (w : world) :
  (st e ≫= f) w
  = f tt {| session_state := session_state w; screen := screen w ++ [e];
            summarizer_calls := summarizer_calls w; qa_calls := qa_calls w;
            generator_calls := generator_calls w |}.
Proof. reflexivity. Qed.

Section PipelineFacts.
Variables uni_alnum uni_decimal : N -> bool.
Variable uni_lower : pystr -> pystr.
Variable extract_text : list Byte.byte -> res pystr.
Variable decode_utf8 : list Byte.byte -> res pystr.
Variable summarizer : pystr -> res pystr.
Variable qa_pipeline : pystr -> pystr -> res (pystr * PyFloat.float).
Variable question_generator : pystr -> res pystr.

Abbreviation this_page :=
  (page uni_alnum uni_decimal uni_lower extract_text decode_utf8 summarizer
        qa_pipeline question_generator).
Abbreviation this_quiz :=
  (quiz_section uni_lower qa_pipeline question_generator).

(** *** What each operation leaves alone *)

Lemma st_generator_calls e : untouched generator_calls (st e).
Proof. by intros w. Qed.

Lemma set_state_summarizer_calls key v :
  untouched summarizer_calls (set_state key v).
Proof. by intros w. Qed.

Lemma set_state_generator_calls key v :
  untouched generator_calls (set_state key v).
Proof. by intros w. Qed.

Lemma set_item_untouched {B} (proj : world -> B) key i x :
  (forall v, untouched proj (set_state key v)) ->
  untouched proj (set_item key i x).
Proof.
  intros H. apply untouched_bind; [apply untouched_get_state|].
  intros items. destruct (i <? length items); [apply H | apply untouched_lift].
Qed.

Lemma call_qa_summarizer_calls q c :
  untouched summarizer_calls (call_qa qa_pipeline q c).
Proof. by intros w. Qed.

Lemma call_qa_generator_calls q c :
  untouched generator_calls (call_qa qa_pipeline q c).
Proof. by intros w. Qed.

Lemma call_generator_summarizer_calls p :
  untouched summarizer_calls (call_generator question_generator p).
Proof. by intros w. Qed.

Lemma call_summarizer_generator_calls c :
  untouched generator_calls (call_summarizer summarizer c).
Proof. by intros w. Qed.

Lemma call_generator_session p :
  untouched session_state (call_generator question_generator p).
Proof. by intros w. Qed.

Hint Resolve st_generator_calls set_state_summarizer_calls
  set_state_generator_calls call_qa_summarizer_calls call_qa_generator_calls
  call_generator_summarizer_calls call_summarizer_generator_calls
  call_generator_session call_qa_session call_qa_screen
  call_summarizer_qa_calls call_generator_qa_calls call_generator_screen
  call_summarizer_session summary_loop_session summary_loop_qa_calls
  capture_loop_qa_calls evaluate_loop_session : frame.

Lemma capture_loop_untouched {B} (proj : world -> B) questions ws :
  (forall e, untouched proj (st e)) ->
  (forall v, untouched proj (set_state "user_answers" v)) ->
  forall i, untouched proj (capture_loop i questions ws).
Proof.
  intros Hst Hset.
  induction questions as [|q rest IH]; intros i; cbn [capture_loop].
  - apply untouched_ret.
  - apply untouched_bind; [apply Hst|intros _].
    apply untouched_bind; [apply Hst|intros _].
    apply untouched_bind; [by apply set_item_untouched|intros _].
    apply IH.
Qed.

Lemma evaluate_loop_untouched {B} (proj : world -> B) pairs d :
  (forall e, untouched proj (st e)) ->
  (forall q c, untouched proj (call_qa qa_pipeline q c)) ->
  forall i, untouched proj (evaluate_loop uni_lower qa_pipeline i pairs d).
Proof.
  intros Hst Hqa.
  induction pairs as [|[q u] rest IH]; intros i; cbn [evaluate_loop].
  - apply untouched_ret.
  - apply untouched_bind; [apply Hqa|intros r].
    repeat (apply untouched_bind; [|intros _]); try apply Hst.
    + destruct (matches _ _ _); apply Hst.
    + apply IH.
Qed.

Lemma ask_section_untouched {B} (proj : world -> B) d ws :
  (forall e, untouched proj (st e)) ->
  (forall q c, untouched proj (call_qa qa_pipeline q c)) ->
  untouched proj (ask_section qa_pipeline d ws).
Proof.
  intros Hst Hqa. unfold ask_section. destruct (truthy d); [|apply untouched_ret].
  repeat (apply untouched_bind; [|intros ?]); try apply Hst.
  destruct (get_answer ws && _); [|apply untouched_ret].
  repeat (apply untouched_bind; [|intros ?]); try apply Hst. apply Hqa.
Qed.

Lemma init_quiz_untouched {B} (proj : world -> B) :
  (forall k v, untouched proj (set_state k v)) ->
  untouched proj init_quiz.
Proof.
  intros Hset. unfold init_quiz.
  apply untouched_bind; [apply untouched_has_state|].
  intros []; [apply untouched_ret|].
  apply untouched_bind; [apply Hset|intros _; apply Hset].
Qed.

Lemma init_quiz_returns w : exists x, fst (init_quiz w) = Ok x.
Proof.
  unfold init_quiz, mbind, M_bind, has_state.
  destruct (bool_decide _); by eexists.
Qed.

Lemma quiz_body_untouched {B} (proj : world -> B) d ws :
  (forall e, untouched proj (st e)) ->
  (forall v, untouched proj (set_state "user_answers" v)) ->
  (evaluate_answers ws = true ->
   forall q c, untouched proj (call_qa qa_pipeline q c)) ->
  untouched proj (quiz_body uni_lower qa_pipeline d ws).
Proof.
  intros Hst Hset Hqa. unfold quiz_body.
  apply untouched_bind; [apply untouched_get_state|intros [|q qs]];
    [apply untouched_ret|].
  apply untouched_bind; [by apply capture_loop_untouched|intros _].
  apply untouched_bind; [apply untouched_get_state|intros us].
  destruct (all_answered us); [|apply untouched_ret].
  apply untouched_bind; [apply Hst|intros _].
  destruct (evaluate_answers ws); [|apply untouched_ret].
  unfold evaluate_handler.
  apply untouched_bind; [apply Hst|intros _].
  apply untouched_bind; [apply untouched_get_state|intros qs'].
  apply untouched_bind; [apply untouched_get_state|intros us'].
  apply evaluate_loop_untouched; auto.
Qed.

Lemma quiz_section_untouched {B} (proj : world -> B) d ws :
  (forall e, untouched proj (st e)) ->
  (forall k v, untouched proj (set_state k v)) ->
  (forall q c, untouched proj (call_qa qa_pipeline q c)) ->
  (forall p, untouched proj (call_generator question_generator p)) ->
  untouched proj (this_quiz d ws).
Proof.
  intros Hst Hset Hqa Hgen. unfold quiz_section.
  destruct (truthy d); [|apply untouched_ret].
  apply untouched_bind; [apply Hst|intros _].
  apply untouched_bind; [apply Hst|intros _].
  apply untouched_bind; [|intros _].
  { unfold init_quiz. apply untouched_bind; [apply untouched_has_state|].
    intros [|]; [apply untouched_ret|].
    apply untouched_bind; [apply Hset|intros _; apply Hset]. }
  apply untouched_bind; [apply Hst|intros _].
  apply untouched_bind; [|intros _].
  { destruct (generate_questions ws); [|apply untouched_ret].
    unfold generate_handler.
    apply untouched_bind; [apply Hgen|intros out].
    apply untouched_bind; [apply Hset|intros _].
    apply untouched_bind; [apply untouched_get_state|intros qs]. apply Hset. }
  apply quiz_body_untouched; auto.
Qed.

(** *** The summariser *)

Lemma summary_loop_calls chunks : forall i combined w,
  exists k,
    summarizer_calls (snd (summary_loop summarizer i chunks combined w))
    = summarizer_calls w ++ take k chunks.
Proof.
  induction chunks as [|chunk rest IH]; intros i combined w.
  - exists 0. simpl. by rewrite app_nil_r.
  - cbn [summary_loop]. unfold mbind, M_bind, call_summarizer.
    destruct (summarizer chunk) as [summary|e].
    + edestruct IH as (k & ->). exists (S k). cbn.
      by rewrite <- app_assoc.
    + by exists 1.
Qed.

Lemma summary_section_calls d :
  adds summarizer_calls
       (fun calls => length calls <= 5 /\ Forall (fits 1000) calls)
       (summary_section uni_alnum uni_decimal summarizer d).
Proof.
  assert (Hnil : length (@nil pystr) <= 5 /\ Forall (fits 1000) (@nil pystr))
    by (split; [simpl; lia | constructor]).
  unfold summary_section. destruct (truthy d);
    [|by apply adds_untouched; [|apply untouched_ret]].
  apply adds_after; [done | apply st_summarizer_calls | intros _].
  apply adds_after; [done | apply st_summarizer_calls | intros _].
  intros w. unfold mbind at 1, M_bind at 1, lift.
  destruct (split_text uni_alnum uni_decimal d 1000) as [chunks|e] eqn:Hsplit.
  2:{ exists []. by rewrite app_nil_r. }
  unfold split_text in Hsplit. apply wrap_fits in Hsplit.
  unfold mbind, M_bind.
  destruct (summary_loop_calls (slice_to 5 chunks) 0 [] w) as (k & Hk).
  exists (take k (slice_to 5 chunks)).
  split.
  - destruct (summary_loop summarizer 0 (slice_to 5 chunks) [] w)
      as [[combined|e] w1]; simpl in *; by rewrite <- Hk.
  - unfold slice_to. split.
    + rewrite !length_take. lia.
    + by do 2 apply Forall_take.
Qed.

(** X6.  In a run of the page, returning or not, the summariser is called
    at most five times, and never on an empty chunk or on one of more than
    1000 characters. *)
Theorem summarizer_inputs_bounded (uploaded : option uploaded_file)
    (ws : widgets) (w : world) :
  exists calls,
    summarizer_calls (snd (this_page uploaded ws w))
    = summarizer_calls w ++ calls /\
    length calls <= 5 /\
    Forall (fun chunk => 1 <= length chunk <= 1000) calls.
Proof.
  assert (Hadds : adds summarizer_calls
            (fun calls => length calls <= 5 /\ Forall (fits 1000) calls)
            (this_page uploaded ws)).
  { unfold page. apply adds_after.
    - split; [simpl; lia | constructor].
    - unfold upload_section. destruct uploaded; frame.
    - intros d. apply adds_before; [apply summary_section_calls|intros _].
      apply untouched_bind; [|intros _].
      + apply ask_section_untouched; auto with frame.
      + apply quiz_section_untouched; auto with frame. }
  destruct (Hadds w) as (calls & E & Hlen & Hfits).
  exists calls. split_and!; [done..|].
  eapply Forall_impl; [exact Hfits|]. by intros chunk [? ?].
Qed.

Lemma summary_loop_raise pre : forall sums c post e i combined w,
  Forall2 (fun chunk summary => summarizer chunk = Ok summary) pre sums ->
  summarizer c = Raise e ->
  summary_loop summarizer i (pre ++ c :: post) combined w
  = (Raise e,
     {| session_state := session_state w; screen := screen w;
        summarizer_calls := summarizer_calls w ++ pre ++ [c];
        qa_calls := qa_calls w; generator_calls := generator_calls w |}).
Proof.
  induction pre as [|chunk pre IH]; intros sums c post e i combined w Hok Hc.
  - cbn [app summary_loop]. unfold mbind, M_bind, call_summarizer.
    by rewrite Hc.
  - apply Forall2_cons_inv_l in Hok as (s & sums' & Hs & Hok & ->).
    cbn [app summary_loop]. unfold mbind, M_bind, call_summarizer.
    rewrite Hs, (IH _ _ _ _ _ _ _ Hok Hc). cbn. by rewrite <- app_assoc.
Qed.

(** X7.  When the summariser raises on one of the first five chunks, the
    run of the page ends there with that exception: the chunks up to the
    failing one have been sent, no summary is written, the question box
    and the quiz are not rendered, and the quiz state is not touched. *)
Theorem summarizer_failure_stops_run (file : uploaded_file) (ws : widgets)
    (session : gmap string (list pystr)) (d : pystr)
    (chunks pre post sums : list pystr) (c : pystr) (e : exn) :
  extract_file_text extract_text decode_utf8 file = Ok d ->
  truthy d = true ->
  split_text uni_alnum uni_decimal d 1000 = Ok chunks ->
  take 5 chunks = pre ++ c :: post ->
  Forall2 (fun chunk summary => summarizer chunk = Ok summary) pre sums ->
  summarizer c = Raise e ->
  this_page (Some file) ws (start session)
  = (Raise e,
     {| session_state := session;
        screen := [Success (py "Document uploaded and text extracted successfully!");
                   Subheader (py "Auto-Generated Summary");
                   Info (py "Summarizing the main points of your uploaded document...")];
        summarizer_calls := pre ++ [c];
        qa_calls := []; generator_calls := [] |}).
Proof.
  intros Hd Htruthy Hsplit Htake Hok Hc.
  unfold page, upload_section, mbind, M_bind, lift. rewrite Hd.
  unfold st at 1, ret, mret, M_ret.
  cbn [start session_state screen summarizer_calls qa_calls generator_calls
       app].
  unfold summary_section. rewrite Htruthy.
  unfold mbind, M_bind, st, lift. rewrite Hsplit.
  unfold slice_to. rewrite Htake.
  by erewrite summary_loop_raise.
Qed.

(** X8.  A document that is not empty but holds only ASCII whitespace is
    summarised without a single call to the summariser: the section is
    rendered with an empty summary. *)
Theorem blank_document_summary (d : pystr)
    (session : gmap string (list pystr)) :
  d <> [] ->
  (forall c, In c d -> In c [9; 10; 11; 12; 13; 32]%N) ->
  summary_section uni_alnum uni_decimal summarizer d (start session)
  = (Ok tt,
     {| session_state := session;
        screen := [Subheader (py "Auto-Generated Summary");
                   Info (py "Summarizing the main points of your uploaded document...");
                   Write [];
                   Markdown (py "---")];
        summarizer_calls := []; qa_calls := []; generator_calls := [] |}).
Proof.
  intros Hne Hall. unfold summary_section.
  destruct d as [|c0 d0]; [done|]. cbn [truthy].
  unfold split_text. rewrite wrap_blank; [done | lia |].
  apply forallb_forall. intros c Hc. apply Hall in Hc.
  simpl in Hc. by destruct Hc as [<-|[<-|[<-|[<-|[<-|[<-|[]]]]]]].
Qed.

(** *** The upload *)

(** X9.  When the extraction of the uploaded file raises, in the PDF
    extractor for a PDF or in the UTF-8 decoder for a plain text, the run
    of the page ends with that exception before anything is rendered: no
    message, no section, no pipeline call, the session state as it was. *)
Theorem extraction_failure_stops_run (file : uploaded_file) (ws : widgets)
    (session : gmap string (list pystr)) (e : exn) :
  (file_type file = py "application/pdf" /\
   extract_text (payload file) = Raise e) \/
  (file_type file = py "text/plain" /\
   decode_utf8 (payload file) = Raise e) ->
  this_page (Some file) ws (start session) = (Raise e, start session).
Proof.
  intros H.
  assert (E : extract_file_text extract_text decode_utf8 file = Raise e).
  { unfold extract_file_text. destruct H as [[Ht He]|[Ht He]].
    - by rewrite bool_decide_eq_true_2.
    - rewrite bool_decide_eq_false_2, bool_decide_eq_true_2; [done | done |].
      rewrite Ht. intros E'. vm_compute in E'. discriminate E'. }
  unfold page, upload_section, mbind, M_bind, lift. by rewrite E.
Qed.

(** X10.  Without text there are no sections.  When no file is uploaded,
    or the extraction of the uploaded file gives the empty text (an empty
    text file, a PDF without text), the run of the page returns having
    rendered at most the upload message: no summary, no question box, no
    quiz, no pipeline call, and the quiz state is not even initialised. *)
Theorem no_text_no_sections (uploaded : option uploaded_file) (ws : widgets)
    (w : world) :
  match uploaded with
  | Some file => extract_file_text extract_text decode_utf8 file = Ok []
  | None => True
  end ->
  this_page uploaded ws w
  = (Ok tt,
     {| session_state := session_state w;
        screen := screen w ++
                  match uploaded with
                  | Some _ =>
                    [Success (py "Document uploaded and text extracted successfully!")]
                  | None => []
                  end;
        summarizer_calls := summarizer_calls w;
        qa_calls := qa_calls w;
        generator_calls := generator_calls w |}).
Proof.
  destruct uploaded as [file|]; intros Hfile.
  - unfold page, upload_section, mbind, M_bind, lift. by rewrite Hfile.
  - rewrite app_nil_r. by destruct w.
Qed.

(** *** The question box *)

(** X11.  The question box calls the question-answering pipeline exactly
    when there is a document, the button is clicked and the question is not
    empty, then once, with the question as typed and the context; and it
    never touches the session state. *)
Theorem ask_section_calls (d : pystr) (ws : widgets) (w : world) :
  let run := ask_section qa_pipeline d ws w in
  qa_calls (snd run)
  = qa_calls w ++
    (if truthy d && get_answer ws && truthy (ask_your_question ws)
     then [(ask_your_question ws, context d)] else []) /\
  session_state (snd run) = session_state w.
Proof.
  cbn zeta. split_and!.
  - assert (Hadds : adds qa_calls
              (fun calls =>
                 calls = if truthy d && get_answer ws
                            && truthy (ask_your_question ws)
                         then [(ask_your_question ws, context d)] else [])
              (ask_section qa_pipeline d ws)).
    { unfold ask_section. destruct (truthy d); cbn [andb];
        [|by apply adds_untouched; [|apply untouched_ret]].
      do 5 (apply adds_after_ok; [apply st_qa_calls | by eexists | intros _]).
      apply adds_before; [|intros _; apply st_qa_calls].
      destruct (get_answer ws && truthy (ask_your_question ws)).
      - apply adds_after_ok; [apply st_qa_calls | by eexists | intros _].
        apply adds_before.
        + intros w0. by eexists.
        + intros answer. apply untouched_bind; [|intros _]; apply st_qa_calls.
      - by apply adds_untouched; [|apply untouched_ret]. }
    destruct (Hadds w) as (calls & -> & ->). reflexivity.
  - apply ask_section_untouched; auto with frame.
Qed.

(** X12.  A question typed and sent on a document is answered on the
    page: the pipeline is called once, with the question and the first
    2000 characters of the document, and the page shows the answer and,
    as confidence, the [repr] of [round(score * 100, 2)] followed by a
    percent sign. *)
Theorem question_is_answered (d : pystr) (ws : widgets) (w : world)
    (answer : pystr) (score : PyFloat.float) :
  truthy d = true ->
  get_answer ws = true ->
  truthy (ask_your_question ws) = true ->
  qa_pipeline (ask_your_question ws) (take 2000 d) = Ok (answer, score) ->
  ask_section qa_pipeline d ws w
  = (Ok tt,
     {| session_state := session_state w;
        screen := screen w ++
          [Subheader (py "Ask Anything About the Document");
           Markdown (py "Type a question to get an answer based strictly on the document.");
           Columns;
           TextInput (py "Ask your question") None;
           Button (py "Get Answer");
           Spinner (py "Searching for the answer...");
           Success (py "Answer: " ++ answer);
           Caption (py "Confidence Score: " ++
                    PyFloat.repr
                      (PyFloat.round (PyFloat.mul score (PyFloat.of_int 100))
                                     2) ++ py "%");
           Markdown (py "---")];
        summarizer_calls := summarizer_calls w;
        qa_calls := qa_calls w ++ [(ask_your_question ws, take 2000 d)];
        generator_calls := generator_calls w |}).
Proof.
  intros Hd Hclick Hq Hqa. unfold ask_section. rewrite Hd, Hclick, Hq.
  cbn [andb]. unfold context, slice_to.
  repeat (rewrite st_bind_eq;
          cbn [session_state screen summarizer_calls qa_calls
               generator_calls]).
  unfold mbind at 1, M_bind at 1. rewrite st_bind_eq.
  cbn [session_state screen summarizer_calls qa_calls generator_calls].
  unfold mbind at 1, M_bind at 1, call_qa. rewrite Hqa.
  cbn [session_state screen summarizer_calls qa_calls generator_calls
       fst snd].
  rewrite st_bind_eq.
  unfold st, confidence_caption, percent.
  cbn [session_state screen summarizer_calls qa_calls generator_calls
       fst snd].
  f_equal. f_equal. rewrite <- !app_assoc. reflexivity.
Qed.

(** *** The question generator *)

Lemma prompt_of_length d : length (prompt_of d) <= 1020.
Proof.
  unfold prompt_of, slice_to. rewrite length_app, length_take.
  change (length (py "generate questions: ")) with 20. lia.
Qed.

Lemma generate_handler_calls d :
  adds generator_calls (fun calls => calls = [prompt_of d])
       (generate_handler question_generator d).
Proof.
  unfold generate_handler. apply adds_before.
  - intros w. by exists [prompt_of d].
  - intros output. frame.
Qed.

(** X13.  In a run of the quiz section the question generator is called
    exactly when there is a document and "Generate Questions" is clicked,
    then once, on the fixed instruction followed by the first 1000
    characters of the document: a prompt of at most 1020 characters. *)
Theorem generator_called_on_click (d : pystr) (ws : widgets) (w : world) :
  generator_calls (snd (this_quiz d ws w))
  = generator_calls w ++
    (if truthy d && generate_questions ws
     then [py "generate questions: " ++ take 1000 d] else []) /\
  length (py "generate questions: " ++ take 1000 d) <= 1020.
Proof.
  split; [|apply prompt_of_length].
  assert (Hadds : adds generator_calls
            (fun calls => calls = if truthy d && generate_questions ws
                                  then [prompt_of d] else [])
            (this_quiz d ws)).
  { unfold quiz_section. destruct (truthy d); cbn [andb];
      [|by apply adds_untouched; [|apply untouched_ret]].
    apply adds_after_ok; [apply st_generator_calls | by eexists | intros _].
    apply adds_after_ok; [apply st_generator_calls | by eexists | intros _].
    apply adds_after_ok; [apply init_quiz_untouched; auto with frame
                         | apply init_quiz_returns | intros _].
    apply adds_after_ok; [apply st_generator_calls | by eexists | intros _].
    apply adds_before;
      [|intros _; apply quiz_body_untouched; auto with frame].
    destruct (generate_questions ws).
    - apply generate_handler_calls.
    - by apply adds_untouched; [|apply untouched_ret]. }
  destruct (Hadds w) as (calls & -> & ->). done.
Qed.

End PipelineFacts.

(** ** Trimmed strings and the lines of a text *)

Section TrimFacts.

Lemma lstrip_starts (s : pystr) : starts_solid (lstrip s).
Proof.
  induction s as [|c s IH]; simpl; [done|].
  destruct (isspace c) eqn:Hc; [done|]. simpl. by rewrite Hc.
Qed.

Lemma lstrip_fix (s : pystr) : starts_solid s -> lstrip s = s.
Proof. destruct s as [|c s]; simpl; [done|]. by intros ->. Qed.

Lemma starts_solid_prefix (r w : pystr) :
  starts_solid (r ++ w) -> starts_solid r.
Proof. by destruct r. Qed.

(** Trimming a trimmed string changes nothing. *)
Lemma strip_idem (s : pystr) : strip (strip s) = strip s.
Proof.
  unfold strip at 2 3. set (t := lstrip s).
  assert (Hstart : starts_solid (rstrip t)).
  { destruct (rstrip_prefix t) as (w & Ht & _).
    apply (starts_solid_prefix _ w). rewrite <- Ht. apply lstrip_starts. }
  unfold strip. rewrite (lstrip_fix _ Hstart).
  unfold rstrip. rewrite rev_involutive.
  by rewrite (lstrip_fix _ (lstrip_starts _)).
Qed.

(** What is left after trimming was there before. *)
Lemma strip_infix (s : pystr) :
  exists wl wr, s = wl ++ strip s ++ wr /\
    forallb isspace wl = true /\ forallb isspace wr = true.
Proof.
  destruct (lstrip_suffix s) as (wl & Hs & Hwl).
  destruct (rstrip_prefix (lstrip s)) as (wr & Hr & Hwr).
  exists wl, wr. unfold strip. by rewrite <- Hr.
Qed.

Lemma strip_In (c : N) (s : pystr) : In c (strip s) -> In c s.
Proof.
  intros H. destruct (strip_infix s) as (wl & wr & Hs & _).
  rewrite Hs. apply in_or_app. right. apply in_or_app. by left.
Qed.

(** No line of a text holds the separator. *)
Lemma split_on_no_sep (sep : N) (s : pystr) :
  Forall (fun line => ~ In sep line) (split_on sep s).
Proof.
  induction s as [|c s IH]; simpl.
  - apply Forall_singleton. by intros [].
  - destruct (c =? sep)%N eqn:Hc.
    + apply Forall_cons. split; [by intros []|done].
    + apply N.eqb_neq in Hc.
      destruct (split_on sep s) as [|h t].
      * apply Forall_singleton. intros [E|[]]. done.
      * apply Forall_cons in IH as [Hh Ht]. apply Forall_cons.
        split; [|done]. intros [E|E]; [done|]. by apply Hh.
Qed.

Lemma trimmed_lines_tidy (lines : list pystr) :
  Forall (fun line => ~ In Chr.nl line) lines ->
  Forall tidy (trimmed_lines lines).
Proof.
  induction 1 as [|line lines Hline _ IH]; [constructor|].
  unfold trimmed_lines in *. cbn [List.filter].
  destruct (truthy (strip line)) eqn:Htruthy; [|done].
  cbn [List.map]. constructor; [|done].
  split_and!.
  - by destruct (strip line).
  - apply strip_idem.
  - intros Hin. by apply Hline, strip_In.
Qed.

(** X14.  Whatever the generator returns, the questions read off it are
    at least one and at most three, and each of them is tidy: not empty,
    without whitespace at either end, and without a line break inside. *)
Theorem parse_questions_tidy (output : pystr) :
  1 <= length (parse_questions output) <= 3 /\
  Forall (fun q => q <> [] /\ strip q = q /\ ~ In Chr.nl q)
         (parse_questions output).
Proof.
  split.
  - unfold parse_questions, slice_to. rewrite length_take.
    destruct (List.map strip _) as [|q l]; cbn [length]; lia.
  - change (Forall tidy (parse_questions output)).
    unfold parse_questions, slice_to. apply Forall_take.
    pose proof (trimmed_lines_tidy _ (split_on_no_sep Chr.nl (strip output)))
      as Htidy.
    unfold trimmed_lines in Htidy.
    destruct (List.map strip _) as [|q l]; [|done].
    apply Forall_singleton. split_and!.
    + discriminate.
    + vm_compute. reflexivity.
    + vm_compute. intros H. repeat destruct H as [H|H]; try discriminate H.
      done.
Qed.

Lemma parse_questions_all_tidy (output : pystr) :
  Forall tidy (parse_questions output).
Proof.
  unfold parse_questions, slice_to. apply Forall_take.
  pose proof (trimmed_lines_tidy _ (split_on_no_sep Chr.nl (strip output)))
    as Htidy.
  unfold trimmed_lines in Htidy.
  destruct (List.map strip _) as [|q l]; [|done].
  apply Forall_singleton. split_and!; [discriminate | by vm_compute |].
  vm_compute. intros H. repeat destruct H as [H|H]; try discriminate H.
  done.
Qed.

(** *** From questions to text and back *)

Lemma split_on_line sep (q t : pystr) :
  ~ In sep q -> split_on sep (q ++ sep :: t) = q :: split_on sep t.
Proof.
  induction q as [|c q IH]; intros Hq; cbn [app split_on].
  - by rewrite N.eqb_refl.
  - destruct (N.eqb_spec c sep) as [->|Hc]; [by destruct Hq; left|].
    rewrite IH; [done|]. intros Hin. apply Hq. by right.
Qed.

Lemma split_on_last sep (q : pystr) : ~ In sep q -> split_on sep q = [q].
Proof.
  induction q as [|c q IH]; intros Hq; cbn [split_on]; [done|].
  destruct (N.eqb_spec c sep) as [->|Hc]; [by destruct Hq; left|].
  rewrite IH; [done|]. intros Hin. apply Hq. by right.
Qed.

Lemma split_on_join sep (qs : list pystr) :
  qs <> [] -> Forall (fun q => ~ In sep q) qs ->
  split_on sep (join [sep] qs) = qs.
Proof.
  induction qs as [|q rest IH]; [done|]. intros _ Hqs.
  apply Forall_cons in Hqs as [Hq Hrest].
  destruct rest as [|q' rest]; cbn [join].
  - by apply split_on_last.
  - cbn [app]. rewrite split_on_line by done. f_equal. by apply IH.
Qed.

Lemma kept_tidy (qs : list pystr) :
  Forall tidy qs ->
  List.filter (fun q => truthy (strip q)) qs = qs /\ List.map strip qs = qs.
Proof.
  induction 1 as [|q qs (Hne & Hstrip & _) _ [IH1 IH2]]; [done|].
  cbn [List.filter List.map]. rewrite Hstrip, IH1, IH2.
  by destruct q.
Qed.

(** X15.  Reading questions off a text undoes writing them one per line:
    every list of one to three tidy questions is exactly what
    [parse_questions] reads off its lines joined by line breaks, so the
    quiz can hold any such list and no other. *)
Theorem parse_questions_round_trip (questions : list pystr) :
  1 <= length questions <= 3 ->
  Forall (fun q => q <> [] /\ strip q = q /\ ~ In Chr.nl q) questions ->
  parse_questions (join [Chr.nl] questions) = questions.
Proof.
  intros [Hlo Hhi] Htidy. change (Forall tidy questions) in Htidy.
  assert (Hne : questions <> []) by (intros ->; simpl in Hlo; lia).
  unfold parse_questions.
  pose proof (trimmed_lines_strip Chr.nl (join [Chr.nl] questions)) as E.
  unfold trimmed_lines in E. rewrite E, split_on_join; [|done|].
  - destruct (kept_tidy questions Htidy) as [-> ->].
    unfold slice_to. destruct questions as [|q rest]; [done|].
    apply take_ge. lia.
  - eapply Forall_impl; [exact Htidy|]. by intros q (_ & _ & ?).
Qed.

End TrimFacts.

(** ** The quiz: answers, questions and calls *)

Section QuizFacts.
Variables uni_alnum uni_decimal : N -> bool.
Variable uni_lower : pystr -> pystr.
Variable extract_text : list Byte.byte -> res pystr.
Variable decode_utf8 : list Byte.byte -> res pystr.
Variable summarizer : pystr -> res pystr.
Variable qa_pipeline : pystr -> pystr -> res (pystr * PyFloat.float).
Variable question_generator : pystr -> res pystr.

Abbreviation a_page :=
  (page uni_alnum uni_decimal uni_lower extract_text decode_utf8 summarizer
        qa_pipeline question_generator).
Abbreviation a_quiz :=
  (quiz_section uni_lower qa_pipeline question_generator).

Hint Resolve call_qa_session call_qa_screen call_summarizer_qa_calls
  call_generator_qa_calls call_generator_screen call_generator_session
  call_summarizer_session summary_loop_session summary_loop_qa_calls
  capture_loop_qa_calls evaluate_loop_session st_generator_calls
  set_state_generator_calls call_qa_generator_calls
  call_summarizer_generator_calls : frame.

(** *** Capturing the answers *)

Lemma capture_loop_run ws : forall questions i w user_answers,
  session_state w !! "user_answers" = Some user_answers ->
  i + length questions <= length user_answers ->
  capture_loop i questions ws w
  = (Ok tt,
     {| session_state :=
          <["user_answers" :=
              take i user_answers ++
              List.map (your_answer ws) (seq i (length questions)) ++
              drop (i + length questions) user_answers]> (session_state w);
        screen := screen w ++
                  concat (imap (fun j q => slot_widgets (i + j) q) questions);
        summarizer_calls := summarizer_calls w;
        qa_calls := qa_calls w;
        generator_calls := generator_calls w |}).
Proof.
  induction questions as [|q rest IH]; intros i w us Hus Hlen.
  - cbn [capture_loop length seq List.map imap concat app].
    rewrite Nat.add_0_r, take_drop, insert_id, app_nil_r by done.
    by destruct w.
  - cbn [capture_loop length] in *.
    unfold mbind at 1 2 3, M_bind at 1 2 3, st, set_item, mbind, M_bind,
      get_state.
    cbn [session_state screen summarizer_calls qa_calls generator_calls
         fst snd].
    rewrite Hus.
    assert (Hi : (i <? length us) = true) by (apply Nat.ltb_lt; lia).
    rewrite Hi. unfold set_state.
    cbn [session_state screen summarizer_calls qa_calls generator_calls
         fst snd].
    erewrite IH; cycle 1.
    { cbn [session_state]. apply lookup_insert_eq. }
    { rewrite length_insert. lia. }
    cbn [session_state screen summarizer_calls qa_calls generator_calls
         fst snd].
    f_equal. f_equal.
    + rewrite insert_insert_eq. f_equal.
      cbn [seq List.map].
      rewrite (take_S_r _ _ (your_answer ws i))
        by (apply list_lookup_insert_eq; lia).
      rewrite take_insert_ge by lia.
      rewrite drop_insert_lt by lia.
      rewrite <- app_assoc. cbn [app].
      by replace (i + S (length rest)) with (S i + length rest) by lia.
    + rewrite <- !app_assoc. f_equal.
      cbn [imap concat]. rewrite Nat.add_0_r.
      unfold slot_widgets at 2, answer_key. cbn [app]. do 3 f_equal.
      apply imap_ext. intros j x _. cbn. f_equal. lia.
Qed.

(** X16.  With as many answer slots as questions, showing the questions
    returns and leaves in every slot what the answer widget of its index
    holds, whatever the slot held before; the stored questions are as
    they were, and the page gains, per question, its text and its
    widget. *)
Theorem answers_captured (ws : widgets) (w : world)
    (questions user_answers : list pystr) :
  session_state w !! "questions" = Some questions ->
  session_state w !! "user_answers" = Some user_answers ->
  length questions = length user_answers ->
  let run := capture_answers ws w in
  fst run = Ok tt /\
  session_state (snd run) !! "user_answers"
  = Some (List.map (your_answer ws) (seq 0 (length questions))) /\
  session_state (snd run) !! "questions" = Some questions /\
  screen (snd run) = screen w ++ concat (imap slot_widgets questions).
Proof.
  intros Hq Hu Hlen. cbn zeta.
  unfold capture_answers, mbind, M_bind, get_state. rewrite Hq.
  rewrite (capture_loop_run ws questions 0 w user_answers Hu) by (simpl; lia).
  cbn [fst snd session_state screen take app Nat.add].
  rewrite Hlen, drop_all, app_nil_r.
  by rewrite lookup_insert_eq, lookup_insert_ne.
Qed.

Lemma capture_loop_short ws : forall questions i w user_answers,
  session_state w !! "user_answers" = Some user_answers ->
  i <= length user_answers < i + length questions ->
  fst (capture_loop i questions ws w) = Raise IndexError.
Proof.
  induction questions as [|q rest IH]; intros i w us Hus Hlen.
  - simpl in Hlen. lia.
  - cbn [capture_loop length] in *.
    unfold mbind at 1 2 3, M_bind at 1 2 3, st, set_item, mbind, M_bind,
      get_state.
    cbn [session_state screen summarizer_calls qa_calls generator_calls
         fst snd].
    rewrite Hus. destruct (i <? length us) eqn:Hi.
    + apply Nat.ltb_lt in Hi. unfold set_state.
      cbn [session_state screen summarizer_calls qa_calls generator_calls
           fst snd].
      eapply IH.
      * cbn [session_state]. apply lookup_insert_eq.
      * rewrite length_insert. lia.
    + done.
Qed.

(** X17.  With fewer answer slots than questions, showing the questions
    raises [IndexError]: a slot is written by index and never created. *)
Theorem answers_need_slots (ws : widgets) (w : world)
    (questions user_answers : list pystr) :
  session_state w !! "questions" = Some questions ->
  session_state w !! "user_answers" = Some user_answers ->
  length user_answers < length questions ->
  fst (capture_answers ws w) = Raise IndexError.
Proof.
  intros Hq Hu Hlen.
  unfold capture_answers, mbind, M_bind, get_state. rewrite Hq.
  apply (capture_loop_short ws questions 0 w user_answers Hu). simpl. lia.
Qed.

(** *** Where a failure can come from *)

Lemma bind_raises {A B} (m : M A) (f : A -> M B) w e :
  fst ((m ≫= f) w) = Raise e ->
  fst (m w) = Raise e \/
  exists x, fst (m w) = Ok x /\ fst (f x (snd (m w))) = Raise e.
Proof.
  unfold mbind, M_bind. destruct (m w) as [[x|e'] w1]; cbn [fst snd].
  - intros E. right. by exists x.
  - intros [= ->]. by left.
Qed.

Lemma raises_in_bind {A B} P (m : M A) (f : A -> M B) :
  raises_in P m -> (forall x, raises_in P (f x)) -> raises_in P (m ≫= f).
Proof.
  intros Hm Hf w. unfold mbind, M_bind. specialize (Hm w).
  destruct (m w) as [[x|e] w1]; simpl in *; [apply Hf | done].
Qed.

Lemma raises_in_st P e : raises_in P (st e).
Proof. by intros w. Qed.

Lemma raises_in_ret {A} P (x : A) : raises_in P (ret x).
Proof. by intros w. Qed.

Lemma raises_in_fst {A} P (m : M A) w e :
  raises_in P m -> fst (m w) = Raise e -> P e.
Proof. intros H E. specialize (H w). by rewrite E in H. Qed.

Section Outside.
Variable uploaded : option uploaded_file.

Abbreviation from_outside :=
  (outside_failure extract_text decode_utf8 summarizer qa_pipeline
                   question_generator uploaded).

Lemma summary_loop_raises chunks : forall i combined,
  raises_in from_outside (summary_loop summarizer i chunks combined).
Proof.
  induction chunks as [|chunk rest IH]; intros i combined; cbn [summary_loop].
  - apply raises_in_ret.
  - apply raises_in_bind; [|intros summary; apply IH].
    intros w. unfold call_summarizer. cbn [fst].
    destruct (summarizer chunk) as [summary|e] eqn:E; [done|].
    right. left. by exists chunk.
Qed.

Lemma summary_section_raises d :
  raises_in from_outside (summary_section uni_alnum uni_decimal summarizer d).
Proof.
  unfold summary_section. destruct (truthy d); [|apply raises_in_ret].
  apply raises_in_bind; [apply raises_in_st|intros _].
  apply raises_in_bind; [apply raises_in_st|intros _].
  apply raises_in_bind.
  - intros w. unfold lift. cbn [fst].
    destruct (split_text_returns uni_alnum uni_decimal d 1000) as (segs & ->);
      [lia | done].
  - intros chunks.
    apply raises_in_bind; [apply summary_loop_raises|intros combined].
    apply raises_in_bind; [apply raises_in_st|intros _; apply raises_in_st].
Qed.

Lemma call_qa_raises q c : raises_in from_outside (call_qa qa_pipeline q c).
Proof.
  intros w. unfold call_qa. cbn [fst].
  destruct (qa_pipeline q c) as [r|e] eqn:E; [done|].
  right. right. left. by exists q, c.
Qed.

Lemma ask_section_raises d ws :
  raises_in from_outside (ask_section qa_pipeline d ws).
Proof.
  unfold ask_section. destruct (truthy d); [|apply raises_in_ret].
  do 5 (apply raises_in_bind; [apply raises_in_st|intros _]).
  apply raises_in_bind; [|intros _; apply raises_in_st].
  destruct (get_answer ws && _); [|apply raises_in_ret].
  apply raises_in_bind; [apply raises_in_st|intros _].
  apply raises_in_bind; [apply call_qa_raises|intros answer].
  apply raises_in_bind; [apply raises_in_st|intros _; apply raises_in_st].
Qed.

Lemma evaluate_loop_raises d pairs : forall i,
  raises_in from_outside (evaluate_loop uni_lower qa_pipeline i pairs d).
Proof.
  induction pairs as [|[q u] rest IH]; intros i; cbn [evaluate_loop].
  - apply raises_in_ret.
  - apply raises_in_bind; [apply call_qa_raises|intros result].
    repeat (apply raises_in_bind; [|intros _]); try apply raises_in_st.
    + destruct (matches _ _ _); apply raises_in_st.
    + apply IH.
Qed.

Lemma quiz_body_raises d ws w e :
  aligned (session_state w) ->
  fst (quiz_body uni_lower qa_pipeline d ws w) = Raise e -> from_outside e.
Proof.
  intros (qs & us & Hq & Hu & Hlen). unfold quiz_body.
  unfold mbind at 1, M_bind at 1, get_state at 1. rewrite Hq.
  destruct qs as [|q rest]; [discriminate|].
  unfold mbind at 1, M_bind at 1.
  rewrite (capture_loop_run ws (q :: rest) 0 w us Hu)
    by (rewrite Hlen; simpl; lia).
  unfold mbind at 1, M_bind at 1, get_state at 1.
  cbn [session_state]. rewrite lookup_insert_eq.
  destruct (all_answered _); [|discriminate].
  unfold mbind at 1, M_bind at 1, st at 1.
  destruct (evaluate_answers ws); [|discriminate].
  unfold evaluate_handler.
  unfold mbind at 1, M_bind at 1, st at 1.
  unfold mbind at 1, M_bind at 1, get_state at 1.
  cbn [session_state]. rewrite lookup_insert_ne, Hq by done.
  unfold mbind at 1, M_bind at 1, get_state at 1.
  cbn [session_state]. rewrite lookup_insert_eq.
  apply raises_in_fst, evaluate_loop_raises.
Qed.

Lemma quiz_section_raises d ws w e :
  fresh_or_aligned (session_state w) ->
  fst (a_quiz d ws w) = Raise e -> from_outside e.
Proof.
  intros Hw. unfold quiz_section. destruct (truthy d); [|discriminate].
  intros E.
  apply bind_raises in E as [E|(x & _ & E)]; [discriminate|].
  apply bind_raises in E as [E|(x' & _ & E)]; [discriminate|].
  apply bind_raises in E as [E|(x'' & _ & E)].
  { destruct (init_quiz_returns (snd (st (Markdown (py "Click below to generate 3 logic/comprehension questions based on your document.")) (snd (st (Subheader (py "Challenge Me: Auto Quiz")) w))))) as (y & Hy).
    rewrite Hy in E. discriminate E. }
  match type of E with
  | context [init_quiz ?w0] =>
    pose proof (init_quiz_aligned w0 Hw) as Hal; set (w2 := snd (init_quiz w0)) in *
  end.
  apply bind_raises in E as [E|(y & _ & E)]; [discriminate|].
  apply bind_raises in E as [E|(z & _ & E)].
  - destruct (generate_questions ws); [|discriminate].
    unfold generate_handler, mbind, M_bind, call_generator in E.
    destruct (question_generator _) as [output|e'] eqn:G.
    + unfold set_state, get_state in E.
      cbn [session_state screen summarizer_calls qa_calls generator_calls
           fst snd] in E.
      rewrite lookup_insert_eq in E. discriminate E.
    + injection E as ->. right. right. right. eauto.
  - eapply quiz_body_raises; [|exact E].
    destruct (generate_questions ws); [|exact Hal].
    apply generate_handler_aligned. exact Hal.
Qed.

(** X18.  The script fails only where the outside fails.  When a run of
    the page raises, starting from a session whose quiz state is not yet
    initialised or is aligned, the exception was raised by the extraction
    of the uploaded file or by one of the three pipelines: the chunker does
    not refuse the text, no key of the session state is missing, and no
    answer slot is out of range. *)
Theorem page_fails_only_outside (ws : widgets) (w : world) (e : exn) :
  session_state w !! "questions" = None \/
    (exists questions user_answers,
       session_state w !! "questions" = Some questions /\
       session_state w !! "user_answers" = Some user_answers /\
       length questions = length user_answers) ->
  fst (a_page uploaded ws w) = Raise e ->
  (exists file, uploaded = Some file /\
     extract_file_text extract_text decode_utf8 file = Raise e) \/
  (exists chunk, summarizer chunk = Raise e) \/
  (exists question context, qa_pipeline question context = Raise e) \/
  (exists prompt, question_generator prompt = Raise e).
Proof.
  intros Hw E. change (from_outside e). unfold page in E.
  apply bind_raises in E as [E|(d & _ & E)].
  { unfold upload_section in E. destruct uploaded as [file|]; [|discriminate].
    unfold mbind, M_bind, lift in E.
    destruct (extract_file_text extract_text decode_utf8 file) as [d|e']
      eqn:Hfile; [discriminate|].
    injection E as ->. left. by exists file. }
  assert (H1 : session_state (snd (upload_section extract_text decode_utf8
                                     uploaded w)) = session_state w).
  { unfold upload_section. destruct uploaded as [file|]; [|done].
    unfold mbind, M_bind, lift.
    by destruct (extract_file_text extract_text decode_utf8 file). }
  set (w1 := snd (upload_section extract_text decode_utf8 uploaded w)) in *.
  apply bind_raises in E as [E|([] & _ & E)].
  { by apply (raises_in_fst _ _ _ _ (summary_section_raises d) E). }
  assert (H2 : session_state
                 (snd (summary_section uni_alnum uni_decimal summarizer d w1))
               = session_state w1).
  { assert (H : untouched session_state
                  (summary_section uni_alnum uni_decimal summarizer d))
      by (unfold summary_section; frame).
    apply H. }
  set (w2 := snd (summary_section uni_alnum uni_decimal summarizer d w1)) in *.
  apply bind_raises in E as [E|([] & _ & E)].
  { by apply (raises_in_fst _ _ _ _ (ask_section_raises d ws) E). }
  eapply quiz_section_raises; [|exact E].
  assert (H3 : session_state (snd (ask_section qa_pipeline d ws w2))
               = session_state w).
  { rewrite (ask_section_untouched qa_pipeline session_state d ws), H2, H1;
      [done | apply st_session | apply call_qa_session]. }
  unfold fresh_or_aligned, aligned.
  destruct Hw as [Hnone|(qs & us & Hq & Hu & Hlen)]; [left|right].
  - by rewrite H3.
  - exists qs, us. by rewrite H3.
Qed.

End Outside.

(** *** Generating, again *)

Lemma generate_handler_ok d w output :
  question_generator (prompt_of d) = Ok output ->
  generate_handler question_generator d w
  = (Ok tt,
     {| session_state :=
          <["user_answers" := replicate (length (parse_questions output)) []]>
            (<["questions" := parse_questions output]> (session_state w));
        screen := screen w;
        summarizer_calls := summarizer_calls w;
        qa_calls := qa_calls w;
        generator_calls := generator_calls w ++ [prompt_of d] |}).
Proof.
  intros Hgen.
  unfold generate_handler, mbind, M_bind, call_generator, set_state,
    get_state.
  fold (prompt_of d). rewrite Hgen.
  cbn [session_state screen summarizer_calls qa_calls generator_calls
       fst snd].
  by rewrite lookup_insert_eq.
Qed.

(** What a run of the quiz body leaves in the session: the answers typed,
    when there is a question. *)
Lemma quiz_body_session d ws w qs us :
  session_state w !! "questions" = Some qs ->
  session_state w !! "user_answers" = Some us ->
  length qs = length us ->
  session_state (snd (quiz_body uni_lower qa_pipeline d ws w))
  = match qs with
    | [] => session_state w
    | _ :: _ => <["user_answers" := typed ws (length qs)]> (session_state w)
    end.
Proof.
  intros Hq Hu Hlen. unfold quiz_body.
  unfold mbind at 1, M_bind at 1, get_state at 1. rewrite Hq.
  destruct qs as [|q rest]; [done|].
  unfold mbind at 1, M_bind at 1.
  rewrite (capture_loop_run ws (q :: rest) 0 w us Hu)
    by (rewrite Hlen; simpl; lia).
  unfold mbind at 1, M_bind at 1, get_state at 1.
  cbn [session_state]. rewrite lookup_insert_eq.
  cbn [take app Nat.add]. rewrite Hlen, drop_all, app_nil_r, <- Hlen.
  fold (typed ws (length (q :: rest))).
  destruct (all_answered _); [|done].
  unfold mbind at 1, M_bind at 1, st at 1.
  destruct (evaluate_answers ws); [|done].
  by rewrite (evaluate_handler_session uni_lower qa_pipeline d).
Qed.

(** X19.  When the question generator raises while a quiz exists, the run
    of the quiz section ends with that exception right after the
    "Generate Questions" button: the prompt has been sent, the old
    questions are not shown, and the session state, questions and answers,
    is what it was. *)
Theorem generator_failure_keeps_quiz (d : pystr) (ws : widgets) (w : world)
    (questions : list pystr) (e : exn) :
  truthy d = true ->
  generate_questions ws = true ->
  session_state w !! "questions" = Some questions ->
  question_generator (py "generate questions: " ++ take 1000 d) = Raise e ->
  a_quiz d ws w
  = (Raise e,
     {| session_state := session_state w;
        screen := screen w ++
                  [Subheader (py "Challenge Me: Auto Quiz");
                   Markdown (py "Click below to generate 3 logic/comprehension questions based on your document.");
                   Button (py "Generate Questions")];
        summarizer_calls := summarizer_calls w;
        qa_calls := qa_calls w;
        generator_calls := generator_calls w ++
                           [py "generate questions: " ++ take 1000 d] |}).
Proof.
  intros Hd Hclick Hq Hgen. unfold quiz_section. rewrite Hd, Hclick.
  unfold mbind at 1 2, M_bind at 1 2, st at 1 2.
  unfold mbind at 1, M_bind at 1, init_quiz.
  unfold mbind at 1, M_bind at 1, has_state.
  cbn [session_state screen summarizer_calls qa_calls generator_calls
       fst snd].
  rewrite bool_decide_eq_true_2 by (rewrite Hq; eauto).
  unfold ret, mret, M_ret.
  unfold mbind at 1, M_bind at 1, st at 1.
  unfold mbind at 1, M_bind at 1.
  unfold generate_handler, mbind, M_bind, call_generator, slice_to.
  rewrite Hgen.
  cbn [session_state screen summarizer_calls qa_calls generator_calls
       fst snd].
  by rewrite <- !app_assoc.
Qed.

(** X20.  A click on "Generate Questions" that succeeds is followed, in
    the same run, by the capture of the answers: at the end of the run of
    the quiz section the questions are the ones read off the generated
    text, and the answer slots hold not the empty strings of the reset but
    what the answer widgets of their indices return in that run. *)
Theorem regenerated_quiz_takes_typed_answers (d output : pystr)
    (ws : widgets) (w : world) :
  truthy d = true ->
  generate_questions ws = true ->
  question_generator (py "generate questions: " ++ take 1000 d) = Ok output ->
  let after := session_state (snd (a_quiz d ws w)) in
  after !! "questions" = Some (parse_questions output) /\
  after !! "user_answers"
  = Some (List.map (your_answer ws)
                   (seq 0 (length (parse_questions output)))).
Proof.
  intros Hd Hclick Hgen after.
  pose proof (parse_questions_length output) as [Hpos _].
  assert (E : exists session,
             after
             = <["user_answers" := typed ws (length (parse_questions output))]>
                 (<["user_answers" :=
                      replicate (length (parse_questions output)) []]>
                    (<["questions" := parse_questions output]> session))).
  { subst after. unfold quiz_section. rewrite Hd, Hclick.
    unfold mbind at 1 2, M_bind at 1 2, st at 1 2.
    unfold mbind at 1, M_bind at 1.
    match goal with
    | |- context [init_quiz ?w0] =>
      destruct (init_quiz_returns w0) as ([] & Hinit);
      destruct (init_quiz w0) as [r w2]; cbn [fst] in Hinit; subst r
    end.
    unfold mbind at 1, M_bind at 1, st at 1.
    unfold mbind at 1, M_bind at 1.
    rewrite (generate_handler_ok d _ output Hgen).
    erewrite quiz_body_session; cycle 1.
    { cbn [session_state]. by rewrite lookup_insert_ne, lookup_insert_eq. }
    { cbn [session_state]. by rewrite lookup_insert_eq. }
    { by rewrite length_replicate. }
    exists (session_state w2).
    destruct (parse_questions output) as [|q rest]; [simpl in Hpos; lia|].
    done. }
  destruct E as (session & ->).
  by rewrite lookup_insert_eq, lookup_insert_ne, lookup_insert_ne,
    lookup_insert_eq by done.
Qed.

(** *** The questions stay *)

Lemma keeps_lookup {A} key (v : list pystr) (m : M A) :
  untouched (fun w => session_state w !! key) m ->
  keeps (fun session => session !! key = Some v) m.
Proof. intros H w Hw. by rewrite (H w). Qed.

Lemma set_answers_questions v :
  untouched (fun w => session_state w !! "questions")
            (set_state "user_answers" v).
Proof. intros w. cbn. by rewrite lookup_insert_ne. Qed.

Lemma quiz_body_questions d ws :
  untouched (fun w => session_state w !! "questions")
            (quiz_body uni_lower qa_pipeline d ws).
Proof.
  apply quiz_body_untouched; [by intros e w | apply set_answers_questions |].
  by intros _ q c w.
Qed.

Lemma init_quiz_keeps_questions qs :
  keeps (fun session => session !! "questions" = Some qs) init_quiz.
Proof.
  intros w Hq. unfold init_quiz, mbind, M_bind, has_state. cbn [fst snd].
  by rewrite bool_decide_eq_true_2 by (rewrite Hq; eauto).
Qed.

(** X21.  The questions stay until new ones are generated: a run of the
    page without a click on "Generate Questions" leaves the stored
    questions as they are, whatever is uploaded, typed or clicked
    otherwise, and whether the run returns or raises. *)
Theorem questions_persist (uploaded : option uploaded_file) (ws : widgets)
    (w : world) (questions : list pystr) :
  generate_questions ws = false ->
  session_state w !! "questions" = Some questions ->
  session_state (snd (a_page uploaded ws w)) !! "questions"
  = Some questions.
Proof.
  intros Hclick. revert w.
  change (keeps (fun session => session !! "questions" = Some questions)
                (a_page uploaded ws)).
  unfold page. apply keeps_bind.
  { apply keeps_untouched. unfold upload_section. destruct uploaded; frame. }
  intros d. apply keeps_bind.
  { apply keeps_untouched. unfold summary_section. frame. }
  intros _. apply keeps_bind.
  { apply keeps_untouched. unfold ask_section. frame. }
  intros _. unfold quiz_section. rewrite Hclick.
  destruct (truthy d); [|by intros w].
  apply keeps_bind; [apply keeps_untouched, st_session|intros _].
  apply keeps_bind; [apply keeps_untouched, st_session|intros _].
  apply keeps_bind; [apply init_quiz_keeps_questions|intros _].
  apply keeps_bind; [apply keeps_untouched, st_session|intros _].
  apply keeps_bind; [by intros w|intros _].
  apply keeps_lookup, quiz_body_questions.
Qed.

(** *** What the evaluation asks *)

Lemma st_then {B} (el : element) (m : M B) w :
  exists w', (st el ≫= fun _ => m) w = m w' /\ qa_calls w' = qa_calls w.
Proof. by eexists. Qed.

Lemma evaluate_loop_step d q u rest i w :
  exists w',
    qa_calls w' = qa_calls w ++ [(q, context d)] /\
    evaluate_loop uni_lower qa_pipeline i ((q, u) :: rest) d w
    = match qa_pipeline q (context d) with
      | Ok _ => evaluate_loop uni_lower qa_pipeline (S i) rest d w'
      | Raise e => (Raise e, w')
      end.
Proof.
  cbn [evaluate_loop]. unfold mbind at 1, M_bind at 1, call_qa.
  destruct (qa_pipeline q (context d)) as [result|e].
  - cbn [fst snd].
    match goal with
    | |- context [(_ ≫= _) ?w0] =>
      assert (Hw : qa_calls w0 = qa_calls w ++ [(q, context d)]) by done;
      generalize dependent w0; intros w1 Hw
    end.
    destruct (st_then (Markdown (py "*Q" ++ str_of_nat (i + 1) ++ py ": " ++ q ++ py "*")) 
                (st (Write (py "Your Answer: " ++ u));;
                 st (Write (py "Correct Answer: " ++ fst result));;
                 (if matches uni_lower u (fst result)
                  then st (Success (py "Correct"))
                  else st (ErrorBox (py "Incorrect")));;
                 st (Caption (confidence_caption (snd result)));;
                 st (Markdown (py "---"));;
                 evaluate_loop uni_lower qa_pipeline (S i) rest d) w1)
      as (w2 & -> & H2).
    destruct (st_then (Write (py "Your Answer: " ++ u))
                (st (Write (py "Correct Answer: " ++ fst result));;
                 (if matches uni_lower u (fst result)
                  then st (Success (py "Correct"))
                  else st (ErrorBox (py "Incorrect")));;
                 st (Caption (confidence_caption (snd result)));;
                 st (Markdown (py "---"));;
                 evaluate_loop uni_lower qa_pipeline (S i) rest d) w2)
      as (w3 & -> & H3).
    destruct (st_then (Write (py "Correct Answer: " ++ fst result))
                ((if matches uni_lower u (fst result)
                  then st (Success (py "Correct"))
                  else st (ErrorBox (py "Incorrect")));;
                 st (Caption (confidence_caption (snd result)));;
                 st (Markdown (py "---"));;
                 evaluate_loop uni_lower qa_pipeline (S i) rest d) w3)
      as (w4 & -> & H4).
    assert (Hif : exists w5,
               ((if matches uni_lower u (fst result)
                 then st (Success (py "Correct"))
                 else st (ErrorBox (py "Incorrect")));;
                st (Caption (confidence_caption (snd result)));;
                st (Markdown (py "---"));;
                evaluate_loop uni_lower qa_pipeline (S i) rest d) w4
               = (st (Caption (confidence_caption (snd result)));;
                  st (Markdown (py "---"));;
                  evaluate_loop uni_lower qa_pipeline (S i) rest d) w5 /\
               qa_calls w5 = qa_calls w4).
    { destruct (matches uni_lower u (fst result)); apply st_then. }
    destruct Hif as (w5 & -> & H5).
    destruct (st_then (Caption (confidence_caption (snd result)))
                (st (Markdown (py "---"));;
                 evaluate_loop uni_lower qa_pipeline (S i) rest d) w5)
      as (w6 & -> & H6).
    destruct (st_then (Markdown (py "---"))
                (evaluate_loop uni_lower qa_pipeline (S i) rest d) w6)
      as (w7 & -> & H7).
    exists w7. split; [|done].
    by rewrite H7, H6, H5, H4, H3, H2, Hw.
  - eexists. split; [|reflexivity]. done.
Qed.

Lemma evaluate_loop_calls d pairs : forall i w,
  exists k,
    k <= length pairs /\
    qa_calls (snd (evaluate_loop uni_lower qa_pipeline i pairs d w))
    = qa_calls w ++
      List.map (fun pair => (fst pair, context d)) (take k pairs) /\
    (forall j pair, pairs !! j = Some pair -> S j < k ->
       exists result, qa_pipeline (fst pair) (context d) = Ok result) /\
    match fst (evaluate_loop uni_lower qa_pipeline i pairs d w) with
    | Ok _ =>
      k = length pairs /\
      forall j pair, pairs !! j = Some pair ->
        exists result, qa_pipeline (fst pair) (context d) = Ok result
    | Raise e =>
      exists pair,
        pairs !! (k - 1) = Some pair /\ 1 <= k /\
        qa_pipeline (fst pair) (context d) = Raise e
    end.
Proof.
  induction pairs as [|[q u] rest IH]; intros i w.
  - exists 0. cbn. by rewrite app_nil_r.
  - destruct (evaluate_loop_step d q u rest i w) as (w' & Hw & ->).
    destruct (qa_pipeline q (context d)) as [result|e] eqn:Hqa.
    + destruct (IH (S i) w') as (k & Hk & Hcalls & Hbefore & Hend).
      exists (S k). cbn [length take List.map fst]. split_and!.
      * lia.
      * rewrite Hcalls, Hw. by rewrite <- app_assoc.
      * intros [|j] pair Hpair Hj.
        -- injection Hpair as <-. by exists result.
        -- apply (Hbefore j pair Hpair). lia.
      * destruct (fst (evaluate_loop uni_lower qa_pipeline (S i) rest d w'))
          as [[]|e].
        -- destruct Hend as [-> Hall]. split; [done|].
           intros [|j] pair Hpair.
           ++ injection Hpair as <-. by exists result.
           ++ by apply (Hall j).
        -- destruct Hend as (pair & Hpair & Hk1 & Hraise).
           exists pair. split_and!; [|lia|done].
           replace (S k - 1) with (S (k - 1)) by lia. exact Hpair.
    + exists 1. cbn [fst snd length take List.map].
      split_and!; [lia | done | intros j pair _ Hj; lia |].
      exists (q, u). by split_and!.
Qed.

Lemma map_fst_take_zip {A B C} (f : A -> C) (l : list A) : forall (l' : list B) k,
  length l <= length l' ->
  List.map (fun pair => f (fst pair)) (take k (zip l l'))
  = List.map f (take k l).
Proof.
  induction l as [|x l IH]; intros [|y l'] [|k] Hlen; simpl in *;
    try done; try lia.
  f_equal. apply IH. lia.
Qed.

(** X22.  The evaluation asks the pipeline the stored questions, in
    their order, each against the first 2000 characters of the document.
    When it returns it has asked all of them and every call has returned;
    when it raises it has asked the questions up to and including the
    first whose call raises, and it raises what that call raised.  The
    answers of the user are never part of a call. *)
Theorem evaluation_asks_the_questions (d : pystr) (w : world)
    (questions user_answers : list pystr) :
  session_state w !! "questions" = Some questions ->
  session_state w !! "user_answers" = Some user_answers ->
  length questions = length user_answers ->
  let run := evaluate_handler uni_lower qa_pipeline d w in
  exists k,
    k <= length questions /\
    qa_calls (snd run)
    = qa_calls w ++ List.map (fun q => (q, take 2000 d)) (take k questions) /\
    (forall i q, questions !! i = Some q -> S i < k ->
       exists result, qa_pipeline q (take 2000 d) = Ok result) /\
    match fst run with
    | Ok _ =>
      k = length questions /\
      forall q, In q questions ->
        exists result, qa_pipeline q (take 2000 d) = Ok result
    | Raise e =>
      exists q,
        questions !! (k - 1) = Some q /\ 1 <= k /\
        qa_pipeline q (take 2000 d) = Raise e
    end.
Proof.
  intros Hq Hu Hlen run.
  assert (Hpair : forall i q, questions !! i = Some q ->
            exists u, zip questions user_answers !! i = Some (q, u)).
  { intros i q Hi.
    destruct (lookup_lt_is_Some_2 user_answers i) as [u Hui].
    - rewrite <- Hlen. by apply lookup_lt_Some in Hi.
    - exists u. apply lookup_zip_with_Some. by exists q, u. }
  assert (Hrun : exists w0,
            run = evaluate_loop uni_lower qa_pipeline 0
                    (zip questions user_answers) d w0 /\
            qa_calls w0 = qa_calls w).
  { subst run. unfold evaluate_handler. rewrite st_bind_eq.
    unfold mbind, M_bind, get_state.
    cbn [session_state]. rewrite Hq. cbn [session_state]. rewrite Hu.
    by eexists. }
  destruct Hrun as (w0 & -> & Hw0).
  destruct (evaluate_loop_calls d (zip questions user_answers) 0 w0)
    as (k & Hk & Hcalls & Hbefore & Hend).
  assert (Hzip : length (zip questions user_answers) = length questions)
    by (rewrite length_zip; lia).
  exists k. rewrite Hzip in *. split_and!.
  - done.
  - rewrite Hcalls, Hw0. f_equal.
    apply (map_fst_take_zip (fun q => (q, context d))). lia.
  - intros i q Hi Hik. destruct (Hpair i q Hi) as (u & Hiu).
    apply (Hbefore i (q, u) Hiu Hik).
  - destruct (fst (evaluate_loop uni_lower qa_pipeline 0
                     (zip questions user_answers) d w0)) as [[]|e].
    + destruct Hend as [-> Hall]. split; [done|].
      intros q (i & Hi)%list_elem_of_In%list_elem_of_lookup.
      destruct (Hpair i q Hi) as (u & Hiu). apply (Hall i (q, u) Hiu).
    + destruct Hend as ([q u] & Hp & Hk1 & Hraise).
      exists q. split_and!; [|done..].
      apply lookup_zip_with_Some in Hp as (q' & u' & [= -> ->] & Hq' & _).
      exact Hq'.
Qed.

(** *** The verdict *)

Lemma isspace_ascii_lower c : isspace (ascii_lower c) = isspace c.
Proof.
  unfold ascii_lower.
  destruct (((65 <=? c) && (c <=? 90))%N) eqn:E; [|done].
  apply andb_prop in E as [H1 H2].
  apply N.leb_le in H1, H2. unfold isspace.
  repeat (match goal with
          | |- context [(?a <=? ?b)%N] => destruct (N.leb_spec a b)
          | |- context [(?a =? ?b)%N] => destruct (N.eqb_spec a b)
          end; try lia).
Qed.

Lemma lstrip_ascii_lower s :
  lstrip (List.map ascii_lower s) = List.map ascii_lower (lstrip s).
Proof.
  induction s as [|c s IH]; [done|]. cbn [List.map lstrip].
  rewrite isspace_ascii_lower. by destruct (isspace c).
Qed.

Lemma strip_ascii_lower s :
  strip (List.map ascii_lower s) = List.map ascii_lower (strip s).
Proof.
  unfold strip, rstrip.
  by rewrite lstrip_ascii_lower, <- List.map_rev, lstrip_ascii_lower,
    <- List.map_rev.
Qed.

Lemma isascii_strip s : isascii s = true -> isascii (strip s) = true.
Proof.
  intros H. destruct (strip_infix s) as (wl & wr & Hs & _).
  unfold isascii in *. rewrite Hs, !forallb_app in H.
  by apply andb_prop in H as [_ [? _]%andb_prop].
Qed.

(** X23.  The verdict does not see the case of ASCII letters nor the
    whitespace around the answer: an answer padded with whitespace is
    judged as any answer that differs from it only in letter case. *)
Theorem verdict_ignores_case_and_padding
    (user_ans other correct pad_left pad_right : pystr) :
  forallb isspace pad_left = true ->
  forallb isspace pad_right = true ->
  isascii user_ans = true ->
  isascii other = true ->
  List.map ascii_lower user_ans = List.map ascii_lower other ->
  matches uni_lower (pad_left ++ user_ans ++ pad_right) correct
  = matches uni_lower other correct.
Proof.
  intros Hl Hr Hu Ho Hsame. unfold matches.
  rewrite strip_spaces_l, strip_spaces_r by done.
  assert (E : lower uni_lower (strip user_ans) = lower uni_lower (strip other)).
  { unfold lower. rewrite !isascii_strip by done.
    by rewrite <- !strip_ascii_lower, Hsame. }
  by rewrite E.
Qed.

(** *** The keys of the answer widgets *)

Lemma digits_of_uint_inj d : forall d',
  digits_of_uint d = digits_of_uint d' -> d = d'.
Proof.
  induction d as [|d IH|d IH|d IH|d IH|d IH|d IH|d IH|d IH|d IH|d IH];
    intros [|d'|d'|d'|d'|d'|d'|d'|d'|d'|d']; cbn [digits_of_uint];
    intros E; try discriminate E; try reflexivity;
    injection E as E; f_equal; by apply IH.
Qed.

Lemma str_of_nat_inj i j : str_of_nat i = str_of_nat j -> i = j.
Proof.
  unfold str_of_nat. intros E%digits_of_uint_inj.
  rewrite <- (DecimalNat.Unsigned.of_to i), <- (DecimalNat.Unsigned.of_to j).
  by rewrite E.
Qed.

(** X24.  The answer widgets of a quiz, however many questions it has,
    have pairwise distinct keys: no two questions share a widget. *)
Theorem answer_keys_distinct (n : nat) :
  NoDup (List.map answer_key (seq 0 n)).
Proof.
  assert (Hinj : Inj (=) (=) answer_key).
  { intros i j E. by apply app_inv_head, str_of_nat_inj in E. }
  apply (NoDup_fmap_2 answer_key).
  apply NoDup_ListNoDup, List.seq_NoDup.
Qed.

(** *** The quiz stays small *)

Lemma keeps_questions {A} (m : M A) :
  untouched (fun w => session_state w !! "questions") m ->
  keeps small_quiz m.
Proof.
  intros H w (qs & Hq & Hsmall). exists qs. by rewrite (H w).
Qed.

Lemma init_quiz_small : keeps small_quiz init_quiz.
Proof.
  intros w (qs & Hq & Hsmall).
  unfold init_quiz, mbind, M_bind, has_state. cbn [fst snd].
  rewrite bool_decide_eq_true_2 by (rewrite Hq; eauto). by exists qs.
Qed.

Lemma generate_handler_small d :
  keeps small_quiz (generate_handler question_generator d).
Proof.
  intros w Hsmall.
  destruct (question_generator (prompt_of d)) as [output|e] eqn:Hgen.
  - rewrite (generate_handler_ok d w output Hgen). cbn [snd session_state].
    exists (parse_questions output).
    rewrite lookup_insert_ne, lookup_insert_eq by done.
    split_and!; [done | apply parse_questions_length
                | apply parse_questions_all_tidy].
  - unfold generate_handler, mbind, M_bind, call_generator.
    fold (prompt_of d). by rewrite Hgen.
Qed.

Lemma quiz_section_small d ws : keeps small_quiz (a_quiz d ws).
Proof.
  unfold quiz_section. destruct (truthy d); [|by intros w].
  apply keeps_bind; [apply keeps_untouched, st_session|intros _].
  apply keeps_bind; [apply keeps_untouched, st_session|intros _].
  apply keeps_bind; [apply init_quiz_small|intros _].
  apply keeps_bind; [apply keeps_untouched, st_session|intros _].
  apply keeps_bind; [|intros _; apply keeps_questions, quiz_body_questions].
  destruct (generate_questions ws); [|by intros w].
  apply generate_handler_small.
Qed.

Lemma page_small uploaded ws : keeps small_quiz (a_page uploaded ws).
Proof.
  unfold page. apply keeps_bind.
  { apply keeps_untouched. unfold upload_section. destruct uploaded; frame. }
  intros d. apply keeps_bind.
  { apply keeps_untouched. unfold summary_section. frame. }
  intros _. apply keeps_bind.
  { apply keeps_untouched. unfold ask_section. frame. }
  intros _. apply quiz_section_small.
Qed.

(** X25.  The quiz never holds more than three questions, and every
    question it holds is tidy: in every world reachable once the quiz
    state is initialised, by generation, answer capture, evaluation and
    whole runs of the quiz section and of the page, returning or raising,
    the stored questions are at most three, none of them empty, padded
    with whitespace or broken over lines. *)
Theorem quiz_stays_small (w : world) :
  quiz_reachable uni_alnum uni_decimal uni_lower extract_text decode_utf8
                 summarizer qa_pipeline question_generator w ->
  exists questions,
    session_state w !! "questions" = Some questions /\
    length questions <= 3 /\
    Forall (fun q => q <> [] /\ strip q = q /\ ~ In Chr.nl q) questions.
Proof.
  intros Hreach. change (small_quiz (session_state w)).
  induction Hreach as [w Hnone | op w _ IH].
  - unfold init_quiz, mbind, M_bind, has_state. cbn [fst snd].
    rewrite bool_decide_eq_false_2 by (rewrite Hnone; by intros [? ?]).
    exists []. cbn. rewrite lookup_insert_ne, lookup_insert_eq by done.
    split_and!; [done | lia | constructor].
  - revert IH. generalize w. change (keeps small_quiz
      (run_op uni_alnum uni_decimal uni_lower extract_text decode_utf8
              summarizer qa_pipeline question_generator op)).
    destruct op as [|d|ws|d|d ws|uploaded ws]; cbn [run_op].
    + apply init_quiz_small.
    + apply generate_handler_small.
    + unfold capture_answers.
      apply keeps_bind; [apply keeps_untouched, untouched_get_state|].
      intros qs. apply keeps_questions, capture_loop_questions.
    + apply keeps_untouched, evaluate_handler_session.
    + apply quiz_section_small.
    + apply page_small.
Qed.

(** *** Without a click *)

Lemma summary_loop_untouched {B} (proj : world -> B) chunks :
  (forall c, untouched proj (call_summarizer summarizer c)) ->
  forall i combined,
    untouched proj (summary_loop summarizer i chunks combined).
Proof.
  intros Hcall. induction chunks as [|chunk rest IH]; intros i combined;
    cbn [summary_loop].
  - apply untouched_ret.
  - apply untouched_bind; [apply Hcall|intros summary; apply IH].
Qed.

Lemma idle_page_untouched {B} (proj : world -> B) uploaded ws :
  get_answer ws = false ->
  generate_questions ws = false ->
  evaluate_answers ws = false ->
  (forall e, untouched proj (st e)) ->
  (forall k v, untouched proj (set_state k v)) ->
  (forall c, untouched proj (call_summarizer summarizer c)) ->
  untouched proj (a_page uploaded ws).
Proof.
  intros Hask Hgen Heval Hst Hset Hsum. unfold page.
  apply untouched_bind.
  { unfold upload_section. destruct uploaded as [file|];
      [|apply untouched_ret].
    apply untouched_bind; [apply untouched_lift|intros d].
    apply untouched_bind; [apply Hst|intros _; apply untouched_ret]. }
  intros d. apply untouched_bind; [|intros _; apply untouched_bind; intros].
  - unfold summary_section. destruct (truthy d); [|apply untouched_ret].
    apply untouched_bind; [apply Hst|intros _].
    apply untouched_bind; [apply Hst|intros _].
    apply untouched_bind; [apply untouched_lift|intros chunks].
    apply untouched_bind; [by apply summary_loop_untouched|intros combined].
    apply untouched_bind; [apply Hst|intros _; apply Hst].
  - unfold ask_section. rewrite Hask. cbn [andb].
    destruct (truthy d); [|apply untouched_ret].
    do 5 (apply untouched_bind; [apply Hst|intros _]).
    apply untouched_bind; [apply untouched_ret|intros _; apply Hst].
  - unfold quiz_section. rewrite Hgen.
    destruct (truthy d); [|apply untouched_ret].
    apply untouched_bind; [apply Hst|intros _].
    apply untouched_bind; [apply Hst|intros _].
    apply untouched_bind; [by apply init_quiz_untouched|intros _].
    apply untouched_bind; [apply Hst|intros _].
    apply untouched_bind; [apply untouched_ret|intros _].
    apply quiz_body_untouched; [done | done |].
    rewrite Heval. discriminate.
Qed.

(** X26.  Without a click nothing is asked and nothing is generated: in
    a run of the page in which none of the three buttons is clicked, the
    question-answering pipeline and the question generator are not called,
    whatever is uploaded and typed; only the summariser runs again. *)
Theorem no_click_no_call (uploaded : option uploaded_file) (ws : widgets)
    (w : world) :
  get_answer ws = false ->
  generate_questions ws = false ->
  evaluate_answers ws = false ->
  qa_calls (snd (a_page uploaded ws w)) = qa_calls w /\
  generator_calls (snd (a_page uploaded ws w)) = generator_calls w.
Proof.
  intros Hask Hgen Heval. split.
  - apply (idle_page_untouched qa_calls); auto with frame.
  - apply (idle_page_untouched generator_calls); auto with frame.
Qed.

(** *** The button and the widgets *)

Lemma typed_answered ws n :
  all_answered (typed ws n) = true <->
  forall i, i < n -> answered (your_answer ws i).
Proof.
  rewrite all_answered_Forall. unfold typed.
  rewrite List.Forall_forall. split.
  - intros H i Hi. apply H, in_map, in_seq. lia.
  - intros H ans (i & <- & Hi%in_seq)%in_map_iff. apply H. lia.
Qed.

Lemma quiz_body_screen d ws w qs us :
  session_state w !! "questions" = Some qs ->
  session_state w !! "user_answers" = Some us ->
  length qs = length us -> qs <> [] ->
  exists more,
    screen (snd (quiz_body uni_lower qa_pipeline d ws w))
    = screen w ++ concat (imap slot_widgets qs) ++
      (if all_answered (typed ws (length qs))
       then evaluate_button :: more else []).
Proof.
  intros Hq Hu Hlen Hne. unfold quiz_body.
  unfold mbind at 1, M_bind at 1, get_state at 1. rewrite Hq.
  destruct qs as [|q rest]; [done|].
  unfold mbind at 1, M_bind at 1.
  rewrite (capture_loop_run ws (q :: rest) 0 w us Hu)
    by (rewrite Hlen; simpl; lia).
  unfold mbind at 1, M_bind at 1, get_state at 1.
  cbn [session_state]. rewrite lookup_insert_eq.
  cbn [take app Nat.add]. rewrite Hlen, drop_all, app_nil_r, <- Hlen.
  fold (typed ws (length (q :: rest))).
  destruct (all_answered _);
    [|exists []; cbn [snd screen]; by rewrite app_nil_r].
  unfold mbind at 1, M_bind at 1, st at 1.
  cbn [session_state screen summarizer_calls qa_calls generator_calls].
  destruct (evaluate_answers ws).
  - match goal with
    | |- context [evaluate_handler _ _ d ?w0] =>
      destruct (evaluate_handler_screen uni_lower qa_pipeline d w0)
        as (new & -> & _)
    end.
    exists new. cbn [screen]. by rewrite <- !app_assoc.
  - exists []. cbn [snd screen]. by rewrite <- !app_assoc.
Qed.

Lemma slot_widgets_passive qs : forall i,
  Forall passive (concat (imap (fun j q => slot_widgets (i + j) q) qs)).
Proof.
  induction qs as [|q rest IH]; intros i; cbn [imap concat]; [constructor|].
  apply Forall_app. split.
  - unfold slot_widgets. repeat constructor; discriminate.
  - eapply Forall_impl; [|by intros e He; exact He].
    replace (concat _) with
      (concat (imap (fun j q0 => slot_widgets (S i + j) q0) rest)); [apply IH|].
    f_equal. apply imap_ext. intros j x _. cbn. f_equal. lia.
Qed.


End QuizFacts.

(** * The script in the words of the specification *)

(** ** Ordinal labels *)

Section LabelFacts.

Lemma read_digits_of_uint d : forall acc,
  read_decimal_from acc (digits_of_uint d) = Some (Nat.of_uint_acc d acc).
Proof.
  induction d as [|d IH|d IH|d IH|d IH|d IH|d IH|d IH|d IH|d IH|d IH];
    intros acc; cbn [digits_of_uint read_decimal_from Nat.of_uint_acc];
    [done|..];
    match goal with
    | |- context [digit_value ?c] =>
      let v := eval vm_compute in (digit_value c) in
      change (digit_value c) with v
    end;
    cbv iota; rewrite IH, Nat.tail_mul_spec; do 2 f_equal; lia.
Qed.

Lemma digits_of_uint_nil d : digits_of_uint d = [] -> d = Decimal.Nil.
Proof. by destruct d. Qed.

Lemma digit_cases c k :
  digit_value c = Some k ->
  In c [48; 49; 50; 51; 52; 53; 54; 55; 56; 57]%N.
Proof.
  unfold digit_value.
  destruct (((48 <=? c) && (c <=? 57))%N) eqn:E; [|done]. intros _.
  apply andb_prop in E as [H1 H2]. apply N.leb_le in H1, H2.
  assert (H : exists n, c = N.of_nat n /\ 48 <= n <= 57)
    by (exists (N.to_nat c); lia).
  destruct H as (n & -> & Hn).
  do 48 (destruct n as [|n]; [lia|]).
  do 10 (destruct n as [|n]; [simpl; tauto|]). lia.
Qed.

(** Every string of digits is the numeral of a [uint]. *)
Lemma digits_exist s : forall acc v,
  read_decimal_from acc s = Some v -> exists d, s = digits_of_uint d.
Proof.
  induction s as [|c s IH]; intros acc v; cbn [read_decimal_from].
  - intros _. by exists Decimal.Nil.
  - destruct (digit_value c) as [k|] eqn:Hc; [|done].
    intros (d & ->)%IH. apply digit_cases in Hc. simpl in Hc.
    destruct Hc as [<-|[<-|[<-|[<-|[<-|[<-|[<-|[<-|[<-|[<-|[]]]]]]]]]]].
    + by exists (Decimal.D0 d).
    + by exists (Decimal.D1 d).
    + by exists (Decimal.D2 d).
    + by exists (Decimal.D3 d).
    + by exists (Decimal.D4 d).
    + by exists (Decimal.D5 d).
    + by exists (Decimal.D6 d).
    + by exists (Decimal.D7 d).
    + by exists (Decimal.D8 d).
    + by exists (Decimal.D9 d).
Qed.

(** There is one ordinal label for a number, and [str] writes it. *)
Lemma ordinal_label_unique n label :
  ordinal_label n label -> label = str_of_nat n.
Proof.
  intros [Hread Hhead]. unfold read_decimal in Hread.
  destruct label as [|c rest] eqn:El; [done|]. rewrite <- El in *.
  destruct (digits_exist _ _ _ Hread) as (d & Hd).
  rewrite Hd, read_digits_of_uint in Hread. injection Hread as Hn.
  fold (Nat.of_uint d) in Hn.
  unfold str_of_nat. rewrite <- Hn, DecimalNat.Unsigned.to_of, Hd.
  f_equal. rewrite Hd in El, Hhead.
  by destruct d.
Qed.

Lemma to_uint_normal n : Decimal.unorm (Nat.to_uint n) = Nat.to_uint n.
Proof.
  rewrite <- DecimalNat.Unsigned.to_of.
  by rewrite DecimalNat.Unsigned.of_to.
Qed.

Lemma str_of_nat_ordinal n : 1 <= n -> ordinal_label n (str_of_nat n).
Proof.
  intros Hn. unfold ordinal_label, str_of_nat.
  pose proof (to_uint_normal n) as Hnorm.
  pose proof (DecimalNat.Unsigned.of_to n) as Hof.
  set (d := Nat.to_uint n) in *. clearbody d.
  split.
  - unfold read_decimal.
    destruct (digits_of_uint d) as [|c rest] eqn:E.
    + apply digits_of_uint_nil in E as ->. discriminate Hnorm.
    + rewrite <- E, read_digits_of_uint. f_equal. exact Hof.
  - destruct d as [|d|d|d|d|d|d|d|d|d|d]; cbn [digits_of_uint head];
      try discriminate.
    exfalso. rewrite DecimalFacts.unorm_D0 in Hnorm.
    destruct (Decimal.nzhead d) eqn:Hz;
      [ apply DecimalFacts.unorm_0 in Hz; rewrite Hz in Hnorm;
        injection Hnorm as <-; cbn in Hof; lia
      | rewrite DecimalFacts.unorm_nzhead in Hnorm by (by rewrite Hz);
        by apply DecimalFacts.nzhead_nonzero in Hnorm .. ].
Qed.

End LabelFacts.

(** ** Trimming *)

Section TrimmingFacts.

Lemma trimmed_starts t : trimmed t -> starts_solid t /\ starts_solid (rev t).
Proof.
  intros [Hhead Hlast]. split.
  - destruct t as [|c rest]; [done|]. by apply (Hhead c rest).
  - destruct (rev t) as [|c init] eqn:E; [done|].
    apply (Hlast (rev init) c).
    by rewrite <- (rev_involutive t), E.
Qed.

Lemma starts_trimmed t : starts_solid t -> starts_solid (rev t) -> trimmed t.
Proof.
  intros Hhead Hlast. split.
  - by intros c rest ->.
  - intros init c ->. rewrite rev_app_distr in Hlast. exact Hlast.
Qed.

Lemma strip_trimmed t : trimmed t -> strip t = t.
Proof.
  intros [Hhead Hlast]%trimmed_starts. unfold strip, rstrip.
  by rewrite (lstrip_fix t), (lstrip_fix (rev t)), rev_involutive.
Qed.

(** [strip] trims. *)
Lemma strip_trimming s : trimming s (strip s).
Proof.
  destruct (strip_infix s) as (lead & trail & Hs & Hlead & Htrail).
  exists lead, trail. split_and!; [done..|].
  apply starts_trimmed.
  - unfold strip.
    destruct (rstrip_prefix (lstrip s)) as (w & Ht & _).
    apply (starts_solid_prefix _ w). rewrite <- Ht. apply lstrip_starts.
  - unfold strip, rstrip. rewrite rev_involutive. apply lstrip_starts.
Qed.

(** There is one way to trim a text. *)
Lemma trimming_unique s t : trimming s t -> t = strip s.
Proof.
  intros (lead & trail & -> & Hlead & Htrail & Ht).
  by rewrite strip_spaces_l, strip_spaces_r, strip_trimmed.
Qed.

Lemma Forall2_trimming_strip lines :
  Forall2 trimming lines (List.map strip lines).
Proof.
  induction lines as [|line lines IH]; constructor; [|done].
  apply strip_trimming.
Qed.

Lemma Forall2_trimming_unique lines : forall ts,
  Forall2 trimming lines ts -> ts = List.map strip lines.
Proof.
  induction lines as [|line lines IH]; intros ts H.
  - by apply Forall2_nil_inv_l in H.
  - apply Forall2_cons_inv_l in H as (t & ts' & Ht & Hts & ->).
    cbn [List.map]. f_equal; [by apply trimming_unique | by apply IH].
Qed.

End TrimmingFacts.

(** ** Lines *)

Section LineFacts.

Lemma join_split_on sep (s : pystr) : join [sep] (split_on sep s) = s.
Proof.
  induction s as [|c s IH]; [done|]. cbn [split_on].
  destruct (split_on_cons sep s) as (h & t & E). rewrite E in *.
  rewrite <- IH. destruct (N.eqb_spec c sep) as [->|Hc]; [done|].
  by destruct t.
Qed.

(** [split] gives the lines of a text, and a text has no other lines. *)
Lemma split_on_lines (text : pystr) : lines_of text (split_on Chr.nl text).
Proof.
  split_and!.
  - destruct (split_on_cons Chr.nl text) as (h & t & ->). done.
  - apply split_on_no_sep.
  - apply join_split_on.
Qed.

Lemma lines_of_unique text lines :
  lines_of text lines -> lines = split_on Chr.nl text.
Proof. intros (Hne & Hnl & <-). by rewrite split_on_join. Qed.

Lemma kept_lines_truthy lines :
  List.filter (fun q => truthy (strip q)) lines = kept_lines lines.
Proof.
  unfold kept_lines, blank_line.
  induction lines as [|line lines IH]; [done|]. cbn [List.filter].
  rewrite IH.
  destruct (forallb isspace line) eqn:E.
  - apply strip_nil_iff in E. by rewrite E.
  - destruct (strip line) eqn:Es; [|done].
    apply strip_nil_iff in Es. congruence.
Qed.

(** What the script reads off the generated text, line by line. *)
Lemma parse_questions_kept output :
  parse_questions output
  = take 3 match kept_lines (split_on Chr.nl output) with
           | [] => [placeholder]
           | _ :: _ => List.map strip (kept_lines (split_on Chr.nl output))
           end.
Proof.
  unfold parse_questions, slice_to.
  pose proof (trimmed_lines_strip Chr.nl output) as E.
  unfold trimmed_lines in E. rewrite E, kept_lines_truthy.
  by destruct (kept_lines (split_on Chr.nl output)).
Qed.

Lemma parse_reads_as output : reads_as output (parse_questions output).
Proof.
  exists (split_on Chr.nl output). split; [apply split_on_lines|].
  rewrite parse_questions_kept.
  destruct (kept_lines (split_on Chr.nl output)) as [|line kept]; [done|].
  rewrite firstn_map. apply Forall2_trimming_strip.
Qed.

Lemma reads_as_unique output questions :
  reads_as output questions -> questions = parse_questions output.
Proof.
  intros (lines & ->%lines_of_unique & Hq). rewrite parse_questions_kept.
  destruct (kept_lines (split_on Chr.nl output)) as [|line kept]; [done|].
  rewrite firstn_map. by apply Forall2_trimming_unique.
Qed.

End LineFacts.

(** ** Letters *)

Section LetterFacts.

Lemma same_letter_lower a b : same_letter a b -> ascii_lower a = ascii_lower b.
Proof.
  unfold same_letter, ascii_lower.
  intros [->|[[H ->]|[H ->]]]; [done|..];
    repeat (match goal with
            | |- context [(?x <=? ?y)%N] => destruct (N.leb_spec x y)
            end; cbn [andb]); lia.
Qed.

Lemma lower_same_letter a b : ascii_lower a = ascii_lower b -> same_letter a b.
Proof.
  unfold same_letter, ascii_lower.
  repeat (match goal with
          | |- context [(?x <=? ?y)%N] => destruct (N.leb_spec x y)
          end; cbn [andb]); intros E; lia.
Qed.

Lemma same_letters_lower u c :
  Forall2 same_letter u c <-> List.map ascii_lower u = List.map ascii_lower c.
Proof.
  split.
  - induction 1 as [|a b u c Hab _ IH]; [done|].
    cbn [List.map]. by rewrite (same_letter_lower a b Hab), IH.
  - revert c. induction u as [|a u IH]; intros [|b c] E; try done.
    injection E as Hab E. constructor; [by apply lower_same_letter|by apply IH].
Qed.

End LetterFacts.

(** ** The nearest integer *)

Section RoundFacts.
Local Open Scope Z_scope.

Lemma round_half_even_nearest num den :
  0 < den -> nearest_even num den (PyFloat.round_half_even num den).
Proof.
  intros Hden. unfold nearest_even, PyFloat.round_half_even.
  pose proof (Z.div_mod num den ltac:(lia)) as Hdm.
  pose proof (Z.mod_pos_bound num den Hden) as Hr.
  set (q := num / den) in *. set (r := num mod den) in *.
  clearbody q r.
  assert (E1 : num - q * den = r) by lia.
  assert (E2 : num - (q + 1) * den = r - den) by lia.
  destruct (Z.compare_spec (2 * r) den) as [Heq|Hlt|Hgt].
  - destruct (Z.even q) eqn:Hq.
    + rewrite E1. split; [lia|done].
    + rewrite E2. split; [lia|]. intros _.
      rewrite Z.even_add, Hq. done.
  - rewrite E1. split; lia.
  - rewrite E2. split; lia.
Qed.

(** [round(x, 2)] rounds to two decimal places. *)
Lemma round_hundredths x : rounded_to_hundredths x (PyFloat.round x 2).
Proof.
  destruct x as [s|s| |s m e]; try done.
  unfold rounded_to_hundredths, PyFloat.round.
  change (10 ^ Z.of_nat 2) with 100. change (Z.to_pos 100) with 100%positive.
  destruct e as [|p|p].
  - eexists. split; [|reflexivity]. cbn [Z.ltb Z.compare]. lia.
  - eexists. split; [|reflexivity].
    change (Z.pos p <? 0) with false. cbv iota. lia.
  - eexists. split; [|reflexivity].
    change (Z.neg p <? 0) with true. cbv iota.
    rewrite (Z.mul_comm 100). apply round_half_even_nearest.
    apply Z.pow_pos_nonneg; lia.
Qed.

End RoundFacts.

(** ** The three claims that speak of texts *)

Section TextClaims.
Variables uni_alnum uni_decimal : N -> bool.
Variable uni_lower : pystr -> pystr.
Variable summarizer : pystr -> res pystr.
Variable qa_pipeline : pystr -> pystr -> res (pystr * PyFloat.float).
Variable question_generator : pystr -> res pystr.

(** *** The summary *)

Lemma entries_labelled summaries : forall labels k,
  length labels = length summaries ->
  (forall i label, labels !! i = Some label ->
     ordinal_label (k + i + 1) label) ->
  zip_with entry labels summaries
  = imap (fun i s => labelled (k + i) s) summaries.
Proof.
  induction summaries as [|s summaries IH]; intros [|label labels] k Hlen Hl;
    try done.
  cbn [zip_with imap]. f_equal.
  - unfold entry, labelled. f_equal.
    apply ordinal_label_unique, (Hl 0). done.
  - rewrite (IH labels (S k)).
    + apply imap_ext. intros i x _. unfold compose.
      by replace (S k + i) with (k + S i) by lia.
    + simpl in Hlen. lia.
    + intros i l Hi. replace (S k + i + 1) with (k + S i + 1) by lia.
      by apply Hl.
Qed.

(** There is one aggregate of the summaries, and it is the text that
    the script builds. *)
Lemma is_aggregate_unique summaries text :
  is_aggregate summaries text -> text = aggregate summaries.
Proof.
  intros (labels & Hlen & Hlabels & Htrim).
  rewrite (entries_labelled summaries labels 0 Hlen Hlabels) in Htrim.
  by apply trimming_unique in Htrim.
Qed.

Lemma aggregate_is_aggregate summaries :
  is_aggregate summaries (aggregate summaries).
Proof.
  exists (imap (fun i _ => str_of_nat (i + 1)) summaries).
  assert (Hlen : length (imap (fun i (_ : pystr) => str_of_nat (i + 1))
                              summaries) = length summaries)
    by apply length_imap.
  assert (Hlabels : forall i label,
            imap (fun i (_ : pystr) => str_of_nat (i + 1)) summaries !! i
            = Some label -> ordinal_label (0 + i + 1) label).
  { intros i label. rewrite list_lookup_imap.
    destruct (summaries !! i); [|done]. intros [= <-].
    apply str_of_nat_ordinal. lia. }
  split_and!; [done..|].
  rewrite (entries_labelled summaries _ 0 Hlen Hlabels).
  apply strip_trimming.
Qed.

(** C4.  The summariser is called once for each of the first five chunks
    (all of them when there are fewer), in order, and what is written to
    the page is the aggregate of the summaries and nothing else: each
    summary after its 1-based ordinal label, a decimal numeral that
    denotes the position counted from one, the entries in chunk order
    with a blank line between them, the whole without leading and
    trailing whitespace. *)
Theorem summary_of_first_chunks (d : pystr) (chunks summaries : list pystr)
    (session : gmap string (list pystr)) :
  truthy d = true ->
  split_text uni_alnum uni_decimal d 1000 = Ok chunks ->
  Forall2 (fun chunk summary => summarizer chunk = Ok summary)
          (take 5 chunks) summaries ->
  let run := summary_section uni_alnum uni_decimal summarizer d
               (start session) in
  fst run = Ok tt /\
  summarizer_calls (snd run) = take 5 chunks /\
  length (summarizer_calls (snd run)) = min 5 (length chunks) /\
  exists text,
    is_aggregate summaries text /\
    (forall other, is_aggregate summaries other -> other = text) /\
    screen (snd run)
    = [Subheader (py "Auto-Generated Summary");
       Info (py "Summarizing the main points of your uploaded document...");
       Write text;
       Markdown (py "---")].
Proof.
  intros Hd Hchunks Hsum. unfold summary_section. rewrite Hd.
  unfold mbind, M_bind, lift, st. simpl. rewrite Hchunks.
  unfold slice_to.
  rewrite (summary_loop_spec summarizer _ _ _ _ _ Hsum). simpl.
  rewrite strip_entries. split_and!; try done.
  - by rewrite length_take.
  - exists (aggregate summaries). split_and!.
    + apply aggregate_is_aggregate.
    + apply is_aggregate_unique.
    + done.
Qed.

(** *** Generating the quiz *)

Lemma typed_blank (f : nat -> pystr) n : forall k,
  List.map f (seq k n) = replicate n [] <->
  forall i, k <= i < k + n -> f i = [].
Proof.
  induction n as [|n IH]; intros k; cbn [seq List.map replicate].
  - split; [intros _ i Hi; lia | done].
  - split.
    + intros [= Hk Hrest] i Hi. destruct (decide (i = k)) as [->|Hne]; [done|].
      apply (proj1 (IH (S k)) Hrest). lia.
    + intros H. f_equal; [apply H; lia|]. apply IH. intros i Hi. apply H. lia.
Qed.

Lemma regenerated_session d output ws w :
  truthy d = true ->
  generate_questions ws = true ->
  question_generator (prompt_of d) = Ok output ->
  exists session,
    session_state
      (snd (quiz_section uni_lower qa_pipeline question_generator d ws w))
    = <["user_answers" := typed ws (length (parse_questions output))]>
        (<["user_answers" :=
             replicate (length (parse_questions output)) []]>
           (<["questions" := parse_questions output]> session)).
Proof.
  intros Hd Hclick Hgen.
  pose proof (parse_questions_length output) as [Hpos _].
  unfold quiz_section. rewrite Hd, Hclick.
  rewrite !st_bind_eq.
  unfold mbind at 1, M_bind at 1.
  match goal with
  | |- context [init_quiz ?w0] =>
    destruct (init_quiz_returns w0) as ([] & Hinit);
    destruct (init_quiz w0) as [r w2]; cbn [fst] in Hinit; subst r
  end.
  rewrite st_bind_eq.
  unfold mbind at 1, M_bind at 1.
  rewrite (generate_handler_ok question_generator d _ output Hgen).
  erewrite quiz_body_session; cycle 1.
  { cbn [session_state]. by rewrite lookup_insert_ne, lookup_insert_eq. }
  { cbn [session_state]. by rewrite lookup_insert_eq. }
  { by rewrite length_replicate. }
  exists (session_state w2).
  destruct (parse_questions output) as [|q rest]; [simpl in Hpos; lia|].
  done.
Qed.

(** C5, as amended.  The questions that the Generate transition stores
    are what is read off the generated text: of its lines, those that are
    not empty or whitespace-only, at most the first three, each trimmed,
    or the one placeholder when no line is left; there is exactly one
    such list, of one to three questions.  When the handler is done the
    answer sequence is that many empty strings.  In the run of the quiz
    section in which the button is clicked, the questions are then shown
    and each slot takes the value of its answer widget, so that at the
    end of the run the slots are the empty strings of the reset exactly
    when those widgets are empty.  For the two question lines of the
    scenario the questions are those two lines. *)
Theorem generate_resets_quiz (d output : pystr) :
  question_generator (py "generate questions: " ++ slice_to 1000 d)
  = Ok output ->
  exists questions,
    reads_as output questions /\
    (forall others, reads_as output others -> others = questions) /\
    1 <= length questions <= 3 /\
    (forall w,
       let run := generate_handler question_generator d w in
       fst run = Ok tt /\
       session_state (snd run) !! "questions" = Some questions /\
       session_state (snd run) !! "user_answers"
       = Some (replicate (length questions) [])) /\
    (forall ws w,
       truthy d = true -> generate_questions ws = true ->
       let after :=
         session_state
           (snd (quiz_section uni_lower qa_pipeline question_generator
                              d ws w)) in
       after !! "questions" = Some questions /\
       after !! "user_answers"
       = Some (List.map (your_answer ws) (seq 0 (length questions))) /\
       (after !! "user_answers" = Some (replicate (length questions) []) <->
        forall i, i < length questions -> your_answer ws i = [])) /\
    (output = two_questions ->
     questions = [py "What color is the sky?"; py "What is wet?"]).
Proof.
  intros Hgen. exists (parse_questions output). split_and!.
  - apply parse_reads_as.
  - apply reads_as_unique.
  - apply parse_questions_length.
  - apply parse_questions_length.
  - intros w. cbn zeta.
    rewrite (generate_handler_ok question_generator d w output Hgen).
    cbn [fst snd session_state].
    by rewrite lookup_insert_eq, lookup_insert_ne, lookup_insert_eq.
  - intros ws w Hd Hclick after.
    destruct (regenerated_session d output ws w Hd Hclick Hgen)
      as (session & E).
    subst after. rewrite E.
    rewrite lookup_insert_eq, lookup_insert_ne, lookup_insert_ne,
      lookup_insert_eq by done.
    split_and!; [done..|]. unfold typed. split.
    + intros [= H]. intros i Hi.
      apply (proj1 (typed_blank (your_answer ws) _ 0) H). lia.
    + intros H. f_equal. apply typed_blank. intros i Hi. apply H. lia.
  - by intros ->.
Qed.

(** *** The verdict and the confidence *)

Lemma matches_same_answer user_ans correct :
  isascii user_ans = true -> isascii correct = true ->
  matches uni_lower user_ans correct = true <-> same_answer user_ans correct.
Proof.
  intros Hu Hc. unfold matches, lower.
  rewrite !isascii_strip by done.
  rewrite bool_decide_eq_true, <- same_letters_lower. split.
  - intros H. exists (strip user_ans), (strip correct).
    split_and!; [apply strip_trimming..|done].
  - intros (u & c & ->%trimming_unique & ->%trimming_unique & H). done.
Qed.


End TextClaims.

(** ** The further properties at work *)

Lemma summarizer_failure_stops_run_witness :
  page no_unicode no_unicode same_case no_extractor sky_decoder
       broken_summarizer demo_qa demo_generator (Some text_file) idle
       (start ∅)
  = (Raise PipelineError,
     {| session_state := ∅;
        screen := [Success (py "Document uploaded and text extracted successfully!");
                   Subheader (py "Auto-Generated Summary");
                   Info (py "Summarizing the main points of your uploaded document...")];
        summarizer_calls := [] ++ [sky];
        qa_calls := []; generator_calls := [] |}).
Proof.
  apply (summarizer_failure_stops_run no_unicode no_unicode same_case
           no_extractor sky_decoder broken_summarizer demo_qa demo_generator
           text_file idle ∅ sky [sky] [] [] [] sky PipelineError).
  - vm_compute. reflexivity.
  - reflexivity.
  - vm_compute. reflexivity.
  - reflexivity.
  - constructor.
  - reflexivity.
Defined.

Lemma blank_document_summary_witness :
  summary_section no_unicode no_unicode demo_summarizer [32; 10]%N (start ∅)
  = (Ok tt,
     {| session_state := ∅;
        screen := [Subheader (py "Auto-Generated Summary");
                   Info (py "Summarizing the main points of your uploaded document...");
                   Write [];
                   Markdown (py "---")];
        summarizer_calls := []; qa_calls := []; generator_calls := [] |}).
Proof.
  apply (blank_document_summary no_unicode no_unicode demo_summarizer
           [32; 10]%N ∅).
  - discriminate.
  - intros c Hc. simpl in Hc. simpl. destruct Hc as [<-|[<-|[]]]; tauto.
Defined.

Lemma extraction_failure_stops_run_witness :
  page no_unicode no_unicode same_case no_extractor bad_decoder
       demo_summarizer demo_qa demo_generator (Some text_file) idle (start ∅)
  = (Raise UnicodeDecodeError, start ∅).
Proof.
  apply (extraction_failure_stops_run no_unicode no_unicode same_case
           no_extractor bad_decoder demo_summarizer demo_qa demo_generator
           text_file idle ∅ UnicodeDecodeError).
  right. split; reflexivity.
Defined.

Lemma split_text_any_width_witness :
  exists segments,
    split_text no_unicode no_unicode sky 10 = Ok segments /\
    erase_space (join_empty segments) = erase_space sky.
Proof. apply (split_text_any_width no_unicode no_unicode sky 10). lia. Defined.

Lemma question_is_answered_witness :
  ask_section demo_qa sky asking (start ∅)
  = (Ok tt,
     {| session_state := ∅;
        screen := [] ++
          [Subheader (py "Ask Anything About the Document");
           Markdown (py "Type a question to get an answer based strictly on the document.");
           Columns;
           TextInput (py "Ask your question") None;
           Button (py "Get Answer");
           Spinner (py "Searching for the answer...");
           Success (py "Answer: " ++ py "blue");
           Caption (py "Confidence Score: " ++
                    PyFloat.repr
                      (PyFloat.round
                         (PyFloat.mul score_091 (PyFloat.of_int 100)) 2) ++
                    py "%");
           Markdown (py "---")];
        summarizer_calls := [];
        qa_calls := [] ++ [(py "What color is the sky?", take 2000 sky)];
        generator_calls := [] |}).
Proof.
  apply (question_is_answered demo_qa sky asking (start ∅) (py "blue")
           score_091); reflexivity.
Defined.

Lemma answers_captured_witness :
  let run := capture_answers blue_answers (start one_question) in
  fst run = Ok tt /\
  session_state (snd run) !! "user_answers"
  = Some (List.map (your_answer blue_answers)
                   (seq 0 (length [py "What color is the sky?"]))) /\
  session_state (snd run) !! "questions"
  = Some [py "What color is the sky?"] /\
  screen (snd run)
  = screen (start one_question) ++
    concat (imap slot_widgets [py "What color is the sky?"]).
Proof.
  apply (answers_captured blue_answers (start one_question)
           [py "What color is the sky?"] [py "Blue"]); reflexivity.
Defined.

Lemma answers_need_slots_witness :
  fst (capture_answers blue_answers (start missing_slot)) = Raise IndexError.
Proof.
  apply (answers_need_slots blue_answers (start missing_slot)
           [py "What color is the sky?"] []).
  - reflexivity.
  - reflexivity.
  - simpl. lia.
Defined.

Lemma page_fails_only_outside_witness :
  (exists file, Some text_file = Some file /\
     extract_file_text no_extractor sky_decoder file = Raise PipelineError) \/
  (exists chunk, broken_summarizer chunk = Raise PipelineError) \/
  (exists question context, demo_qa question context = Raise PipelineError) \/
  (exists prompt, demo_generator prompt = Raise PipelineError).
Proof.
  apply (page_fails_only_outside no_unicode no_unicode same_case no_extractor
           sky_decoder broken_summarizer demo_qa demo_generator
           (Some text_file) idle (start ∅) PipelineError).
  - left. reflexivity.
  - vm_compute. reflexivity.
Defined.

Lemma generator_failure_keeps_quiz_witness :
  quiz_section same_case demo_qa broken_generator sky blue_regenerate
               (start one_question)
  = (Raise PipelineError,
     {| session_state := one_question;
        screen := [] ++
                  [Subheader (py "Challenge Me: Auto Quiz");
                   Markdown (py "Click below to generate 3 logic/comprehension questions based on your document.");
                   Button (py "Generate Questions")];
        summarizer_calls := [];
        qa_calls := [];
        generator_calls := [] ++ [py "generate questions: " ++ take 1000 sky] |}).
Proof.
  apply (generator_failure_keeps_quiz same_case demo_qa broken_generator sky
           blue_regenerate (start one_question)
           [py "What color is the sky?"] PipelineError); reflexivity.
Defined.

Lemma regenerated_quiz_takes_typed_answers_witness :
  let after :=
    session_state
      (snd (quiz_section same_case demo_qa demo_generator sky blue_regenerate
              (start one_question))) in
  after !! "questions" = Some (parse_questions two_questions) /\
  after !! "user_answers"
  = Some (List.map (your_answer blue_regenerate)
                   (seq 0 (length (parse_questions two_questions)))).
Proof.
  apply (regenerated_quiz_takes_typed_answers same_case demo_qa demo_generator
           sky two_questions blue_regenerate (start one_question));
    reflexivity.
Defined.

Lemma questions_persist_witness :
  session_state
    (snd (page no_unicode no_unicode same_case no_extractor sky_decoder
               demo_summarizer demo_qa demo_generator (Some text_file)
               blue_answers (start one_question))) !! "questions"
  = Some [py "What color is the sky?"].
Proof.
  apply (questions_persist no_unicode no_unicode same_case no_extractor
           sky_decoder demo_summarizer demo_qa demo_generator
           (Some text_file) blue_answers (start one_question)
           [py "What color is the sky?"]); reflexivity.
Defined.

Lemma evaluation_asks_the_questions_witness :
  let run := evaluate_handler same_case shy_qa sky (start three_answers) in
  fst run = Raise PipelineError /\
  qa_calls (snd run)
  = [(py "What color is the sky?", sky); (py "What is wet?", sky)].
Proof.
  destruct (evaluation_asks_the_questions same_case shy_qa sky
              (start three_answers)
              [py "What color is the sky?"; py "What is wet?"; py "Why?"]
              [py "Blue"; py "  WET "; py "because"])
    as (k & Hk & Hcalls & Hbefore & Hend); [reflexivity..|].
  split; [reflexivity|].
  change (fst (evaluate_handler same_case shy_qa sky (start three_answers)))
    with (@Raise unit PipelineError) in Hend.
  destruct Hend as (q & Hq & Hk1 & Hraise).
  cbn [length] in Hk.
  assert (Hk2 : k = 2).
  { destruct k as [|[|[|[|k]]]]; [lia | | reflexivity | | lia].
    - injection Hq as <-. discriminate Hraise.
    - destruct (Hbefore 1 (py "What is wet?") eq_refl) as (r & Hr); [lia|].
      discriminate Hr. }
  rewrite Hcalls, Hk2. reflexivity.
Defined.

Lemma verdict_ignores_case_and_padding_witness :
  matches same_case (py "  " ++ py "BLUE" ++ [Chr.sp; Chr.nl]) (py "blue")
  = matches same_case (py "Blue") (py "blue").
Proof.
  apply (verdict_ignores_case_and_padding same_case (py "BLUE") (py "Blue")
           (py "blue") (py "  ") [Chr.sp; Chr.nl]); reflexivity.
Defined.

Lemma quiz_stays_small_witness :
  exists questions,
    session_state
      (snd (generate_handler demo_generator sky (snd (init_quiz (start ∅)))))
    !! "questions" = Some questions /\
    length questions <= 3 /\
    Forall (fun q => q <> [] /\ strip q = q /\ ~ In Chr.nl q) questions.
Proof.
  apply (quiz_stays_small no_unicode no_unicode same_case no_extractor
           no_extractor demo_summarizer demo_qa demo_generator).
  apply (reach_step _ _ _ _ _ _ _ _ (Generate sky)).
  apply reach_init. reflexivity.
Defined.

Lemma no_click_no_call_witness :
  let run := page no_unicode no_unicode same_case no_extractor sky_decoder
                  demo_summarizer demo_qa demo_generator (Some text_file)
                  blue_answers (start one_question) in
  qa_calls (snd run) = qa_calls (start one_question) /\
  generator_calls (snd run) = generator_calls (start one_question).
Proof.
  apply (no_click_no_call no_unicode no_unicode same_case no_extractor
           sky_decoder demo_summarizer demo_qa demo_generator
           (Some text_file) blue_answers (start one_question)); reflexivity.
Defined.


Lemma split_text_segments_plain_witness :
  Forall (fun segment => plain segment = true)
         [py "The sky is"; py "blue."; py "Water is"; py "wet."].
Proof.
  apply (split_text_segments_plain no_unicode no_unicode sky 10).
  vm_compute. reflexivity.
Defined.

Lemma parse_questions_round_trip_witness :
  parse_questions
    (join [Chr.nl] [py "What color is the sky?"; py "What is wet?"])
  = [py "What color is the sky?"; py "What is wet?"].
Proof.
  apply (parse_questions_round_trip
           [py "What color is the sky?"; py "What is wet?"]).
  - simpl. lia.
  - repeat constructor; try discriminate; try (vm_compute; reflexivity);
      vm_compute; intros H; repeat destruct H as [H|H]; try discriminate H;
      exact H.
Defined.

Lemma no_text_no_sections_witness :
  page no_unicode no_unicode same_case no_extractor empty_decoder
       demo_summarizer demo_qa demo_generator (Some text_file) asking
       (start one_question)
  = (Ok tt,
     {| session_state := one_question;
        screen := [] ++
                  [Success (py "Document uploaded and text extracted successfully!")];
        summarizer_calls := []; qa_calls := []; generator_calls := [] |}).
Proof.
  apply (no_text_no_sections no_unicode no_unicode same_case no_extractor
           empty_decoder demo_summarizer demo_qa demo_generator
           (Some text_file) asking (start one_question)).
  vm_compute. reflexivity.
Defined.

(** ** The three claims that speak of texts, at work *)

Lemma summary_of_first_chunks_witness :
  let run := summary_section no_unicode no_unicode demo_summarizer
               long_document (start ∅) in
  fst run = Ok tt /\
  summarizer_calls (snd run) = replicate 5 (replicate 1000 97%N) /\
  screen (snd run)
  = [Subheader (py "Auto-Generated Summary");
     Info (py "Summarizing the main points of your uploaded document...");
     Write (py "1. A summary." ++ [Chr.nl; Chr.nl] ++
            py "2. A summary." ++ [Chr.nl; Chr.nl] ++
            py "3. A summary." ++ [Chr.nl; Chr.nl] ++
            py "4. A summary." ++ [Chr.nl; Chr.nl] ++
            py "5. A summary.");
     Markdown (py "---")].
Proof.
  destruct (summary_of_first_chunks no_unicode no_unicode demo_summarizer
              long_document (replicate 6 (replicate 1000 97%N))
              (replicate 5 (py "A summary.")) ∅)
    as (Hok & Hcalls & _ & text & _ & Hunique & Hscreen).
  - reflexivity.
  - vm_compute. reflexivity.
  - repeat constructor.
  - split; [exact Hok|]. split; [exact Hcalls|].
    rewrite Hscreen. do 2 f_equal. apply (f_equal (fun t => [Write t; _])).
    symmetry. apply Hunique.
    exists [py "1"; py "2"; py "3"; py "4"; py "5"]. split_and!.
    + reflexivity.
    + intros i label Hi.
      do 5 (destruct i as [|i];
            [injection Hi as <-; split; [reflexivity | discriminate]|]).
      discriminate Hi.
    + exists [], []. split_and!; [vm_compute; reflexivity | done | done |].
      apply starts_trimmed; vm_compute; reflexivity.
Defined.

(** The claim of C5 as it is worded fails: a line that is kept is not kept
    as it is but trimmed, so the one padded line of [padded_output] is
    not the question that is stored. *)
Lemma generate_resets_quiz_fails :
  ~ (forall (question_generator : pystr -> res pystr) (d output : pystr)
            (lines : list pystr) (w : world),
       question_generator (py "generate questions: " ++ slice_to 1000 d)
       = Ok output ->
       lines_of output lines ->
       session_state (snd (generate_handler question_generator d w))
       !! "questions" = Some (questions_of_lines lines)).
Proof.
  intros H.
  specialize (H (fun _ => Ok padded_output) sky padded_output [padded_output]
                (start ∅) eq_refl).
  assert (Hlines : lines_of padded_output [padded_output]).
  { split_and!; [discriminate | | reflexivity].
    apply Forall_singleton. vm_compute. intros Hin.
    repeat destruct Hin as [Hin|Hin]; try discriminate Hin. exact Hin. }
  apply H in Hlines. vm_compute in Hlines. discriminate Hlines.
Qed.

Lemma generate_resets_quiz_witness :
  let handler := generate_handler messy_generator sky (start ∅) in
  let run := quiz_section same_case demo_qa messy_generator sky
               blue_regenerate (start ∅) in
  let scenario := quiz_section same_case demo_qa demo_generator sky
                    {| ask_your_question := []; get_answer := false;
                       generate_questions := true;
                       your_answer := fun _ => [];
                       evaluate_answers := false |} (start ∅) in
  session_state (snd handler) !! "questions"
  = Some [py "What color is the sky?"; py "What is wet?"; py "Why?"] /\
  session_state (snd handler) !! "user_answers" = Some [[]; []; []] /\
  session_state (snd run) !! "questions"
  = Some [py "What color is the sky?"; py "What is wet?"; py "Why?"] /\
  session_state (snd run) !! "user_answers"
  = Some [py "Blue"; py "Blue"; py "Blue"] /\
  session_state (snd scenario) !! "questions"
  = Some [py "What color is the sky?"; py "What is wet?"] /\
  session_state (snd scenario) !! "user_answers" = Some [[]; []].
Proof.
  destruct (generate_resets_quiz same_case demo_qa messy_generator sky
              messy_output eq_refl)
    as (questions & _ & Hunique & _ & Hhandler & Hrun & _).
  assert (E : [py "What color is the sky?"; py "What is wet?"; py "Why?"]
              = questions).
  { apply Hunique.
    exists [py "  What color is the sky? "; [Chr.sp; Chr.tab]; [];
            py "What is wet?"; py "Why?"; py "How?"; []].
    split.
    - split_and!; [discriminate | | reflexivity].
      repeat (apply Forall_cons; split;
              [vm_compute; intros Hin;
               repeat destruct Hin as [Hin|Hin]; try discriminate Hin;
               exact Hin|]).
      constructor.
    - change (Forall2 trimming
                [py "  What color is the sky? "; py "What is wet?"; py "Why?"]
                [py "What color is the sky?"; py "What is wet?"; py "Why?"]).
      repeat constructor.
      + exists (py "  "), (py " ").
        split_and!; [reflexivity | reflexivity | reflexivity |].
        apply starts_trimmed; vm_compute; reflexivity.
      + exists [], [].
        split_and!; [vm_compute; reflexivity | reflexivity | reflexivity |].
        apply starts_trimmed; vm_compute; reflexivity.
      + exists [], [].
        split_and!; [vm_compute; reflexivity | reflexivity | reflexivity |].
        apply starts_trimmed; vm_compute; reflexivity. }
  destruct (generate_resets_quiz same_case demo_qa demo_generator sky
              two_questions eq_refl)
    as (scene & _ & _ & _ & _ & Hscene & Htwo).
  specialize (Htwo eq_refl). subst scene. subst questions.
  destruct (Hhandler (start ∅)) as (_ & Hq & Hu).
  destruct (Hrun blue_regenerate (start ∅) eq_refl eq_refl) as (Hq' & Hu' & _).
  destruct (Hscene {| ask_your_question := []; get_answer := false;
                      generate_questions := true;
                      your_answer := fun _ => [];
                      evaluate_answers := false |} (start ∅) eq_refl eq_refl)
    as (Hq'' & Hu'' & _).
  split_and!; [exact Hq | exact Hu | exact Hq' | exact Hu' | exact Hq''
              | exact Hu''].
Defined.

